(** * Gamepad shim (src/game_controller.py): model and verified properties

    The HAL component [GamepadShim] of [game_controller.py] is embedded as
    pure functions over an explicit state record.  Conventions:

    - Python [float] values (pin values, the deadzone parameter, the cached
      stick readings) are exact rationals [Q]; rounding of binary64 is not
      modelled, and numeric equality of floats is [Qeq] ([==]).  Every
      float is thus a finite number: NaN and the infinities, which the
      deadzone parameter could hold since the source does not validate
      it, are outside the model.
    - Python [int] values (raw readings, axis bounds, event codes, vendor
      and product identifiers) are [Z].
    - The HAL component [self.h] is a finite map from pin names to typed
      values; the three parameters are fields of the state.
    - A Python exception is a [Raise] result; [/] on floats raises
      [ZeroDivisionError] on a zero divisor, as in Python.
    - The loops of [run] are driven by a list of inputs, one per turn:
      what a discovery pass finds, what [select] and [dev.read()] return,
      and the writes of the control system to the parameters.  The waits
      ([time.sleep], the [select] timeout) carry no state and are left
      out. *)

From Stdlib Require Import ZArith QArith Qabs Lqa Lia List.
From stdpp Require Import gmap strings list fin_maps.

Local Open Scope Z_scope.

(** * The program *)

(** ** Exceptions *)

Inductive exn := ZeroDivisionError | OSError | AttributeError.

Inductive result (A : Type) : Type :=
| Ok (a : A)
| Raise (e : exn).
Arguments Ok {A} a.
Arguments Raise {A} e.

(** Sequencing: an exception aborts the rest of the computation. *)
#[global] Instance result_bind : MBind result := fun A B k m =>
  match m with
  | Ok a => k a
  | Raise e => Raise e
  end.

(** Python float division: [x / y]. *)
Definition pydiv (x y : Q) : result Q :=
  if Qeq_bool y 0 then Raise ZeroDivisionError else Ok (x / y)%Q.

(** ** evdev event codes (linux/input-event-codes.h) *)

Module ecodes.
Definition EV_KEY : Z := 1.
Definition EV_ABS : Z := 3.
Definition ABS_X : Z := 0.
Definition ABS_Y : Z := 1.
Definition ABS_Z : Z := 2.
Definition ABS_RX : Z := 3.
Definition ABS_RY : Z := 4.
Definition ABS_RZ : Z := 5.
Definition ABS_HAT0X : Z := 16.
Definition ABS_HAT0Y : Z := 17.
Definition BTN_SOUTH : Z := 304.
Definition BTN_EAST : Z := 305.
Definition BTN_NORTH : Z := 307.
Definition BTN_WEST : Z := 308.
Definition BTN_TL : Z := 310.
Definition BTN_TR : Z := 311.
Definition BTN_SELECT : Z := 314.
Definition BTN_START : Z := 315.
Definition BTN_THUMBL : Z := 317.
Definition BTN_THUMBR : Z := 318.
End ecodes.

(** ** HAL pins *)

Inductive hal_type := HAL_FLOAT | HAL_BIT.

Inductive hal_value :=
| HalFloat (q : Q)
| HalBit (b : bool).

Definition type_of (v : hal_value) : hal_type :=
  match v with
  | HalFloat _ => HAL_FLOAT
  | HalBit _ => HAL_BIT
  end.

(** Python values written to or read from a pin. *)
Inductive pyval :=
| PyFloat (q : Q)
| PyBool (b : bool)
| PyInt (z : Z).

Definition truthy (v : pyval) : bool :=
  match v with
  | PyFloat q => negb (Qeq_bool q 0)
  | PyBool b => b
  | PyInt z => negb (z =? 0)
  end.

Definition to_float (v : pyval) : Q :=
  match v with
  | PyFloat q => q
  | PyBool b => if b then 1%Q else 0%Q
  | PyInt z => inject_Z z
  end.

(** A write keeps the type the pin was created with. *)
Definition convert (t : hal_type) (v : pyval) : hal_value :=
  match t with
  | HAL_FLOAT => HalFloat (to_float v)
  | HAL_BIT => HalBit (truthy v)
  end.

Definition to_py (v : hal_value) : pyval :=
  match v with
  | HalFloat q => PyFloat q
  | HalBit b => PyBool b
  end.

(** [h.newpin(name, type, HAL_OUT)]: a fresh pin holds zero. *)
Definition newpin (name : string) (t : hal_type) (h : gmap string hal_value)
  : gmap string hal_value :=
  <[name := convert t (PyInt 0)]> h.

(** [h[name]] *)
Definition getitem (h : gmap string hal_value) (name : string) : result pyval :=
  match h !! name with
  | Some v => Ok (to_py v)
  | None => Raise AttributeError
  end.

(** [h[name] = v] *)
Definition setitem (h : gmap string hal_value) (name : string) (v : pyval)
  : result (gmap string hal_value) :=
  match h !! name with
  | Some old => Ok (<[name := convert (type_of old) v]> h)
  | None => Raise AttributeError
  end.

(** [h.getpins()]: the names of the component's pins. *)
Definition getpins (h : gmap string hal_value) : list string :=
  (map_to_list h).*1.

(** ** The component state *)

Record GamepadShim := mkShim {
  h : gmap string hal_value;
  deadzone : Q;
  vendor : Z;
  product : Z;
  _lx : Q;
  _ly : Q;
  _ry : Q;
  _rt : Q;
  _axis_info : gmap Z (Z * Z)
}.

Definition with_h (self : GamepadShim) (h' : gmap string hal_value) :=
  mkShim h' (deadzone self) (vendor self) (product self)
         (_lx self) (_ly self) (_ry self) (_rt self) (_axis_info self).

Definition with_lx (self : GamepadShim) (v : Q) :=
  mkShim (h self) (deadzone self) (vendor self) (product self)
         v (_ly self) (_ry self) (_rt self) (_axis_info self).

Definition with_ly (self : GamepadShim) (v : Q) :=
  mkShim (h self) (deadzone self) (vendor self) (product self)
         (_lx self) v (_ry self) (_rt self) (_axis_info self).

Definition with_ry (self : GamepadShim) (v : Q) :=
  mkShim (h self) (deadzone self) (vendor self) (product self)
         (_lx self) (_ly self) v (_rt self) (_axis_info self).

Definition with_rt (self : GamepadShim) (v : Q) :=
  mkShim (h self) (deadzone self) (vendor self) (product self)
         (_lx self) (_ly self) (_ry self) v (_axis_info self).

Definition with_axis_info (self : GamepadShim) (m : gmap Z (Z * Z)) :=
  mkShim (h self) (deadzone self) (vendor self) (product self)
         (_lx self) (_ly self) (_ry self) (_rt self) m.

Definition with_deadzone (self : GamepadShim) (d : Q) :=
  mkShim (h self) d (vendor self) (product self)
         (_lx self) (_ly self) (_ry self) (_rt self) (_axis_info self).

Definition with_vendor (self : GamepadShim) (v : Z) :=
  mkShim (h self) (deadzone self) v (product self)
         (_lx self) (_ly self) (_ry self) (_rt self) (_axis_info self).

Definition with_product (self : GamepadShim) (p : Z) :=
  mkShim (h self) (deadzone self) (vendor self) p
         (_lx self) (_ly self) (_ry self) (_rt self) (_axis_info self).

(** [self.h[name] = v] on the state. *)
Definition set_pin (self : GamepadShim) (name : string) (v : pyval)
  : result GamepadShim :=
  h' ← setitem (h self) name v; Ok (with_h self h').

(** ** Value scaling *)

Definition _scale_axis (self : GamepadShim) (code raw : Z) : result Q :=
  match _axis_info self !! code with
  | None => Ok 0%Q
  | Some (lo, hi) =>
      if hi =? lo then Ok 0%Q
      else q ← pydiv (2 * inject_Z (raw - lo))%Q (inject_Z (hi - lo));
           Ok (q - 1)%Q
  end.

Definition _scale_trigger (self : GamepadShim) (code raw : Z) : result Q :=
  match _axis_info self !! code with
  | None => Ok 0%Q
  | Some (lo, hi) =>
      if hi =? lo then Ok 0%Q
      else pydiv (inject_Z (raw - lo)) (inject_Z (hi - lo))
  end.

Definition _apply_deadzone (self : GamepadShim) (value : Q) : result Q :=
  let dz := deadzone self in
  if Qlt_le_dec (Qabs value) dz then Ok 0%Q
  else
    let sign := if Qlt_le_dec 0 value then 1%Q else (-1)%Q in
    pydiv (sign * (Qabs value - dz))%Q (1 - dz)%Q.

(** ** Jog outputs *)

Definition _update_jog_outputs (self : GamepadShim) : result GamepadShim :=
  let rt := _rt self in
  x ← _apply_deadzone self (_lx self);
  self ← set_pin self "jog-x" (PyFloat (x * rt)%Q);
  y ← _apply_deadzone self (_ly self);
  self ← set_pin self "jog-y" (PyFloat (y * rt)%Q);
  z ← _apply_deadzone self (_ry self);
  set_pin self "jog-z" (PyFloat (z * rt)%Q).

(** ** Safe defaults *)

(** One iteration of the loop of [_reset]; [except Exception: pass] keeps
    the pins as they are. *)
Definition reset_pin (h : gmap string hal_value) (pin_name : string)
  : gmap string hal_value :=
  let attempt :=
    pin ← getitem h pin_name;
    match pin with
    | PyFloat _ => setitem h pin_name (PyFloat 0)
    | _ => setitem h pin_name (PyInt 0)
    end in
  match attempt with
  | Ok h' => h'
  | Raise _ => h
  end.

Definition _reset (self : GamepadShim) : result GamepadShim :=
  let self := with_rt (with_ry (with_ly (with_lx self 0) 0) 0) 0 in
  let self := with_h self (foldl reset_pin (h self) (getpins (h self))) in
  set_pin self "connected" (PyBool false).

Definition float_pins : list string :=
  ["lx"; "ly"; "rx"; "ry"; "lt"; "rt"; "jog-x"; "jog-y"; "jog-z"].

Definition button_pins : list string :=
  ["a"; "b"; "x"; "y"; "lb"; "rb"; "back"; "start"; "ls"; "rs";
   "up"; "down"; "left"; "right"].

(** The pins as [__init__] creates them. *)
Definition new_pins : gmap string hal_value :=
  let h := foldl (fun h name => newpin name HAL_FLOAT h) ∅ float_pins in
  let h := newpin "connected" HAL_BIT h in
  foldl (fun h name => newpin name HAL_BIT h) h button_pins.

(** Parameters are created holding zero; the deadzone is then set to 0.15. *)
Definition __init__ : result GamepadShim :=
  let self := mkShim new_pins 0 0 0 0 0 0 0 ∅ in
  let self := with_deadzone self (15 # 100) in
  _reset self.

(** ** Device discovery *)

Record AbsInfo := mkAbsInfo { absinfo_min : Z; absinfo_max : Z }.

(** An opened device: its identity and the outcome of
    [capabilities(absinfo=True)], reduced to the entry of [EV_ABS]
    ([None] when [EV_ABS] is not a key of the result). *)
Record InputDevice := mkInputDevice {
  info_vendor : Z;
  info_product : Z;
  capabilities : result (option (list (Z * AbsInfo)))
}.

(** The table built from [caps[ecodes.EV_ABS]]. *)
Definition cache_axis_info (abs : list (Z * AbsInfo)) : gmap Z (Z * Z) :=
  foldl (fun m entry =>
           <[entry.1 := (absinfo_min entry.2, absinfo_max entry.2)]> m)
        ∅ abs.

(** [devices] holds, for each path of [list_devices()], the outcome of
    [InputDevice(path)]. *)
Fixpoint find_device_from (self : GamepadShim) (vid pid : Z)
    (devices : list (result InputDevice))
  : option InputDevice * GamepadShim :=
  match devices with
  | [] => (None, self)
  | Raise _ :: rest => find_device_from self vid pid rest
  | Ok dev :: rest =>
      if negb (vid =? 0) && negb (info_vendor dev =? vid) then
        find_device_from self vid pid rest
      else if negb (pid =? 0) && negb (info_product dev =? pid) then
        find_device_from self vid pid rest
      else
        match capabilities dev with
        | Raise _ => find_device_from self vid pid rest
        | Ok None => find_device_from self vid pid rest
        | Ok (Some abs) =>
            (Some dev, with_axis_info self (cache_axis_info abs))
        end
  end.

Definition _find_device (self : GamepadShim)
    (devices : list (result InputDevice))
  : option InputDevice * GamepadShim :=
  find_device_from self (vendor self) (product self) devices.

(** ** Event mapping *)

Record InputEvent := mkEvent { ev_type : Z; ev_code : Z; ev_value : Z }.

Definition BUTTON_MAP : gmap Z string :=
  list_to_map
    [(ecodes.BTN_SOUTH, "a"); (ecodes.BTN_EAST, "b");
     (ecodes.BTN_NORTH, "x"); (ecodes.BTN_WEST, "y");
     (ecodes.BTN_TL, "lb"); (ecodes.BTN_TR, "rb");
     (ecodes.BTN_SELECT, "back"); (ecodes.BTN_START, "start");
     (ecodes.BTN_THUMBL, "ls"); (ecodes.BTN_THUMBR, "rs")].

(** Iterated in this order by the d-pad loop. *)
Definition DPAD_MAP : list ((Z * Z) * string) :=
  [((ecodes.ABS_HAT0X, 1), "right");
   ((ecodes.ABS_HAT0X, -1), "left");
   ((ecodes.ABS_HAT0Y, 1), "down");
   ((ecodes.ABS_HAT0Y, -1), "up")].

Fixpoint dpad_loop (items : list ((Z * Z) * string)) (code value : Z)
    (self : GamepadShim) : result GamepadShim :=
  match items with
  | [] => Ok self
  | ((dcode, dval), pin) :: rest =>
      self ← (if dcode =? code
              then set_pin self pin (PyBool (value =? dval))
              else Ok self);
      dpad_loop rest code value self
  end.

(** The branch of the event loop for an [EV_ABS] event, before the jog
    outputs are refreshed. *)
Definition handle_abs (self : GamepadShim) (code value : Z)
  : result GamepadShim :=
  if code =? ecodes.ABS_X then
    val ← _scale_axis self code value;
    set_pin (with_lx self val) "lx" (PyFloat val)
  else if code =? ecodes.ABS_Y then
    val ← _scale_axis self code value;
    set_pin (with_ly self (- val)%Q) "ly" (PyFloat (- val)%Q)
  else if code =? ecodes.ABS_RX then
    val ← _scale_axis self code value;
    set_pin self "rx" (PyFloat val)
  else if code =? ecodes.ABS_RY then
    val ← _scale_axis self code value;
    set_pin (with_ry self (- val)%Q) "ry" (PyFloat (- val)%Q)
  else if code =? ecodes.ABS_Z then
    val ← _scale_trigger self code value;
    set_pin self "lt" (PyFloat val)
  else if code =? ecodes.ABS_RZ then
    val ← _scale_trigger self code value;
    set_pin (with_rt self val) "rt" (PyFloat val)
  else if (code =? ecodes.ABS_HAT0X) || (code =? ecodes.ABS_HAT0Y) then
    dpad_loop DPAD_MAP code value self
  else Ok self.

(** The body of [for event in dev.read()]. *)
Definition handle_event (self : GamepadShim) (event : InputEvent)
  : result GamepadShim :=
  if ev_type event =? ecodes.EV_ABS then
    self ← handle_abs self (ev_code event) (ev_value event);
    _update_jog_outputs self
  else if ev_type event =? ecodes.EV_KEY then
    match BUTTON_MAP !! ev_code event with
    | Some pin => set_pin self pin (PyBool (negb (ev_value event =? 0)))
    | None => Ok self
    end
  else Ok self.

Fixpoint handle_events (self : GamepadShim) (events : list InputEvent)
  : result GamepadShim :=
  match events with
  | [] => Ok self
  | event :: rest =>
      self ← handle_event self event;
      handle_events self rest
  end.

(** ** Main loop *)

(** What the environment presents to one turn of the loops of [run]: the
    devices seen by a discovery pass, the outcome of [select] and
    [dev.read()], or a write of the control system to a parameter (for
    the deadzone, a write of a finite number). *)
Inductive input :=
| Devices (devices : list (result InputDevice))
| SelectTimeout
| Read (events : list InputEvent)
| ReadError
| SetDeadzone (d : Q)
| SetVendor (v : Z)
| SetProduct (p : Z).

(** The state of [run]: the component and the device the inner loop
    reads from ([None] while [run] is in discovery). *)
Record session := mkSession { shim : GamepadShim; dev : option InputDevice }.

(** One turn of the inner loop, inside [try]. *)
Definition connected_body (self : GamepadShim) (i : input)
  : result GamepadShim :=
  match i with
  | SelectTimeout => _update_jog_outputs self
  | Read events => handle_events self events
  | ReadError => Raise OSError
  | _ => Ok self
  end.

(** One turn of [run].  An input that cannot occur in the current state
    (a discovery pass while a device is open, device traffic while none
    is) leaves the state as it is; a [Raise] result is an exception that
    leaves [run]. *)
Definition step (s : session) (i : input) : result session :=
  match i with
  | SetDeadzone d => Ok (mkSession (with_deadzone (shim s) d) (dev s))
  | SetVendor v => Ok (mkSession (with_vendor (shim s) v) (dev s))
  | SetProduct p => Ok (mkSession (with_product (shim s) p) (dev s))
  | _ =>
      match dev s with
      | None =>
          match i with
          | Devices devices =>
              match _find_device (shim s) devices with
              | (None, self) =>
                  self ← _reset self; Ok (mkSession self None)
              | (Some d, self) =>
                  self ← set_pin self "connected" (PyBool true);
                  Ok (mkSession self (Some d))
              end
          | _ => Ok s
          end
      | Some d =>
          match connected_body (shim s) i with
          | Ok self => Ok (mkSession self (Some d))
          | Raise OSError =>
              self ← _reset (shim s); Ok (mkSession self None)
          | Raise e => Raise e
          end
      end
  end.

Fixpoint run (s : session) (inputs : list input) : result session :=
  match inputs with
  | [] => Ok s
  | i :: rest => s ← step s i; run s rest
  end.

(** [gp = GamepadShim(); gp.run()] *)
Definition main (inputs : list input) : result session :=
  self ← __init__; run (mkSession self None) inputs.

(** * Predicates, specification formulas and sample data *)

(** ** Arithmetic of the scaling functions *)

(** The formulas of the calibrator as the specification writes them, over
    the rationals. *)
Definition bipolar_formula (lo hi raw : Z) : Q :=
  (2 * (inject_Z raw - inject_Z lo) / (inject_Z hi - inject_Z lo) - 1)%Q.

Definition unipolar_formula (lo hi raw : Z) : Q :=
  ((inject_Z raw - inject_Z lo) / (inject_Z hi - inject_Z lo))%Q.

(** A component whose range table is [table]; the other fields are as
    [__init__] leaves them. *)
Definition shim_with_table (table : gmap Z (Z * Z)) : GamepadShim :=
  mkShim new_pins (15 # 100) 0 0 0 0 0 0 table.

Definition table_0_255 : gmap Z (Z * Z) :=
  cache_axis_info
    [(ecodes.ABS_X, mkAbsInfo 0 255); (ecodes.ABS_Y, mkAbsInfo 0 255);
     (ecodes.ABS_RY, mkAbsInfo 0 255); (ecodes.ABS_RZ, mkAbsInfo 0 255);
     (ecodes.ABS_Z, mkAbsInfo 7 7)].

(** ** Deadzone shaper *)

(** The sign function of the specification's formula. *)
Definition sign (v : Q) : Q :=
  match (v ?= 0)%Q with
  | Gt => 1%Q
  | Eq => 0%Q
  | Lt => (-1)%Q
  end.

Definition shaper_formula (d v : Q) : Q :=
  (sign v * (Qabs v - d) / (1 - d))%Q.

(** ** Pins *)

(** The pins of the component and their types, as created by [__init__]. *)
Definition pin_table : gmap string hal_type := type_of <$> new_pins.

(** The component has exactly the pins of [__init__], with their types. *)
Definition pins_ok (h : gmap string hal_value) : Prop :=
  type_of <$> h = pin_table.

(** The value of a float pin. *)
Definition float_pin (h : gmap string hal_value) (name : string) : option Q :=
  match h !! name with
  | Some (HalFloat q) => Some q
  | _ => None
  end.

(** The value of a bit pin. *)
Definition bit_pin (h : gmap string hal_value) (name : string) : option bool :=
  match h !! name with
  | Some (HalBit b) => Some b
  | _ => None
  end.

(** ** Jog mixer *)

(** The pins after [_update_jog_outputs], given the three shaped values. *)
Definition jog_pins (h : gmap string hal_value) (sx sy sz rt : Q)
  : gmap string hal_value :=
  <["jog-z" := HalFloat (sz * rt)]>
    (<["jog-y" := HalFloat (sy * rt)]>
       (<["jog-x" := HalFloat (sx * rt)]> h)).

(** A component with the given deadzone and cached readings. *)
Definition shim_with_sticks (dz lx ly ry rt : Q) : GamepadShim :=
  mkShim new_pins dz 0 0 lx ly ry rt ∅.

(** ** Reset to safe defaults *)

Definition safe_default (t : hal_type) : hal_value :=
  match t with
  | HAL_FLOAT => HalFloat 0
  | HAL_BIT => HalBit false
  end.

(** ** Invariants of the event loop *)

(** The fields other than the pins. *)
Definition same_but_pins (self self' : GamepadShim) : Prop :=
  self' = with_h self (h self').

(** What a successful operation guarantees about the pins. *)
Definition keeps_pins (self self' : GamepadShim) : Prop :=
  pins_ok (h self) -> pins_ok (h self').

(** While no device is open the component is at rest: every pin holds
    its default and the cached readings are zero. *)
Definition at_rest (self : GamepadShim) : Prop :=
  h self = new_pins /\
  _lx self = 0%Q /\ _ly self = 0%Q /\ _ry self = 0%Q /\ _rt self = 0%Q.

Definition session_inv (s : session) : Prop :=
  pins_ok (h (shim s)) /\ (dev s = None -> at_rest (shim s)).

(** ** Safe defaults while no device is connected *)

(** Every float output is 0.0 and every boolean output, the connection
    status included, is false. *)
Definition all_outputs_default (h : gmap string hal_value) : Prop :=
  (forall name, name ∈ float_pins -> float_pin h name = Some 0%Q) /\
  (forall name, name ∈ "connected" :: button_pins ->
                bit_pin h name = Some false).

(** An 8BitDo pad reporting four stick axes and two triggers, all with
    range [0,255], and the two hat axes. *)
Definition gamepad : InputDevice :=
  mkInputDevice 11720 12550
    (Ok (Some [(ecodes.ABS_X, mkAbsInfo 0 255); (ecodes.ABS_Y, mkAbsInfo 0 255);
               (ecodes.ABS_Z, mkAbsInfo 0 255); (ecodes.ABS_RX, mkAbsInfo 0 255);
               (ecodes.ABS_RY, mkAbsInfo 0 255); (ecodes.ABS_RZ, mkAbsInfo 0 255);
               (ecodes.ABS_HAT0X, mkAbsInfo (-1) 1);
               (ecodes.ABS_HAT0Y, mkAbsInfo (-1) 1)])).

Definition abs_event (code value : Z) : InputEvent :=
  mkEvent ecodes.EV_ABS code value.

Definition key_event (code value : Z) : InputEvent :=
  mkEvent ecodes.EV_KEY code value.

(** Sample runs: a pad is found and used; it is then unplugged and the
    next discovery pass finds nothing. *)
Definition play : list input :=
  [Devices [Ok gamepad];
   Read [abs_event ecodes.ABS_X 255; abs_event ecodes.ABS_RZ 255;
         key_event ecodes.BTN_SOUTH 1]].

Definition play_then_unplug : list input :=
  play ++ [ReadError; Devices []].

(** A run that returns, with a check on the state it returns. *)
Definition returns_with {A : Type} (P : A -> bool) (r : result A) : bool :=
  match r with
  | Ok a => P a
  | Raise _ => false
  end.

Definition scanning (s : session) : bool :=
  match dev s with
  | None => true
  | Some _ => false
  end.

(** ** D-pad *)

(** The two booleans of each hat axis are never both true. *)
Definition dpad_exclusive (h : gmap string hal_value) : Prop :=
  exists l r u d,
    bit_pin h "left" = Some l /\ bit_pin h "right" = Some r /\
    bit_pin h "up" = Some u /\ bit_pin h "down" = Some d /\
    l && r = false /\ u && d = false.

Definition dpad_names : list string := ["up"; "down"; "left"; "right"].

(** The pins after the d-pad loop for the horizontal and the vertical hat
    axis reporting [v]. *)
Definition hat0x_pins (h : gmap string hal_value) (v : Z)
  : gmap string hal_value :=
  <["left" := HalBit (v =? -1)]> (<["right" := HalBit (v =? 1)]> h).

Definition hat0y_pins (h : gmap string hal_value) (v : Z)
  : gmap string hal_value :=
  <["up" := HalBit (v =? -1)]> (<["down" := HalBit (v =? 1)]> h).

(** The pad is pushed left. *)
Definition pushed_left : list input :=
  [Devices [Ok gamepad]; Read [abs_event ecodes.ABS_HAT0X (-1)]].

(** The pad is pushed left, then right, then released. *)
Definition dpad_run : list input :=
  [Devices [Ok gamepad];
   Read [abs_event ecodes.ABS_HAT0X (-1); abs_event ecodes.ABS_HAT0X 1];
   Read [abs_event ecodes.ABS_HAT0Y (-1); abs_event ecodes.ABS_HAT0X 0]].

(** ** Discovery *)

(** The discovery policy as the specification words it: a device is
    taken when it opens, matches each filter that is not zero, and has
    the absolute-axis capability. *)
Definition matches_filter (filter actual : Z) : bool :=
  (filter =? 0) || (actual =? filter).

Definition has_abs_capability (d : InputDevice) : bool :=
  match capabilities d with
  | Ok (Some _) => true
  | _ => false
  end.

Definition eligible (vid pid : Z) (p : result InputDevice) : bool :=
  match p with
  | Ok d => matches_filter vid (info_vendor d)
            && matches_filter pid (info_product d)
            && has_abs_capability d
  | Raise _ => false
  end.

(** First match, by the specification. *)
Fixpoint first_eligible (vid pid : Z) (devices : list (result InputDevice))
  : option InputDevice :=
  match devices with
  | [] => None
  | p :: rest =>
      if eligible vid pid p
      then match p with Ok d => Some d | Raise _ => None end
      else first_eligible vid pid rest
  end.

(** A filter that is not zero and that no device that opens matches. *)
Definition unmatched_filter (filter : Z) (id : InputDevice -> Z)
    (devices : list (result InputDevice)) : Prop :=
  filter <> 0 /\ forall d, Ok d ∈ devices -> id d <> filter.

(** A keyboard without absolute axes, a device that cannot be opened,
    and the pad. *)
Definition keyboard : InputDevice := mkInputDevice 1133 49948 (Ok None).

Definition enumeration : list (result InputDevice) :=
  [Ok keyboard; Raise OSError; Ok gamepad].

(** ** Independence of the jog outputs from right-stick X and left trigger *)

(** Events of the right-stick X axis and of the left trigger. *)
Definition is_rx_or_lt (e : InputEvent) : bool :=
  (ev_type e =? ecodes.EV_ABS)
  && ((ev_code e =? ecodes.ABS_RX) || (ev_code e =? ecodes.ABS_Z)).

(** An input with those events removed. *)
Definition purge_events (events : list InputEvent) : list InputEvent :=
  List.filter (fun e => negb (is_rx_or_lt e)) events.

Definition purge (i : input) : input :=
  match i with
  | Read events => Read (purge_events events)
  | _ => i
  end.

Definition is_deadzone_write (i : input) : bool :=
  match i with
  | SetDeadzone _ => true
  | _ => false
  end.

(** The component without its pins: parameters, cached readings and
    range table. *)
Definition core (self : GamepadShim) : GamepadShim := with_h self ∅.

Definition same_core (s1 s2 : session) : Prop :=
  dev s1 = dev s2 /\ core (shim s1) = core (shim s2).

(** The three jog outputs agree as numbers. *)
Definition jog_equiv (h1 h2 : gmap string hal_value) : Prop :=
  exists x1 y1 z1 x2 y2 z2,
    float_pin h1 "jog-x" = Some x1 /\ float_pin h1 "jog-y" = Some y1 /\
    float_pin h1 "jog-z" = Some z1 /\
    float_pin h2 "jog-x" = Some x2 /\ float_pin h2 "jog-y" = Some y2 /\
    float_pin h2 "jog-z" = Some z2 /\
    (x1 == x2)%Q /\ (y1 == y2)%Q /\ (z1 == z2)%Q.

(** The jog outputs are up to date with the cached readings and the
    deadzone. *)
Definition jog_fresh (self : GamepadShim) : Prop :=
  exists sx sy sz jx jy jz,
    _apply_deadzone self (_lx self) = Ok sx /\
    _apply_deadzone self (_ly self) = Ok sy /\
    _apply_deadzone self (_ry self) = Ok sz /\
    float_pin (h self) "jog-x" = Some jx /\
    float_pin (h self) "jog-y" = Some jy /\
    float_pin (h self) "jog-z" = Some jz /\
    (jx == sx * _rt self)%Q /\ (jy == sy * _rt self)%Q /\
    (jz == sz * _rt self)%Q.

(** ** Two runs that differ in right-stick X and left-trigger events *)

Definition is_param_write (i : input) : bool :=
  match i with
  | SetDeadzone _ | SetVendor _ | SetProduct _ => true
  | _ => false
  end.

(** ** Jog outputs up to date *)

Definition jog_names : list string := ["jog-x"; "jog-y"; "jog-z"].

(** The effect of an event that writes the float pin [own] and then
    refreshes the jog outputs: the core is as before, [own] holds the
    scaled value, the jog outputs are the shaped cached readings times the
    cached trigger, every other pin is as before, and jog outputs that
    were up to date keep their values. *)
Definition writes_own_pin_only (own : string) (val sx sy sz : Q)
    (self self' : GamepadShim) : Prop :=
  core self' = core self /\
  float_pin (h self') own = Some val /\
  float_pin (h self') "jog-x" = Some (sx * _rt self)%Q /\
  float_pin (h self') "jog-y" = Some (sy * _rt self)%Q /\
  float_pin (h self') "jog-z" = Some (sz * _rt self)%Q /\
  (forall name, name <> own -> name ∉ jog_names ->
                h self' !! name = h self !! name) /\
  (jog_fresh self -> jog_equiv (h self) (h self')).

(** Two events that are the same, or are events of the same one of the
    two axes with any two values. *)
Definition event_variant (e1 e2 : InputEvent) : Prop :=
  e1 = e2 \/
  (is_rx_or_lt e1 = true /\ ev_type e2 = ev_type e1 /\ ev_code e2 = ev_code e1).

(** Two inputs that differ in the values of such events only. *)
Definition input_variant (i1 i2 : input) : Prop :=
  match i1, i2 with
  | Read events1, Read events2 => Forall2 event_variant events1 events2
  | _, _ => i1 = i2
  end.

(** The three jog pins hold the same values. *)
Definition same_jog_pins (h1 h2 : gmap string hal_value) : Prop :=
  forall name, name ∈ jog_names -> h1 !! name = h2 !! name.

(** The state in which [run] starts. *)
Definition initial : session :=
  mkSession (mkShim new_pins (15 # 100) 0 0 0 0 0 0 ∅) None.

(** The left stick is pushed and the trigger squeezed; one run also
    moves the right stick sideways and presses the left trigger. *)
Definition jog_run : list input :=
  [Devices [Ok gamepad];
   Read [abs_event ecodes.ABS_X 200; abs_event ecodes.ABS_RZ 255]].

Definition jog_run_with_rx_lt : list input :=
  [Devices [Ok gamepad];
   Read [abs_event ecodes.ABS_RX 3; abs_event ecodes.ABS_X 200;
         abs_event ecodes.ABS_Z 77; abs_event ecodes.ABS_RZ 255;
         abs_event ecodes.ABS_RX 250]].

(** The deadzone is raised above the stick reading while the pad is in
    use and a button is pressed; in one of the two runs a right-stick X
    event comes with the button. *)
Definition deadzone_then_button : list input :=
  jog_run ++ [SetDeadzone (3 # 4); Read [key_event ecodes.BTN_SOUTH 1]].

Definition deadzone_then_rx : list input :=
  jog_run ++ [SetDeadzone (3 # 4);
              Read [abs_event ecodes.ABS_RX 3; key_event ecodes.BTN_SOUTH 1]].

(** The value of a float pin is zero. *)
Definition pin_is_zero (h : gmap string hal_value) (name : string) : bool :=
  match float_pin h name with
  | Some q => Qeq_bool q 0
  | None => false
  end.

(** The value of a float pin is a number other than zero. *)
Definition pin_is_nonzero (h : gmap string hal_value) (name : string)
  : bool :=
  match float_pin h name with
  | Some q => negb (Qeq_bool q 0)
  | None => false
  end.

(** * Further properties: predicates *)

(** ** What the handlers do when they return *)

(** The effect of the [EV_ABS] branch on a component that has its pins:
    the axis routed to, the cached reading and the pin written. *)
Inductive abs_effect (self : GamepadShim) (code value : Z)
  : GamepadShim -> Prop :=
| abs_x val :
    code = ecodes.ABS_X -> _scale_axis self code value = Ok val ->
    abs_effect self code value
      (with_h (with_lx self val) (<["lx" := HalFloat val]> (h self)))
| abs_y val :
    code = ecodes.ABS_Y -> _scale_axis self code value = Ok val ->
    abs_effect self code value
      (with_h (with_ly self (- val)%Q) (<["ly" := HalFloat (- val)%Q]> (h self)))
| abs_rx val :
    code = ecodes.ABS_RX -> _scale_axis self code value = Ok val ->
    abs_effect self code value
      (with_h self (<["rx" := HalFloat val]> (h self)))
| abs_ry val :
    code = ecodes.ABS_RY -> _scale_axis self code value = Ok val ->
    abs_effect self code value
      (with_h (with_ry self (- val)%Q) (<["ry" := HalFloat (- val)%Q]> (h self)))
| abs_z val :
    code = ecodes.ABS_Z -> _scale_trigger self code value = Ok val ->
    abs_effect self code value
      (with_h self (<["lt" := HalFloat val]> (h self)))
| abs_rz val :
    code = ecodes.ABS_RZ -> _scale_trigger self code value = Ok val ->
    abs_effect self code value
      (with_h (with_rt self val) (<["rt" := HalFloat val]> (h self)))
| abs_hat0x :
    code = ecodes.ABS_HAT0X ->
    abs_effect self code value (with_h self (hat0x_pins (h self) value))
| abs_hat0y :
    code = ecodes.ABS_HAT0Y ->
    abs_effect self code value (with_h self (hat0y_pins (h self) value))
| abs_other :
    code ∉ [ecodes.ABS_X; ecodes.ABS_Y; ecodes.ABS_RX; ecodes.ABS_RY;
            ecodes.ABS_Z; ecodes.ABS_RZ; ecodes.ABS_HAT0X; ecodes.ABS_HAT0Y] ->
    abs_effect self code value self.

(** The effect of one event. *)
Inductive event_effect (self : GamepadShim) (event : InputEvent)
  : GamepadShim -> Prop :=
| event_abs a sx sy sz :
    ev_type event = ecodes.EV_ABS ->
    abs_effect self (ev_code event) (ev_value event) a ->
    _apply_deadzone a (_lx a) = Ok sx ->
    _apply_deadzone a (_ly a) = Ok sy ->
    _apply_deadzone a (_ry a) = Ok sz ->
    event_effect self event (with_h a (jog_pins (h a) sx sy sz (_rt a)))
| event_key pin :
    ev_type event = ecodes.EV_KEY ->
    BUTTON_MAP !! ev_code event = Some pin ->
    event_effect self event
      (with_h self (<[pin := HalBit (negb (ev_value event =? 0))]> (h self)))
| event_ignored :
    ev_type event <> ecodes.EV_ABS ->
    (ev_type event = ecodes.EV_KEY -> BUTTON_MAP !! ev_code event = None) ->
    event_effect self event self.

(** The effect of one turn of [run]. *)
Inductive step_effect (s : session) : input -> session -> Prop :=
| step_set_deadzone d :
    step_effect s (SetDeadzone d)
                (mkSession (with_deadzone (shim s) d) (dev s))
| step_set_vendor v :
    step_effect s (SetVendor v) (mkSession (with_vendor (shim s) v) (dev s))
| step_set_product p :
    step_effect s (SetProduct p)
                (mkSession (with_product (shim s) p) (dev s))
| step_idle i :
    is_param_write i = false -> step_effect s i s
| step_reset i :
    is_param_write i = false ->
    step_effect s i
      (mkSession (mkShim new_pins (deadzone (shim s)) (vendor (shim s))
                         (product (shim s)) 0 0 0 0 (_axis_info (shim s)))
                 None)
| step_connect devices d abs :
    dev s = None ->
    (_find_device (shim s) devices).1 = Some d ->
    capabilities d = Ok (Some abs) ->
    step_effect s (Devices devices)
      (mkSession
         (with_h (with_axis_info (shim s) (cache_axis_info abs))
                 (<["connected" := HalBit true]> (h (shim s))))
         (Some d))
| step_tick d sx sy sz :
    dev s = Some d ->
    _apply_deadzone (shim s) (_lx (shim s)) = Ok sx ->
    _apply_deadzone (shim s) (_ly (shim s)) = Ok sy ->
    _apply_deadzone (shim s) (_ry (shim s)) = Ok sz ->
    step_effect s SelectTimeout
      (mkSession (with_h (shim s)
                         (jog_pins (h (shim s)) sx sy sz (_rt (shim s))))
                 (Some d))
| step_read d events a :
    dev s = Some d ->
    handle_events (shim s) events = Ok a ->
    step_effect s (Read events) (mkSession a (Some d)).

(** ** Invariants of the pins *)

(** The four pins that publish the cached readings hold them. *)
Definition pins_mirror (self : GamepadShim) : Prop :=
  float_pin (h self) "lx" = Some (_lx self) /\
  float_pin (h self) "ly" = Some (_ly self) /\
  float_pin (h self) "ry" = Some (_ry self) /\
  float_pin (h self) "rt" = Some (_rt self).

(** The connection status tells whether a device is open. *)
Definition connected_tracks_dev (s : session) : Prop :=
  bit_pin (h (shim s)) "connected" = Some (negb (scanning s)).

(** The range table in use is the one of the open device. *)
Definition table_of_open_device (s : session) : Prop :=
  forall d, dev s = Some d ->
            exists abs, capabilities d = Ok (Some abs)
                        /\ _axis_info (shim s) = cache_axis_info abs.

(** The pins driven by [BUTTON_MAP]. *)
Definition mapped_buttons : list string :=
  ["a"; "b"; "x"; "y"; "lb"; "rb"; "back"; "start"; "ls"; "rs"].

(** ** Survival of the loop *)

(** A write of exactly 1 to the deadzone parameter. *)
Definition sets_deadzone_to_one (i : input) : bool :=
  match i with
  | SetDeadzone d => Qeq_bool d 1
  | _ => false
  end.

(** A stick held at full scale, then a deadzone of 1, then an idle tick. *)
Definition full_stick_then_deadzone_one : list input :=
  [Devices [Ok gamepad]; Read [abs_event ecodes.ABS_X 255]; SetDeadzone 1].

(** ** Range table and discovery *)

(** The bounds of the last entry of [abs] for [code]. *)
Definition last_bounds (code : Z) (abs : list (Z * AbsInfo)) : option (Z * Z) :=
  (fun entry => (absinfo_min entry.2, absinfo_max entry.2))
    <$> List.find (fun entry => entry.1 =? code) (rev abs).

(** A device that reports the axis ABS_X twice. *)
Definition twice_x : list (Z * AbsInfo) :=
  [(ecodes.ABS_X, mkAbsInfo 0 255); (ecodes.ABS_Y, mkAbsInfo 0 1023);
   (ecodes.ABS_X, mkAbsInfo (-128) 127)].

(** ** The jog outputs as a function of the pins *)



(** ** The right trigger as a gate *)

(** An event of the right trigger. *)
Definition is_rz (event : InputEvent) : bool :=
  (ev_type event =? ecodes.EV_ABS) && (ev_code event =? ecodes.ABS_RZ).

Definition has_rz (i : input) : bool :=
  match i with
  | Read events => existsb is_rz events
  | _ => false
  end.

(** The three jog outputs are zero. *)
Definition jog_zero (h : gmap string hal_value) : Prop :=
  exists jx jy jz,
    float_pin h "jog-x" = Some jx /\ float_pin h "jog-y" = Some jy /\
    float_pin h "jog-z" = Some jz /\
    (jx == 0)%Q /\ (jy == 0)%Q /\ (jz == 0)%Q.

Definition trigger_released (self : GamepadShim) : Prop :=
  (_rt self == 0)%Q /\ jog_zero (h self).

(** A range table under which every right-trigger reading scales to 0:
    the axis is not in the table, or its two bounds are equal. *)
Definition trigger_dead (table : gmap Z (Z * Z)) : bool :=
  match table !! ecodes.ABS_RZ with
  | None => true
  | Some (lo, hi) => hi =? lo
  end.

(** A pad whose right trigger reports the degenerate range [0,0]. *)
Definition pad_without_trigger : InputDevice :=
  mkInputDevice 11720 12550
    (Ok (Some [(ecodes.ABS_X, mkAbsInfo 0 255); (ecodes.ABS_Y, mkAbsInfo 0 255);
               (ecodes.ABS_RY, mkAbsInfo 0 255);
               (ecodes.ABS_RZ, mkAbsInfo 0 0)])).

(** The sticks are pushed and the trigger squeezed on that pad, after a
    first session with the full pad. *)
Definition play_without_trigger : list input :=
  play_then_unplug ++
  [Devices [Ok pad_without_trigger];
   Read [abs_event ecodes.ABS_X 255; abs_event ecodes.ABS_RZ 255;
         abs_event ecodes.ABS_RY 0];
   SelectTimeout].

(** A new session in which the sticks move and buttons are pressed but
    the trigger reports nothing. *)
Definition sticks_only : list input :=
  [Devices [Ok gamepad];
   Read [abs_event ecodes.ABS_X 255; abs_event ecodes.ABS_Y 0;
         key_event ecodes.BTN_SOUTH 1; abs_event ecodes.ABS_Z 255];
   SelectTimeout; SetDeadzone (1 # 2);
   Read [abs_event ecodes.ABS_RY 255]].

(** ** Readings within the reported ranges *)

(** A float pin holds a value between two bounds. *)
Definition pin_in (h : gmap string hal_value) (name : string) (lo hi : Q)
  : Prop :=
  exists q, float_pin h name = Some q /\ (lo <= q)%Q /\ (q <= hi)%Q.

(** The sticks and the jog outputs lie in [-1,1], the triggers in [0,1]. *)
Definition analog_outputs_in_range (h : gmap string hal_value) : Prop :=
  pin_in h "lx" (-1) 1 /\ pin_in h "ly" (-1) 1 /\
  pin_in h "rx" (-1) 1 /\ pin_in h "ry" (-1) 1 /\
  pin_in h "lt" 0 1 /\ pin_in h "rt" 0 1 /\
  pin_in h "jog-x" (-1) 1 /\ pin_in h "jog-y" (-1) 1 /\
  pin_in h "jog-z" (-1) 1.

Definition outputs_bounded (self : GamepadShim) : Prop :=
  ((-1 <= _lx self)%Q /\ (_lx self <= 1)%Q) /\
  ((-1 <= _ly self)%Q /\ (_ly self <= 1)%Q) /\
  ((-1 <= _ry self)%Q /\ (_ry self <= 1)%Q) /\
  ((0 <= _rt self)%Q /\ (_rt self <= 1)%Q) /\
  analog_outputs_in_range (h self).

(** The raw value lies within the bounds the table has for the axis (an
    axis the table does not have is not constrained). *)
Definition reading_ok (table : gmap Z (Z * Z)) (code raw : Z) : bool :=
  match table !! code with
  | Some (lo, hi) => (lo <=? raw) && (raw <=? hi)
  | None => true
  end.

Definition reading_in_range (table : gmap Z (Z * Z)) (event : InputEvent)
  : bool :=
  if ev_type event =? ecodes.EV_ABS
  then reading_ok table (ev_code event) (ev_value event)
  else true.

(** A deadzone in [0,1). *)
Definition deadzone_ok (d : Q) : bool :=
  Qle_bool 0 d && negb (Qle_bool 1 d).

Definition input_in_range (self : GamepadShim) (i : input) : bool :=
  match i with
  | Read events => forallb (reading_in_range (_axis_info self)) events
  | SetDeadzone d => deadzone_ok d
  | _ => true
  end.

(** Along the run from [s], every batch of events is within the range
    table in use when it is read, and every deadzone written is in
    [0,1). *)
Fixpoint run_in_range (s : session) (inputs : list input) : bool :=
  match inputs with
  | [] => true
  | i :: rest =>
      input_in_range (shim s) i &&
      match step s i with
      | Ok s' => run_in_range s' rest
      | Raise _ => true
      end
  end.

(** Both sticks and both triggers are swept over the reported range; the
    deadzone is changed in between. *)
Definition sweep : list input :=
  [Devices [Ok gamepad];
   Read [abs_event ecodes.ABS_X 0; abs_event ecodes.ABS_Y 255;
         abs_event ecodes.ABS_RZ 255; abs_event ecodes.ABS_Z 255];
   SetDeadzone (9 # 10); SelectTimeout;
   Read [abs_event ecodes.ABS_RX 0; abs_event ecodes.ABS_RY 7;
         key_event ecodes.BTN_SOUTH 1; abs_event ecodes.ABS_HAT0X (-1)];
   SetDeadzone 0;
   Read [abs_event ecodes.ABS_X 255]].

(** ** A new session after a disconnect *)

(** Two components that differ at most in the range table. *)
Definition same_but_table (a b : GamepadShim) : Prop :=
  with_axis_info a ∅ = with_axis_info b ∅.

(** Two states of [run] that are equal, or are both in discovery and
    differ at most in the range table. *)
Definition same_session (s1 s2 : session) : Prop :=
  s1 = s2 \/
  (dev s1 = None /\ dev s2 = None /\ same_but_table (shim s1) (shim s2)).

(** A pad with other ranges than [gamepad]. *)
Definition other_pad : InputDevice :=
  mkInputDevice 1118 654
    (Ok (Some [(ecodes.ABS_X, mkAbsInfo (-32768) 32767);
               (ecodes.ABS_Y, mkAbsInfo (-32768) 32767);
               (ecodes.ABS_RZ, mkAbsInfo 0 1023)])).

Definition play_other_pad : list input :=
  [Devices [Ok other_pad];
   Read [abs_event ecodes.ABS_X 32767; abs_event ecodes.ABS_RZ 1023]].

(** * Properties *)

(** ** Arithmetic of the scaling functions *)

Section Arithmetic.
Local Open Scope Q_scope.

Lemma pydiv_ok (x y : Q) : ~ y == 0 -> pydiv x y = Ok (x / y).
Proof.
  intros Hy. unfold pydiv.
  destruct (Qeq_bool y 0) eqn:E; [|reflexivity].
  apply Qeq_bool_iff in E. contradiction.
Qed.

Lemma pydiv_zero (x y : Q) : y == 0 -> pydiv x y = Raise ZeroDivisionError.
Proof.
  intros Hy. unfold pydiv. apply Qeq_bool_iff in Hy. now rewrite Hy.
Qed.

Lemma inject_Z_sub_nonzero (a b : Z) : a <> b -> ~ inject_Z (a - b) == 0.
Proof.
  intros Hab E. unfold Qeq, inject_Z in E. simpl in E. lia.
Qed.

Lemma inject_Z_sub_pos (a b : Z) : (b < a)%Z -> 0 < inject_Z (a - b).
Proof.
  intros Hab. unfold Qlt, inject_Z. simpl. lia.
Qed.

Lemma inject_Z_sub_le (a b c : Z) :
  (a <= b)%Z -> inject_Z (a - c) <= inject_Z (b - c).
Proof.
  intros Hab. rewrite <- Zle_Qle. lia.
Qed.

(** [n / d] for [0 <= n <= d], [0 < d]. *)
Lemma ratio_bounds (n d : Q) : 0 < d -> 0 <= n -> n <= d -> 0 <= n / d <= 1.
Proof.
  intros Hd Hn Hnd. split.
  - apply Qle_shift_div_l; [exact Hd | lra].
  - apply Qle_shift_div_r; [exact Hd | lra].
Qed.

Lemma ratio_mono (n1 n2 d : Q) : 0 < d -> n1 <= n2 -> n1 / d <= n2 / d.
Proof.
  intros Hd Hn. unfold Qdiv. apply Qmult_le_compat_r; [exact Hn |].
  apply Qinv_le_0_compat. lra.
Qed.

Lemma ratio_self (d : Q) : ~ d == 0 -> d / d == 1.
Proof. intros Hd. field. exact Hd. Qed.

Lemma ratio_zero (n d : Q) : n == 0 -> n / d == 0.
Proof. intros Hn. rewrite Hn. unfold Qdiv. ring. Qed.

End Arithmetic.

Lemma scale_axis_known self code raw lo hi :
  _axis_info self !! code = Some (lo, hi) -> lo <> hi ->
  _scale_axis self code raw
  = Ok (2 * inject_Z (raw - lo) / inject_Z (hi - lo) - 1)%Q.
Proof.
  intros Hinfo Hne. unfold _scale_axis. rewrite Hinfo.
  destruct (Z.eqb_spec hi lo) as [->|_]; [congruence|].
  rewrite pydiv_ok by (apply inject_Z_sub_nonzero; congruence).
  reflexivity.
Qed.

Lemma scale_trigger_known self code raw lo hi :
  _axis_info self !! code = Some (lo, hi) -> lo <> hi ->
  _scale_trigger self code raw
  = Ok (inject_Z (raw - lo) / inject_Z (hi - lo))%Q.
Proof.
  intros Hinfo Hne. unfold _scale_trigger. rewrite Hinfo.
  destruct (Z.eqb_spec hi lo) as [->|_]; [congruence|].
  apply pydiv_ok, inject_Z_sub_nonzero. congruence.
Qed.

Lemma scale_unknown self code raw :
  _axis_info self !! code = None ->
  _scale_axis self code raw = Ok 0%Q /\ _scale_trigger self code raw = Ok 0%Q.
Proof.
  intros Hinfo. unfold _scale_axis, _scale_trigger. now rewrite Hinfo.
Qed.

Lemma scale_degenerate self code raw lo :
  _axis_info self !! code = Some (lo, lo) ->
  _scale_axis self code raw = Ok 0%Q /\ _scale_trigger self code raw = Ok 0%Q.
Proof.
  intros Hinfo. unfold _scale_axis, _scale_trigger.
  now rewrite Hinfo, Z.eqb_refl.
Qed.

Lemma bipolar_formula_eq lo hi raw :
  lo <> hi ->
  (2 * inject_Z (raw - lo) / inject_Z (hi - lo) - 1 == bipolar_formula lo hi raw)%Q.
Proof.
  intros Hne. unfold bipolar_formula.
  unfold Z.sub. rewrite !inject_Z_plus, !inject_Z_opp. reflexivity.
Qed.

Lemma unipolar_formula_eq lo hi raw :
  (inject_Z (raw - lo) / inject_Z (hi - lo) == unipolar_formula lo hi raw)%Q.
Proof.
  unfold unipolar_formula.
  unfold Z.sub. rewrite !inject_Z_plus, !inject_Z_opp. reflexivity.
Qed.

(** C3: for an axis of the table with bounds [lo <> hi] the calibrator
    returns, without raising, [2*(raw-lo)/(hi-lo) - 1] (stick axes) and
    [(raw-lo)/(hi-lo)] (triggers); for an axis absent from the table and
    for an axis with [lo = hi] both return exactly [0.0]. *)
Theorem C3_axis_calibrator (self : GamepadShim) (code raw : Z) :
  (forall lo hi,
      _axis_info self !! code = Some (lo, hi) -> lo <> hi ->
      (exists q, _scale_axis self code raw = Ok q
                 /\ (q == bipolar_formula lo hi raw)%Q) /\
      (exists q, _scale_trigger self code raw = Ok q
                 /\ (q == unipolar_formula lo hi raw)%Q)) /\
  (_axis_info self !! code = None ->
      _scale_axis self code raw = Ok 0%Q /\
      _scale_trigger self code raw = Ok 0%Q) /\
  (forall lo,
      _axis_info self !! code = Some (lo, lo) ->
      _scale_axis self code raw = Ok 0%Q /\
      _scale_trigger self code raw = Ok 0%Q).
Proof.
  split; [|split].
  - intros lo hi Hinfo Hne. split.
    + eexists. split; [apply (scale_axis_known _ _ _ lo hi); assumption|].
      now apply bipolar_formula_eq.
    + eexists. split; [apply (scale_trigger_known _ _ _ lo hi); assumption|].
      apply unipolar_formula_eq.
  - apply scale_unknown.
  - apply scale_degenerate.
Qed.

(** The scenario of the specification: range [0,255], raw 128 gives 1/255;
    an unknown axis and a degenerate one give 0. *)
Lemma C3_axis_calibrator_witness :
  (exists q, _scale_axis (shim_with_table table_0_255) ecodes.ABS_X 128 = Ok q
             /\ (q == 1 # 255)%Q) /\
  (exists q, _scale_trigger (shim_with_table table_0_255) ecodes.ABS_RZ 128 = Ok q
             /\ (q == 128 # 255)%Q) /\
  _scale_axis (shim_with_table table_0_255) ecodes.ABS_RX 128 = Ok 0%Q /\
  _scale_trigger (shim_with_table table_0_255) ecodes.ABS_Z 128 = Ok 0%Q.
Proof.
  split; [|split; [|split]].
  - destruct (C3_axis_calibrator (shim_with_table table_0_255) ecodes.ABS_X 128)
      as [H _].
    destruct (H 0 255) as [[q [Hq Hf]] _]; [reflexivity | lia |].
    exists q. split; [exact Hq |]. rewrite Hf. reflexivity.
  - destruct (C3_axis_calibrator (shim_with_table table_0_255) ecodes.ABS_RZ 128)
      as [H _].
    destruct (H 0 255) as [_ [q [Hq Hf]]]; [reflexivity | lia |].
    exists q. split; [exact Hq |]. rewrite Hf. reflexivity.
  - destruct (C3_axis_calibrator (shim_with_table table_0_255) ecodes.ABS_RX 128)
      as [_ [H _]].
    apply H. reflexivity.
  - destruct (C3_axis_calibrator (shim_with_table table_0_255) ecodes.ABS_Z 128)
      as [_ [_ H]].
    apply (H 7). reflexivity.
Defined.

(** ** Totality of scaling and shaping *)

Lemma scale_axis_total self code raw : exists q, _scale_axis self code raw = Ok q.
Proof.
  unfold _scale_axis.
  destruct (_axis_info self !! code) as [[lo hi]|]; [|eauto].
  destruct (Z.eqb_spec hi lo) as [->|Hne]; [eauto|].
  rewrite pydiv_ok by (now apply inject_Z_sub_nonzero). simpl. eauto.
Qed.

Lemma scale_trigger_total self code raw :
  exists q, _scale_trigger self code raw = Ok q.
Proof.
  unfold _scale_trigger.
  destruct (_axis_info self !! code) as [[lo hi]|]; [|eauto].
  destruct (Z.eqb_spec hi lo) as [->|Hne]; [eauto|].
  rewrite pydiv_ok by (now apply inject_Z_sub_nonzero). eauto.
Qed.

Lemma apply_deadzone_inside self v :
  (Qabs v < deadzone self)%Q -> _apply_deadzone self v = Ok 0%Q.
Proof.
  intros Hv. unfold _apply_deadzone.
  destruct (Qlt_le_dec (Qabs v) (deadzone self)); [reflexivity | lra].
Qed.

Lemma apply_deadzone_outside self v :
  (deadzone self <= Qabs v)%Q -> ~ (deadzone self == 1)%Q ->
  _apply_deadzone self v
  = Ok ((if Qlt_le_dec 0 v then 1 else -1) * (Qabs v - deadzone self)
        / (1 - deadzone self))%Q.
Proof.
  intros Hv Hd. unfold _apply_deadzone.
  destruct (Qlt_le_dec (Qabs v) (deadzone self)); [lra|].
  apply pydiv_ok. lra.
Qed.

Lemma apply_deadzone_total self v :
  ~ (deadzone self == 1)%Q -> exists q, _apply_deadzone self v = Ok q.
Proof.
  intros Hd.
  destruct (Qlt_le_dec (Qabs v) (deadzone self)).
  - rewrite apply_deadzone_inside by assumption. eauto.
  - rewrite apply_deadzone_outside by assumption. eauto.
Qed.

(** The one way the shaper raises: a deadzone of exactly 1 with the
    stick at or beyond full scale. *)
Lemma apply_deadzone_raises self v :
  (deadzone self == 1)%Q -> (1 <= Qabs v)%Q ->
  _apply_deadzone self v = Raise ZeroDivisionError.
Proof.
  intros Hd Hv. unfold _apply_deadzone.
  destruct (Qlt_le_dec (Qabs v) (deadzone self)); [lra|].
  apply pydiv_zero. lra.
Qed.

(** C9: the two scaling functions return a number for every table, axis
    code and raw reading, and the shaper returns a number for every value
    when the deadzone lies in [0,1): no division by zero is raised. *)
Theorem C9_scaling_total (self : GamepadShim) (code raw : Z) (v : Q) :
  (exists q, _scale_axis self code raw = Ok q) /\
  (exists q, _scale_trigger self code raw = Ok q) /\
  ((0 <= deadzone self)%Q -> (deadzone self < 1)%Q ->
   exists q, _apply_deadzone self v = Ok q).
Proof.
  split; [apply scale_axis_total|].
  split; [apply scale_trigger_total|].
  intros _ Hd. apply apply_deadzone_total. lra.
Qed.

(** A degenerate axis and a full-scale value with the default deadzone. *)
Lemma C9_scaling_total_witness :
  (exists q, _scale_axis (shim_with_table table_0_255) ecodes.ABS_Z 9 = Ok q) /\
  (exists q, _scale_trigger (shim_with_table table_0_255) ecodes.ABS_Z 9 = Ok q) /\
  (exists q, _apply_deadzone (shim_with_table table_0_255) 1 = Ok q).
Proof.
  destruct (C9_scaling_total (shim_with_table table_0_255) ecodes.ABS_Z 9 1)
    as [Ha [Ht Hs]].
  split; [exact Ha|]. split; [exact Ht|].
  apply Hs; simpl; lra.
Defined.

(** ** Deadzone shaper *)

Section Shaper.
Local Open Scope Q_scope.

Lemma Qabs_cases (v : Q) :
  (0 < v /\ Qabs v == v) \/ (v <= 0 /\ Qabs v == - v).
Proof.
  destruct (Qlt_le_dec 0 v) as [Hv|Hv].
  - left. split; [exact Hv|]. apply Qabs_pos. lra.
  - right. split; [exact Hv|]. now apply Qabs_neg.
Qed.

Lemma sign_pos v : 0 < v -> sign v = 1.
Proof.
  intros Hv. unfold sign.
  destruct (v ?= 0) eqn:E; [| |reflexivity].
  - apply Qeq_alt in E. lra.
  - apply Qlt_alt in E. lra.
Qed.

Lemma sign_neg v : v < 0 -> sign v = -1.
Proof.
  intros Hv. unfold sign.
  destruct (v ?= 0) eqn:E; [|reflexivity|].
  - apply Qeq_alt in E. lra.
  - apply Qgt_alt in E. lra.
Qed.

Lemma sign_zero v : v == 0 -> sign v = 0.
Proof.
  intros Hv. unfold sign. apply Qeq_alt in Hv. now rewrite Hv.
Qed.

Lemma div_eq_compat (n1 n2 c : Q) : n1 == n2 -> n1 / c == n2 / c.
Proof. intros Hn. now rewrite Hn. Qed.

(** The numerator the code computes agrees with the specification's,
    also at [v == 0], where the code's sign is [-1]. *)
Lemma numerator_eq (d v : Q) :
  0 <= d -> d <= Qabs v ->
  (if Qlt_le_dec 0 v then 1 else -1) * (Qabs v - d) == sign v * (Qabs v - d).
Proof.
  intros Hd Hv.
  destruct (Qabs_cases v) as [[Hpos Ha]|[Hneg Ha]].
  - rewrite (sign_pos v Hpos).
    destruct (Qlt_le_dec 0 v); [reflexivity | lra].
  - destruct (Qlt_le_dec 0 v) as [Hc|_]; [lra|].
    destruct (Qlt_le_dec v 0) as [Hlt|Hge].
    + now rewrite (sign_neg v Hlt).
    + assert (Hz : v == 0) by lra.
      rewrite (sign_zero v Hz). lra.
Qed.

(** The numerator grows with the stick value outside the deadzone. *)
Lemma numerator_mono (d v w : Q) :
  0 <= d -> d <= Qabs v -> d <= Qabs w -> v <= w ->
  (if Qlt_le_dec 0 v then 1 else -1) * (Qabs v - d)
  <= (if Qlt_le_dec 0 w then 1 else -1) * (Qabs w - d).
Proof.
  intros Hd Hv Hw Hvw.
  destruct (Qabs_cases v) as [[Hv0 Hav]|[Hv0 Hav]];
    destruct (Qabs_cases w) as [[Hw0 Haw]|[Hw0 Haw]];
    destruct (Qlt_le_dec 0 v); destruct (Qlt_le_dec 0 w); lra.
Qed.

End Shaper.

(** C4: with a deadzone [d] in [0,1) and a value [v] in [-1,1], the
    shaper returns exactly 0 when [|v| < d] and otherwise
    [sign(v) * (|v| - d) / (1 - d)]; so it returns 0 at [v == d] (and at
    [v == -d]), 1 at [v == 1], -1 at [v == -1], and it is monotonic in [v]
    over the values with [|v| >= d]. *)
Theorem C4_deadzone_shaper (self : GamepadShim) (v : Q) :
  (0 <= deadzone self)%Q -> (deadzone self < 1)%Q ->
  (-1 <= v)%Q -> (v <= 1)%Q ->
  ((Qabs v < deadzone self)%Q -> _apply_deadzone self v = Ok 0%Q) /\
  ((deadzone self <= Qabs v)%Q ->
     exists q, _apply_deadzone self v = Ok q
               /\ (q == shaper_formula (deadzone self) v)%Q) /\
  ((Qabs v == deadzone self)%Q ->
     exists q, _apply_deadzone self v = Ok q /\ (q == 0)%Q) /\
  ((v == 1)%Q -> exists q, _apply_deadzone self v = Ok q /\ (q == 1)%Q) /\
  ((v == -1)%Q -> exists q, _apply_deadzone self v = Ok q /\ (q == -1)%Q) /\
  (forall w : Q,
     (deadzone self <= Qabs v)%Q -> (deadzone self <= Qabs w)%Q ->
     (v <= w)%Q ->
     exists qv qw, _apply_deadzone self v = Ok qv
                   /\ _apply_deadzone self w = Ok qw /\ (qv <= qw)%Q).
Proof.
  intros Hd0 Hd1 Hlo Hhi.
  assert (Hne : ~ (deadzone self == 1)%Q) by lra.
  assert (Hden : ~ (1 - deadzone self == 0)%Q) by lra.
  split; [apply apply_deadzone_inside|].
  split.
  { intros Hv. eexists. split; [now apply apply_deadzone_outside|].
    unfold shaper_formula. apply div_eq_compat. now apply numerator_eq. }
  split.
  { intros Hv. eexists. split; [apply apply_deadzone_outside; [lra|exact Hne]|].
    apply ratio_zero. rewrite Hv. ring. }
  split.
  { intros Hv. assert (Ha : (Qabs v == 1)%Q) by (rewrite Hv; reflexivity).
    eexists. split; [apply apply_deadzone_outside; [lra|exact Hne]|].
    destruct (Qlt_le_dec 0 v); [|lra].
    rewrite Ha. field. exact Hden. }
  split.
  { intros Hv. assert (Ha : (Qabs v == 1)%Q) by (rewrite Hv; reflexivity).
    eexists. split; [apply apply_deadzone_outside; [lra|exact Hne]|].
    destruct (Qlt_le_dec 0 v); [lra|].
    rewrite Ha. field. exact Hden. }
  intros w Hv Hw Hvw.
  do 2 eexists.
  split; [now apply apply_deadzone_outside|].
  split; [now apply apply_deadzone_outside|].
  apply ratio_mono; [lra|]. now apply numerator_mono.
Qed.

(** The scenario of the specification: deadzone 0.2, value 0.5,
    shaped value 0.375. *)
Lemma C4_deadzone_shaper_witness :
  exists q,
    _apply_deadzone (with_deadzone (shim_with_table ∅) (1 # 5)) (1 # 2) = Ok q
    /\ (q == 3 # 8)%Q.
Proof.
  destruct (C4_deadzone_shaper (with_deadzone (shim_with_table ∅) (1 # 5)) (1 # 2))
    as [_ [H _]]; try (simpl; lra).
  destruct H as [q [Hq Hf]]; [unfold Qle; simpl; lia|].
  exists q. split; [exact Hq|]. rewrite Hf. reflexivity.
Defined.

(** ** Range of the calibrator *)

(** C8 as stated fails for the trigger: a raw reading above the reported
    maximum is scaled beyond 1 (range [0,255], raw 300). *)
Lemma C8_trigger_not_clamped :
  exists q,
    _scale_trigger (shim_with_table table_0_255) ecodes.ABS_RZ 300 = Ok q
    /\ ~ (q <= 1)%Q.
Proof.
  exists (300 # 255). split; [reflexivity|].
  intros H. revert H. unfold Qle. simpl. lia.
Qed.

(** C8 (amended): for an axis of the table with bounds [lo <> hi] and a
    raw reading [r] with [lo <= r <= hi], the stick output lies in [-1,1]
    and the trigger output in [0,1]; [r = lo] gives -1 and 0, [r = hi]
    gives 1 and 1, the exact midpoint [2*r = lo+hi] gives stick output 0,
    and both outputs are monotonic in [r] over the range. *)
Theorem C8_calibrator_range (self : GamepadShim) (code r lo hi : Z) :
  _axis_info self !! code = Some (lo, hi) -> lo <> hi ->
  lo <= r -> r <= hi ->
  exists a t,
    _scale_axis self code r = Ok a /\ _scale_trigger self code r = Ok t /\
    (-1 <= a)%Q /\ (a <= 1)%Q /\ (0 <= t)%Q /\ (t <= 1)%Q /\
    (r = lo -> (a == -1)%Q /\ (t == 0)%Q) /\
    (r = hi -> (a == 1)%Q /\ (t == 1)%Q) /\
    (2 * r = lo + hi -> (a == 0)%Q) /\
    (forall r', r <= r' -> r' <= hi ->
       exists a' t',
         _scale_axis self code r' = Ok a' /\
         _scale_trigger self code r' = Ok t' /\
         (a <= a')%Q /\ (t <= t')%Q).
Proof.
  intros Hinfo Hne Hlo Hhi.
  assert (Hlt : lo < hi) by lia.
  assert (Hd : (0 < inject_Z (hi - lo))%Q) by now apply inject_Z_sub_pos.
  assert (Hn0 : (0 <= inject_Z (r - lo))%Q).
  { change 0%Q with (inject_Z 0). rewrite <- Zle_Qle. lia. }
  assert (Hn1 : (inject_Z (r - lo) <= inject_Z (hi - lo))%Q)
    by now apply inject_Z_sub_le.
  destruct (ratio_bounds _ _ Hd Hn0 Hn1) as [Hr0 Hr1].
  do 2 eexists.
  split; [exact (scale_axis_known _ _ r _ _ Hinfo Hne)|].
  split; [exact (scale_trigger_known _ _ r _ _ Hinfo Hne)|].
  assert (E : (2 * inject_Z (r - lo) / inject_Z (hi - lo)
               == 2 * (inject_Z (r - lo) / inject_Z (hi - lo)))%Q)
    by (field; lra).
  split; [rewrite E; lra|]. split; [rewrite E; lra|].
  split; [exact Hr0|]. split; [exact Hr1|].
  split.
  { intros ->. rewrite E, Z.sub_diag.
    assert (Hz : (inject_Z 0 / inject_Z (hi - lo) == 0)%Q)
      by now apply ratio_zero.
    split; [rewrite Hz; lra | exact Hz]. }
  split.
  { intros ->. rewrite E.
    assert (Ho : (inject_Z (hi - lo) / inject_Z (hi - lo) == 1)%Q)
      by (apply ratio_self; lra).
    split; [rewrite Ho; lra | exact Ho]. }
  split.
  { intros Hmid.
    assert (Hh : (inject_Z (hi - lo) == 2 * inject_Z (r - lo))%Q).
    { replace (hi - lo) with (2 * (r - lo)) by lia.
      rewrite inject_Z_mult. reflexivity. }
    field_simplify; [|lra]. rewrite Hh. field. lra. }
  intros r' Hr Hr'.
  do 2 eexists.
  split; [exact (scale_axis_known _ _ r' _ _ Hinfo Hne)|].
  split; [exact (scale_trigger_known _ _ r' _ _ Hinfo Hne)|].
  assert (Hm : (inject_Z (r - lo) <= inject_Z (r' - lo))%Q)
    by (apply inject_Z_sub_le; lia).
  pose proof (ratio_mono _ _ _ Hd Hm) as Hmono.
  assert (E' : (2 * inject_Z (r' - lo) / inject_Z (hi - lo)
                == 2 * (inject_Z (r' - lo) / inject_Z (hi - lo)))%Q)
    by (field; lra).
  split; [rewrite E, E'; lra | exact Hmono].
Qed.

(** The trigger at the reported maximum of range [0,255]. *)
Lemma C8_calibrator_range_witness :
  exists a t,
    _scale_axis (shim_with_table table_0_255) ecodes.ABS_RZ 255 = Ok a /\
    _scale_trigger (shim_with_table table_0_255) ecodes.ABS_RZ 255 = Ok t /\
    (a == 1)%Q /\ (t == 1)%Q.
Proof.
  destruct (C8_calibrator_range (shim_with_table table_0_255)
              ecodes.ABS_RZ 255 0 255)
    as (a & t & Ha & Ht & _ & _ & _ & _ & _ & Hmax & _);
    [reflexivity | lia | lia | lia |].
  exists a, t. destruct (Hmax eq_refl) as [H1 H2]. auto.
Defined.

(** ** Pins *)

Lemma pins_ok_lookup (h : gmap string hal_value) name t :
  pins_ok h -> pin_table !! name = Some t ->
  exists v, h !! name = Some v /\ type_of v = t.
Proof.
  intros Hok Ht. unfold pins_ok in Hok. rewrite <- Hok in Ht.
  rewrite lookup_fmap in Ht.
  destruct (h !! name) as [v|]; [|discriminate].
  exists v. split; [reflexivity|]. simpl in Ht. congruence.
Qed.

Lemma pins_ok_absent (h : gmap string hal_value) name :
  pins_ok h -> pin_table !! name = None -> h !! name = None.
Proof.
  intros Hok Ht. unfold pins_ok in Hok. rewrite <- Hok in Ht.
  rewrite lookup_fmap in Ht.
  destruct (h !! name); [discriminate | reflexivity].
Qed.

Lemma pins_ok_insert (h : gmap string hal_value) name x :
  pins_ok h -> pin_table !! name = Some (type_of x) ->
  pins_ok (<[name := x]> h).
Proof.
  intros Hok Ht. unfold pins_ok in *.
  rewrite fmap_insert, Hok. now apply insert_id.
Qed.

Lemma type_of_convert t v : type_of (convert t v) = t.
Proof. now destruct t. Qed.

Lemma setitem_ok (h : gmap string hal_value) name v t :
  pins_ok h -> pin_table !! name = Some t ->
  setitem h name v = Ok (<[name := convert t v]> h).
Proof.
  intros Hok Ht. destruct (pins_ok_lookup h name t Hok Ht) as (old & Hold & <-).
  unfold setitem. now rewrite Hold.
Qed.

Lemma setitem_pins_ok (h h' : gmap string hal_value) name v :
  pins_ok h -> setitem h name v = Ok h' -> pins_ok h'.
Proof.
  intros Hok. unfold setitem.
  destruct (h !! name) as [old|] eqn:Hold; [|discriminate].
  intros [= <-]. apply pins_ok_insert; [exact Hok|].
  rewrite type_of_convert. unfold pins_ok in Hok. rewrite <- Hok.
  now rewrite lookup_fmap, Hold.
Qed.

Lemma set_pin_ok self name v t :
  pins_ok (h self) -> pin_table !! name = Some t ->
  set_pin self name v
  = Ok (with_h self (<[name := convert t v]> (h self))).
Proof.
  intros Hok Ht. unfold set_pin. now rewrite (setitem_ok _ _ _ t).
Qed.

Lemma set_pin_pins_ok self self' name v :
  pins_ok (h self) -> set_pin self name v = Ok self' -> pins_ok (h self').
Proof.
  intros Hok. unfold set_pin.
  destruct (setitem (h self) name v) as [h'|] eqn:E; [|discriminate].
  intros [= <-]. simpl. eapply setitem_pins_ok; eassumption.
Qed.

(** A write changes the pins only. *)
Lemma set_pin_frame self self' name v :
  set_pin self name v = Ok self' -> self' = with_h self (h self').
Proof.
  unfold set_pin.
  destruct (setitem (h self) name v) as [h'|]; [|discriminate].
  now intros [= <-].
Qed.

(** ** Jog mixer *)

Lemma update_jog_outputs_ok self sx sy sz :
  pins_ok (h self) ->
  _apply_deadzone self (_lx self) = Ok sx ->
  _apply_deadzone self (_ly self) = Ok sy ->
  _apply_deadzone self (_ry self) = Ok sz ->
  _update_jog_outputs self
  = Ok (with_h self (jog_pins (h self) sx sy sz (_rt self))).
Proof.
  destruct self as [h0 dz vd pd lx ly ry rt ai].
  cbn [h _lx _ly _ry _rt]. intros Hok Hx Hy Hz.
  unfold _update_jog_outputs, _apply_deadzone in *.
  cbn [deadzone _lx _ly _ry _rt] in *.
  rewrite Hx. cbn [mbind result_bind].
  rewrite (set_pin_ok _ "jog-x" _ HAL_FLOAT); [|exact Hok|reflexivity].
  cbn [mbind result_bind with_h deadzone _lx _ly _ry _rt h].
  rewrite Hy. cbn [mbind result_bind].
  rewrite (set_pin_ok _ "jog-y" _ HAL_FLOAT);
    [|now apply pins_ok_insert|reflexivity].
  cbn [mbind result_bind with_h deadzone _lx _ly _ry _rt h].
  rewrite Hz. cbn [mbind result_bind].
  rewrite (set_pin_ok _ "jog-z" _ HAL_FLOAT);
    [|cbn [h]; apply pins_ok_insert; [now apply pins_ok_insert|reflexivity]
     |reflexivity].
  reflexivity.
Qed.

Lemma jog_pins_x h0 sx sy sz rt :
  float_pin (jog_pins h0 sx sy sz rt) "jog-x" = Some (sx * rt)%Q.
Proof. unfold float_pin, jog_pins. now simplify_map_eq. Qed.

Lemma jog_pins_y h0 sx sy sz rt :
  float_pin (jog_pins h0 sx sy sz rt) "jog-y" = Some (sy * rt)%Q.
Proof. unfold float_pin, jog_pins. now simplify_map_eq. Qed.

Lemma jog_pins_z h0 sx sy sz rt :
  float_pin (jog_pins h0 sx sy sz rt) "jog-z" = Some (sz * rt)%Q.
Proof. unfold float_pin, jog_pins. now simplify_map_eq. Qed.

Lemma jog_pins_other (h0 : gmap string hal_value) sx sy sz rt name :
  name <> "jog-x" -> name <> "jog-y" -> name <> "jog-z" ->
  jog_pins h0 sx sy sz rt !! name = h0 !! name.
Proof. intros. unfold jog_pins. now simplify_map_eq. Qed.

(** C1: whatever the cached stick values, when the three shaped values
    are [sx], [sy], [sz] and the cached right trigger is [t], the jog
    mixer writes [sx*t], [sy*t], [sz*t] to jog-x, jog-y, jog-z; with
    [t == 0] all three are 0, and with [t == 1] a shaped value of 1 gives
    a jog output of 1. *)
Theorem C1_jog_mixer (self : GamepadShim) (sx sy sz : Q) :
  pins_ok (h self) ->
  _apply_deadzone self (_lx self) = Ok sx ->
  _apply_deadzone self (_ly self) = Ok sy ->
  _apply_deadzone self (_ry self) = Ok sz ->
  exists self' jx jy jz,
    _update_jog_outputs self = Ok self' /\
    float_pin (h self') "jog-x" = Some jx /\
    float_pin (h self') "jog-y" = Some jy /\
    float_pin (h self') "jog-z" = Some jz /\
    jx = (sx * _rt self)%Q /\ jy = (sy * _rt self)%Q /\
    jz = (sz * _rt self)%Q /\
    ((_rt self == 0)%Q -> (jx == 0)%Q /\ (jy == 0)%Q /\ (jz == 0)%Q) /\
    ((_rt self == 1)%Q ->
       ((sx == 1)%Q -> (jx == 1)%Q) /\
       ((sy == 1)%Q -> (jy == 1)%Q) /\
       ((sz == 1)%Q -> (jz == 1)%Q)).
Proof.
  intros Hok Hx Hy Hz.
  exists (with_h self (jog_pins (h self) sx sy sz (_rt self))).
  exists (sx * _rt self)%Q, (sy * _rt self)%Q, (sz * _rt self)%Q.
  split; [now apply update_jog_outputs_ok|].
  split; [apply jog_pins_x|]. split; [apply jog_pins_y|].
  split; [apply jog_pins_z|].
  do 3 (split; [reflexivity|]).
  split.
  - intros Ht. rewrite Ht. repeat split; ring.
  - intros Ht. rewrite Ht.
    repeat split; intros Hs; rewrite Hs; reflexivity.
Qed.

(** The scenarios of the specification: deadzone 0.2 and stick 0.5 shape
    to 0.375, and a trigger of 0.5 gives a jog output of 0.1875; a full
    stick with the trigger released gives 0. *)
Lemma C1_jog_mixer_witness :
  (exists self' jx,
     _update_jog_outputs (shim_with_sticks (1 # 5) (1 # 2) 0 0 (1 # 2)) = Ok self'
     /\ float_pin (h self') "jog-x" = Some jx /\ (jx == 3 # 16)%Q) /\
  (exists self' jx,
     _update_jog_outputs (shim_with_sticks (1 # 5) 1 1 (-1) 0) = Ok self'
     /\ float_pin (h self') "jog-x" = Some jx /\ (jx == 0)%Q).
Proof.
  split.
  - destruct (C1_jog_mixer (shim_with_sticks (1 # 5) (1 # 2) 0 0 (1 # 2))
                ((1 * ((1 # 2) - (1 # 5))) / (1 - (1 # 5)))%Q 0%Q 0%Q)
      as (self' & jx & jy & jz & Hrun & Hx & _ & _ & Ejx & _);
      [reflexivity ..|].
    exists self', jx. split; [exact Hrun|]. split; [exact Hx|].
    rewrite Ejx. reflexivity.
  - destruct (C1_jog_mixer (shim_with_sticks (1 # 5) 1 1 (-1) 0)
                ((1 * (1 - (1 # 5))) / (1 - (1 # 5)))%Q
                ((1 * (1 - (1 # 5))) / (1 - (1 # 5)))%Q
                ((-1 * (1 - (1 # 5))) / (1 - (1 # 5)))%Q)
      as (self' & jx & jy & jz & Hrun & Hx & _ & _ & _ & _ & _ & Hzero & _);
      [reflexivity ..|].
    exists self', jx. split; [exact Hrun|]. split; [exact Hx|].
    apply Hzero. reflexivity.
Defined.

(** ** Reset to safe defaults *)

Lemma bind_Ok_inv {A B : Type} (m : result A) (k : A -> result B) (b : B) :
  mbind k m = Ok b -> exists a, m = Ok a /\ k a = Ok b.
Proof. destruct m as [a|e]; [eauto | discriminate]. Qed.

Lemma reset_pin_spec (h : gmap string hal_value) name :
  reset_pin h name
  = match h !! name with
    | Some v => <[name := safe_default (type_of v)]> h
    | None => h
    end.
Proof.
  unfold reset_pin, getitem, setitem.
  destruct (h !! name) as [[q|b]|] eqn:E; cbn; rewrite ?E; reflexivity.
Qed.

Lemma type_of_safe_default t : type_of (safe_default t) = t.
Proof. now destruct t. Qed.

Lemma foldl_reset_pin_lookup (l : list string) :
  forall (h : gmap string hal_value) name,
    foldl reset_pin h l !! name
    = if decide (name ∈ l)
      then (fun v => safe_default (type_of v)) <$> (h !! name)
      else h !! name.
Proof.
  induction l as [|a l IH]; intros h0 name.
  - cbn. destruct (decide (name ∈ [])) as [Hin|_]; [|reflexivity].
    now apply not_elem_of_nil in Hin.
  - cbn [foldl]. rewrite IH, reset_pin_spec.
    destruct (decide (name = a)) as [->|Hne].
    + rewrite (decide_True (P := a ∈ a :: l)) by apply list_elem_of_here.
      destruct (h0 !! a) as [v|] eqn:E.
      * rewrite lookup_insert_eq. cbn. rewrite type_of_safe_default.
        now destruct (decide (a ∈ l)).
      * rewrite E. now destruct (decide (a ∈ l)).
    + assert (Hother : (match h0 !! a with
                        | Some v => <[a := safe_default (type_of v)]> h0
                        | None => h0
                        end) !! name = h0 !! name).
      { destruct (h0 !! a); [now rewrite lookup_insert_ne | reflexivity]. }
      rewrite Hother.
      destruct (decide (name ∈ l)) as [Hin|Hnin].
      * now rewrite decide_True by now apply list_elem_of_further.
      * rewrite decide_False; [reflexivity|].
        intros Hin. apply elem_of_cons in Hin. tauto.
Qed.

Lemma elem_of_getpins (h : gmap string hal_value) name :
  name ∈ getpins h <-> is_Some (h !! name).
Proof.
  unfold getpins. rewrite list_elem_of_fmap. split.
  - intros [[k v] [-> Hin]]. apply elem_of_map_to_list in Hin. now exists v.
  - intros [v Hv]. exists (name, v). split; [reflexivity|].
    now apply elem_of_map_to_list.
Qed.

(** The loop of [_reset] writes the safe default to every pin. *)
Lemma reset_loop (h : gmap string hal_value) :
  foldl reset_pin h (getpins h)
  = (fun v => safe_default (type_of v)) <$> h.
Proof.
  apply map_eq. intros name.
  rewrite foldl_reset_pin_lookup, lookup_fmap.
  destruct (decide (name ∈ getpins h)) as [_|Hnin]; [reflexivity|].
  destruct (h !! name) as [v|] eqn:E; [|reflexivity].
  exfalso. apply Hnin, elem_of_getpins. now exists v.
Qed.

Lemma new_pins_safe : (fun v => safe_default (type_of v)) <$> new_pins = new_pins.
Proof. reflexivity. Qed.

Lemma pins_ok_new_pins : pins_ok new_pins.
Proof. reflexivity. Qed.

Lemma reset_loop_new_pins (h : gmap string hal_value) :
  pins_ok h -> foldl reset_pin h (getpins h) = new_pins.
Proof.
  intros Hok. rewrite reset_loop, <- new_pins_safe.
  apply map_eq. intros name. rewrite !lookup_fmap.
  unfold pins_ok, pin_table in Hok.
  assert (Hty : (type_of <$> h) !! name = (type_of <$> new_pins) !! name)
    by now rewrite Hok.
  rewrite !lookup_fmap in Hty.
  destruct (h !! name) as [v|], (new_pins !! name) as [w|];
    cbn in *; congruence.
Qed.

(** [_reset] on a component with the pins of [__init__]: the cached
    readings are zeroed and every pin holds its default; the parameters
    and the range table are left as they are. *)
Lemma reset_ok self :
  pins_ok (h self) ->
  _reset self
  = Ok (mkShim new_pins (deadzone self) (vendor self) (product self)
               0 0 0 0 (_axis_info self)).
Proof.
  intros Hok. unfold _reset.
  cbn [with_lx with_ly with_ry with_rt with_h h deadzone vendor product
       _lx _ly _ry _rt _axis_info].
  rewrite (reset_loop_new_pins _ Hok).
  rewrite (set_pin_ok _ "connected" _ HAL_BIT);
    [|exact pins_ok_new_pins|reflexivity].
  reflexivity.
Qed.

Lemma init_ok : __init__ = Ok (mkShim new_pins (15 # 100) 0 0 0 0 0 0 ∅).
Proof. unfold __init__. now rewrite reset_ok by exact pins_ok_new_pins. Qed.

(** ** Invariants of the event loop *)

Lemma same_but_pins_refl self : same_but_pins self self.
Proof. now destruct self. Qed.

Lemma same_but_pins_trans a b c :
  same_but_pins a b -> same_but_pins b c -> same_but_pins a c.
Proof.
  unfold same_but_pins. intros Hab Hbc. rewrite Hbc at 1. rewrite Hab at 1.
  reflexivity.
Qed.

Ltac bind_inv H :=
  let a := fresh "a" in
  let Ha := fresh "Ha" in
  apply bind_Ok_inv in H; destruct H as (a & Ha & H).

Lemma update_jog_outputs_keeps self self' :
  _update_jog_outputs self = Ok self' ->
  keeps_pins self self' /\ same_but_pins self self'.
Proof.
  unfold _update_jog_outputs. intros H.
  bind_inv H. bind_inv H. bind_inv H. bind_inv H. bind_inv H.
  split.
  - intros Hok. eauto using set_pin_pins_ok.
  - apply set_pin_frame in Ha0, Ha2, H.
    eapply same_but_pins_trans; [exact Ha0|].
    eapply same_but_pins_trans; [exact Ha2|exact H].
Qed.

Lemma dpad_loop_keeps items code value :
  forall self self',
    dpad_loop items code value self = Ok self' ->
    keeps_pins self self' /\ same_but_pins self self'.
Proof.
  induction items as [|[[dcode dval] pin] rest IH]; intros self self' H.
  - injection H as <-. split; [now intros ?|apply same_but_pins_refl].
  - cbn [dpad_loop] in H. bind_inv H.
    destruct (IH _ _ H) as [Hk Hs].
    destruct (dcode =? code).
    + split.
      * intros Hok. apply Hk. eauto using set_pin_pins_ok.
      * eapply same_but_pins_trans; [|exact Hs]. eapply set_pin_frame, Ha.
    + injection Ha as <-. now split.
Qed.

Lemma handle_abs_keeps self code value self' :
  handle_abs self code value = Ok self' -> keeps_pins self self'.
Proof.
  unfold handle_abs. intros H Hok.
  repeat match type of H with
         | (if ?c then _ else _) = _ => destruct c
         end;
    try (bind_inv H; eapply set_pin_pins_ok in H; [exact H|exact Hok]).
  - now apply dpad_loop_keeps in H as [Hk _]; apply Hk.
  - now injection H as <-.
Qed.

Lemma handle_event_keeps self event self' :
  handle_event self event = Ok self' -> keeps_pins self self'.
Proof.
  unfold handle_event. intros H Hok.
  destruct (ev_type event =? ecodes.EV_ABS).
  - bind_inv H. apply update_jog_outputs_keeps in H as [Hk _].
    apply Hk. eapply handle_abs_keeps; eassumption.
  - destruct (ev_type event =? ecodes.EV_KEY); [|now injection H as <-].
    destruct (BUTTON_MAP !! ev_code event); [|now injection H as <-].
    eapply set_pin_pins_ok; eassumption.
Qed.

Lemma handle_events_keeps events :
  forall self self', handle_events self events = Ok self' -> keeps_pins self self'.
Proof.
  induction events as [|e rest IH]; intros self self' H Hok.
  - now injection H as <-.
  - cbn [handle_events] in H. bind_inv H.
    eapply IH; [exact H|]. eapply handle_event_keeps; eassumption.
Qed.

(** Discovery changes the range table only. *)
Lemma find_device_from_frame self vid pid devices d self' :
  find_device_from self vid pid devices = (d, self') ->
  self' = with_axis_info self (_axis_info self').
Proof.
  induction devices as [|[dv|e] rest IH]; cbn [find_device_from].
  - intros [= <- <-]. now destruct self.
  - destruct (negb (vid =? 0) && negb (info_vendor dv =? vid)); [exact IH|].
    destruct (negb (pid =? 0) && negb (info_product dv =? pid)); [exact IH|].
    destruct (capabilities dv) as [[abs|]|]; try exact IH.
    now intros [= <- <-].
  - exact IH.
Qed.

Lemma reset_at_rest self self' :
  pins_ok (h self) -> _reset self = Ok self' ->
  at_rest self' /\ pins_ok (h self') /\
  deadzone self' = deadzone self /\ vendor self' = vendor self /\
  product self' = product self /\ _axis_info self' = _axis_info self.
Proof.
  intros Hok. rewrite (reset_ok _ Hok). intros [= <-].
  unfold at_rest. cbn. repeat split; reflexivity.
Qed.

Lemma step_inv s i s' : session_inv s -> step s i = Ok s' -> session_inv s'.
Proof.
  intros [Hok Hrest] H.
  assert (Hparam : forall self',
             h self' = h (shim s) -> _lx self' = _lx (shim s) ->
             _ly self' = _ly (shim s) -> _ry self' = _ry (shim s) ->
             _rt self' = _rt (shim s) ->
             session_inv (mkSession self' (dev s))).
  { intros self' Hh Hx Hy Hz Ht. split; cbn; [now rewrite Hh|].
    intros Hd. destruct (Hrest Hd) as (? & ? & ? & ? & ?).
    unfold at_rest. rewrite Hh, Hx, Hy, Hz, Ht. now repeat split. }
  assert (Hloop :
    match dev s with
    | None =>
        match i with
        | Devices devices =>
            match _find_device (shim s) devices with
            | (None, self) =>
                self ← _reset self; Ok (mkSession self None)
            | (Some d, self) =>
                self ← set_pin self "connected" (PyBool true);
                Ok (mkSession self (Some d))
            end
        | _ => Ok s
        end
    | Some d =>
        match connected_body (shim s) i with
        | Ok self => Ok (mkSession self (Some d))
        | Raise OSError =>
            self ← _reset (shim s); Ok (mkSession self None)
        | Raise e => Raise e
        end
    end = Ok s' -> session_inv s').
  { clear H. destruct (dev s) as [d|] eqn:Hdev.
    - destruct (connected_body (shim s) i) as [self|[| |]] eqn:Hbody;
        try discriminate.
      + intros [= <-]. split; cbn; [|discriminate].
        destruct i; cbn in Hbody;
          try (injection Hbody as <-; exact Hok).
        * now apply update_jog_outputs_keeps in Hbody as [Hk _]; apply Hk.
        * eapply handle_events_keeps; eassumption.
        * discriminate.
      + intros H. bind_inv H. injection H as <-.
        destruct (reset_at_rest _ _ Hok Ha) as (Hr & Hok' & _).
        split; cbn; [exact Hok'|now intros _].
    - destruct i; try (intros [= <-]; split; [exact Hok|];
                       now rewrite Hdev).
      destruct (_find_device (shim s) devices) as [[d|] self] eqn:Hfind;
        unfold _find_device in Hfind;
        pose proof (find_device_from_frame _ _ _ _ _ _ Hfind) as Hframe;
        intros H; bind_inv H; injection H as <-.
      + split; cbn; [|discriminate].
        eapply set_pin_pins_ok; [|exact Ha]. rewrite Hframe. exact Hok.
      + assert (Hok' : pins_ok (h self)) by (rewrite Hframe; exact Hok).
        destruct (reset_at_rest _ _ Hok' Ha) as (Hr & Hok'' & _).
        split; cbn; [exact Hok''|now intros _]. }
  destruct i; cbn [step] in H; try exact (Hloop H);
    injection H as <-; now apply Hparam.
Qed.

Lemma run_inv inputs :
  forall s s', session_inv s -> run s inputs = Ok s' -> session_inv s'.
Proof.
  induction inputs as [|i rest IH]; intros s s' Hinv H.
  - now injection H as <-.
  - cbn [run] in H. bind_inv H. eapply IH; [|exact H].
    eapply step_inv; eassumption.
Qed.

Lemma main_inv inputs s : main inputs = Ok s -> session_inv s.
Proof.
  unfold main. rewrite init_ok. cbn [mbind result_bind].
  apply run_inv. split; cbn; [exact pins_ok_new_pins|].
  intros _. unfold at_rest. cbn. now repeat split.
Qed.

(** ** Safe defaults while no device is connected *)

Lemma new_pins_default : all_outputs_default new_pins.
Proof.
  split; intros name Hin; unfold float_pins, button_pins in Hin;
    repeat (apply elem_of_cons in Hin as [->|Hin]; [reflexivity|]);
    now apply elem_of_nil in Hin.
Qed.

Lemma at_rest_default self : at_rest self -> all_outputs_default (h self).
Proof. intros [-> _]. exact new_pins_default. Qed.

(** A read failure while a device is open: [_reset] runs and [run]
    returns to discovery. *)
Lemma step_read_error s d :
  pins_ok (h (shim s)) -> dev s = Some d ->
  step s ReadError
  = Ok (mkSession
          (mkShim new_pins (deadzone (shim s)) (vendor (shim s))
                  (product (shim s)) 0 0 0 0 (_axis_info (shim s)))
          None).
Proof.
  intros Hok Hdev. cbn [step]. rewrite Hdev. cbn [connected_body].
  now rewrite (reset_ok _ Hok).
Qed.

Lemma returns_with_spec {A : Type} (P : A -> bool) (r : result A) :
  returns_with P r = true -> exists a, r = Ok a /\ P a = true.
Proof. destruct r as [a|e]; [eauto | discriminate]. Qed.

Lemma scanning_true s : scanning s = true -> dev s = None.
Proof. unfold scanning. now destruct (dev s). Qed.

Lemma scanning_false s : scanning s = false -> exists d, dev s = Some d.
Proof. unfold scanning. destruct (dev s); [eauto | discriminate]. Qed.

(** C2: at startup, in every state of [run] in which no device is open,
    and after a read failure on an open device, every float output is
    0.0 and every boolean output, the connection status included, is
    false. *)
Theorem C2_safe_defaults_when_disconnected :
  (exists self, __init__ = Ok self /\ all_outputs_default (h self)) /\
  (forall inputs s,
      main inputs = Ok s -> dev s = None ->
      all_outputs_default (h (shim s))) /\
  (forall inputs s d,
      main inputs = Ok s -> dev s = Some d ->
      exists s', step s ReadError = Ok s' /\ dev s' = None /\
                 all_outputs_default (h (shim s'))).
Proof.
  split; [|split].
  - eexists. split; [exact init_ok|]. exact new_pins_default.
  - intros inputs s Hmain Hdev.
    destruct (main_inv _ _ Hmain) as [_ Hrest].
    now apply at_rest_default, Hrest.
  - intros inputs s d Hmain Hdev.
    destruct (main_inv _ _ Hmain) as [Hok _].
    eexists. split; [exact (step_read_error _ _ Hok Hdev)|].
    split; [reflexivity|]. exact new_pins_default.
Qed.

(** The pad is used and then unplugged: the outputs are back at their
    defaults, whatever they held before. *)
Lemma C2_safe_defaults_when_disconnected_witness :
  (exists s,
     main play_then_unplug = Ok s
     /\ dev s = None /\ all_outputs_default (h (shim s))) /\
  (exists s s',
     main play = Ok s
     /\ bit_pin (h (shim s)) "a" = Some true
     /\ step s ReadError = Ok s' /\ dev s' = None
     /\ all_outputs_default (h (shim s'))).
Proof.
  destruct C2_safe_defaults_when_disconnected as (_ & Hscan & Hfail).
  split.
  - destruct (returns_with_spec scanning (main play_then_unplug))
      as (s & Hs & Hd); [vm_compute; reflexivity|].
    exists s. split; [exact Hs|].
    apply scanning_true in Hd. split; [exact Hd|].
    exact (Hscan _ s Hs Hd).
  - destruct (returns_with_spec
                (fun s => negb (scanning s)
                          && bool_decide (bit_pin (h (shim s)) "a" = Some true))
                (main play))
      as (s & Hs & Hd); [vm_compute; reflexivity|].
    exists s.
    apply andb_prop in Hd as [Hd Ha].
    apply negb_true_iff, scanning_false in Hd as [d Hd].
    apply bool_decide_eq_true in Ha.
    destruct (Hfail _ s d Hs Hd) as (s' & Hstep & Hdev & Hsafe).
    exists s'. split; [exact Hs|]. split; [exact Ha|].
    split; [exact Hstep|]. split; [exact Hdev|exact Hsafe].
Defined.

(** ** Session state on a read failure *)

(** C6 as stated fails for the range table: after a read failure the
    table cached at discovery is still in place. *)
Lemma C6_range_table_kept :
  exists s,
    main [Devices [Ok gamepad]; ReadError] = Ok s
    /\ dev s = None
    /\ _axis_info (shim s) !! ecodes.ABS_X = Some (0, 255).
Proof.
  destruct (returns_with_spec
              (fun s => scanning s
                        && bool_decide (_axis_info (shim s) !! ecodes.ABS_X
                                        = Some (0, 255)))
              (main [Devices [Ok gamepad]; ReadError]))
    as (s & Hs & Hd); [vm_compute; reflexivity|].
  exists s. split; [exact Hs|].
  apply andb_prop in Hd as [Hd Ht].
  apply scanning_true in Hd. apply bool_decide_eq_true in Ht.
  split; [exact Hd|exact Ht].
Qed.

Lemma find_device_from_found self vid pid devices d self' :
  find_device_from self vid pid devices = (Some d, self') ->
  exists abs, capabilities d = Ok (Some abs)
              /\ _axis_info self' = cache_axis_info abs.
Proof.
  induction devices as [|[dv|e] rest IH]; cbn [find_device_from].
  - discriminate.
  - destruct (negb (vid =? 0) && negb (info_vendor dv =? vid)); [exact IH|].
    destruct (negb (pid =? 0) && negb (info_product dv =? pid)); [exact IH|].
    destruct (capabilities dv) as [[abs|]|] eqn:Hcaps; try exact IH.
    intros [= <- <-]. now exists abs.
  - exact IH.
Qed.

(** C6 (amended): on a read failure while a device is open, the device
    is given up ([run] is back in discovery), the cached stick and
    trigger readings are zeroed and every output holds its default; the
    cached range table is left as it is, and is rebuilt from the
    capabilities of the device the next successful discovery selects. *)
Theorem C6_session_state_on_failure (inputs : list input) (s : session)
    (d : InputDevice) :
  main inputs = Ok s -> dev s = Some d ->
  exists s',
    step s ReadError = Ok s' /\ dev s' = None /\
    _lx (shim s') = 0%Q /\ _ly (shim s') = 0%Q /\
    _ry (shim s') = 0%Q /\ _rt (shim s') = 0%Q /\
    all_outputs_default (h (shim s')) /\
    _axis_info (shim s') = _axis_info (shim s) /\
    (forall devices d' self',
        _find_device (shim s') devices = (Some d', self') ->
        exists abs, capabilities d' = Ok (Some abs)
                    /\ _axis_info self' = cache_axis_info abs).
Proof.
  intros Hmain Hdev.
  destruct (main_inv _ _ Hmain) as [Hok _].
  eexists. split; [exact (step_read_error _ _ Hok Hdev)|].
  cbn. repeat split; try reflexivity; try apply new_pins_default.
  intros devices d' self'. apply find_device_from_found.
Qed.

(** The pad is used and then fails: the cached readings are zeroed and
    the range table stays. *)
Lemma C6_session_state_on_failure_witness :
  exists s s',
    main play = Ok s
    /\ step s ReadError = Ok s' /\ dev s' = None
    /\ _lx (shim s') = 0%Q
    /\ _axis_info (shim s') = _axis_info (shim s).
Proof.
  destruct (returns_with_spec (fun s => negb (scanning s)) (main play))
    as (s & Hs & Hd); [vm_compute; reflexivity|].
  exists s.
  apply negb_true_iff, scanning_false in Hd as [d Hd].
  destruct (C6_session_state_on_failure _ s d Hs Hd)
    as (s' & Hstep & Hdev & Hx & _ & _ & _ & _ & Htable & _).
  exists s'. split; [exact Hs|]. split; [exact Hstep|].
  split; [exact Hdev|]. split; [exact Hx|exact Htable].
Defined.

(** ** D-pad *)

Lemma dpad_loop_hat0x self v :
  pins_ok (h self) ->
  dpad_loop DPAD_MAP ecodes.ABS_HAT0X v self
  = Ok (with_h self (hat0x_pins (h self) v)).
Proof.
  intros Hok. cbn [dpad_loop DPAD_MAP]. cbn [Z.eqb ecodes.ABS_HAT0X
    ecodes.ABS_HAT0Y Pos.eqb].
  rewrite (set_pin_ok _ "right" _ HAL_BIT); [|exact Hok|reflexivity].
  cbn [mbind result_bind].
  rewrite (set_pin_ok _ "left" _ HAL_BIT);
    [|now apply pins_ok_insert|reflexivity].
  cbn [mbind result_bind]. now destruct self.
Qed.

Lemma dpad_loop_hat0y self v :
  pins_ok (h self) ->
  dpad_loop DPAD_MAP ecodes.ABS_HAT0Y v self
  = Ok (with_h self (hat0y_pins (h self) v)).
Proof.
  intros Hok. cbn [dpad_loop DPAD_MAP]. cbn [Z.eqb ecodes.ABS_HAT0X
    ecodes.ABS_HAT0Y Pos.eqb].
  cbn [mbind result_bind].
  rewrite (set_pin_ok _ "down" _ HAL_BIT); [|exact Hok|reflexivity].
  cbn [mbind result_bind].
  rewrite (set_pin_ok _ "up" _ HAL_BIT);
    [|now apply pins_ok_insert|reflexivity].
  cbn [mbind result_bind]. now destruct self.
Qed.

(** A write to a pin leaves the other pins as they are. *)
Lemma set_pin_other self self' name v name' :
  set_pin self name v = Ok self' -> name' <> name ->
  h self' !! name' = h self !! name'.
Proof.
  unfold set_pin, setitem. intros H Hne.
  destruct (h self !! name) as [old|]; [|discriminate].
  injection H as <-. cbn. now rewrite lookup_insert_ne.
Qed.

Lemma update_jog_outputs_other self self' name :
  _update_jog_outputs self = Ok self' ->
  name <> "jog-x" -> name <> "jog-y" -> name <> "jog-z" ->
  h self' !! name = h self !! name.
Proof.
  unfold _update_jog_outputs. intros H Hx Hy Hz.
  bind_inv H. bind_inv H. bind_inv H. bind_inv H. bind_inv H.
  rewrite (set_pin_other _ _ _ _ _ H Hz).
  rewrite (set_pin_other _ _ _ _ _ Ha2 Hy).
  exact (set_pin_other _ _ _ _ _ Ha0 Hx).
Qed.

Lemma bit_pin_ext (h1 h2 : gmap string hal_value) name :
  h1 !! name = h2 !! name -> bit_pin h1 name = bit_pin h2 name.
Proof. unfold bit_pin. now intros ->. Qed.

(** Membership of a literal name in a literal list of names. *)
Ltac in_names :=
  repeat first [apply list_elem_of_here | apply list_elem_of_further].

Ltac not_in_names :=
  let Hin := fresh "Hin" in
  intros Hin;
  repeat (apply elem_of_cons in Hin as [Hin|Hin]; [discriminate Hin|]);
  now apply elem_of_nil in Hin.

Lemma dpad_exclusive_ext (h1 h2 : gmap string hal_value) :
  (forall name, name ∈ dpad_names -> h2 !! name = h1 !! name) ->
  dpad_exclusive h1 -> dpad_exclusive h2.
Proof.
  intros Hext (l & r & u & d & Hl & Hr & Hu & Hd & Hlr & Hud).
  exists l, r, u, d.
  rewrite <- Hl, <- Hr, <- Hu, <- Hd.
  repeat split; try assumption; apply bit_pin_ext, Hext;
    unfold dpad_names; in_names.
Qed.

Lemma hat0x_exclusive (h0 : gmap string hal_value) v :
  dpad_exclusive h0 -> dpad_exclusive (hat0x_pins h0 v).
Proof.
  intros (l & r & u & d & Hl & Hr & Hu & Hd & Hlr & Hud).
  exists (v =? -1), (v =? 1), u, d. unfold hat0x_pins, bit_pin in *.
  simplify_map_eq. repeat split; try assumption.
  destruct (Z.eqb_spec v (-1)), (Z.eqb_spec v 1); try reflexivity. lia.
Qed.

Lemma hat0y_exclusive (h0 : gmap string hal_value) v :
  dpad_exclusive h0 -> dpad_exclusive (hat0y_pins h0 v).
Proof.
  intros (l & r & u & d & Hl & Hr & Hu & Hd & Hlr & Hud).
  exists l, r, (v =? -1), (v =? 1). unfold hat0y_pins, bit_pin in *.
  simplify_map_eq. repeat split; try assumption.
  destruct (Z.eqb_spec v (-1)), (Z.eqb_spec v 1); try reflexivity. lia.
Qed.

Lemma not_dpad_name name name' :
  name' ∈ dpad_names -> name ∉ dpad_names -> name' <> name.
Proof. intros Hin Hnin ->. contradiction. Qed.

Lemma set_pin_exclusive self self' name v :
  set_pin self name v = Ok self' -> name ∉ dpad_names ->
  dpad_exclusive (h self) -> dpad_exclusive (h self').
Proof.
  intros H Hnin. apply dpad_exclusive_ext. intros name' Hin.
  eapply set_pin_other; [exact H|]. now apply (not_dpad_name name).
Qed.

Lemma update_jog_outputs_exclusive self self' :
  _update_jog_outputs self = Ok self' ->
  dpad_exclusive (h self) -> dpad_exclusive (h self').
Proof.
  intros H. apply dpad_exclusive_ext. intros name Hin.
  apply (update_jog_outputs_other _ _ _ H);
    intros ->; revert Hin; unfold dpad_names; not_in_names.
Qed.

Lemma handle_abs_exclusive self code value self' :
  pins_ok (h self) ->
  handle_abs self code value = Ok self' ->
  dpad_exclusive (h self) -> dpad_exclusive (h self').
Proof.
  unfold handle_abs. intros Hok H Hex.
  repeat match type of H with
         | (if ?c =? ?k then _ else _) = _ => destruct (Z.eqb_spec c k)
         end;
    try (bind_inv H; eapply set_pin_exclusive in H;
         [exact H | unfold dpad_names; not_in_names | exact Hex]).
  destruct (Z.eqb_spec code ecodes.ABS_HAT0X) as [->|_];
    [|destruct (Z.eqb_spec code ecodes.ABS_HAT0Y) as [->|_]];
    cbn [orb] in H.
  - rewrite (dpad_loop_hat0x _ _ Hok) in H. injection H as <-.
    now apply hat0x_exclusive.
  - rewrite (dpad_loop_hat0y _ _ Hok) in H. injection H as <-.
    now apply hat0y_exclusive.
  - now injection H as <-.
Qed.

Lemma button_not_dpad code pin :
  BUTTON_MAP !! code = Some pin -> pin ∉ dpad_names.
Proof.
  unfold BUTTON_MAP. intros H.
  apply elem_of_list_to_map_2 in H.
  repeat (apply elem_of_cons in H as [Heq|H];
          [injection Heq as _ ->; unfold dpad_names; not_in_names|]).
  now apply elem_of_nil in H.
Qed.

Lemma handle_event_exclusive self event self' :
  pins_ok (h self) ->
  handle_event self event = Ok self' ->
  dpad_exclusive (h self) -> dpad_exclusive (h self').
Proof.
  unfold handle_event. intros Hok H Hex.
  destruct (ev_type event =? ecodes.EV_ABS).
  - bind_inv H. eapply update_jog_outputs_exclusive; [exact H|].
    eapply handle_abs_exclusive; eassumption.
  - destruct (ev_type event =? ecodes.EV_KEY); [|now injection H as <-].
    destruct (BUTTON_MAP !! ev_code event) as [pin|] eqn:Hpin;
      [|now injection H as <-].
    eapply set_pin_exclusive; [exact H| |exact Hex].
    eapply button_not_dpad, Hpin.
Qed.

Lemma handle_events_exclusive events :
  forall self self',
    pins_ok (h self) ->
    handle_events self events = Ok self' ->
    dpad_exclusive (h self) -> dpad_exclusive (h self').
Proof.
  induction events as [|e rest IH]; intros self self' Hok H Hex.
  - now injection H as <-.
  - cbn [handle_events] in H. bind_inv H.
    eapply IH; [|exact H|].
    + eapply handle_event_keeps; eassumption.
    + eapply handle_event_exclusive; eassumption.
Qed.

Lemma new_pins_exclusive : dpad_exclusive new_pins.
Proof. exists false, false, false, false. now repeat split. Qed.

Lemma step_exclusive s i s' :
  session_inv s -> dpad_exclusive (h (shim s)) -> step s i = Ok s' ->
  dpad_exclusive (h (shim s')).
Proof.
  intros [Hok _] Hex H.
  destruct i; cbn [step] in H;
    try (injection H as <-; exact Hex);
    (destruct (dev s) as [d|] eqn:Hdev;
     [cbn [connected_body] in H|]);
    try (injection H as <-; exact Hex).
  - destruct (_find_device (shim s) devices) as [[d|] self] eqn:Hfind;
      unfold _find_device in Hfind;
      pose proof (find_device_from_frame _ _ _ _ _ _ Hfind) as Hframe;
      bind_inv H; injection H as <-; cbn.
    + eapply set_pin_exclusive; [exact Ha|not_in_names|].
      rewrite Hframe. exact Hex.
    + assert (Hok' : pins_ok (h self)) by (rewrite Hframe; exact Hok).
      apply (reset_at_rest _ _ Hok') in Ha as ([-> _] & _).
      exact new_pins_exclusive.
  - destruct (_update_jog_outputs (shim s)) as [self|[| |]] eqn:Hbody;
      try discriminate.
    + injection H as <-. cbn.
      eapply update_jog_outputs_exclusive; eassumption.
    + bind_inv H. injection H as <-. cbn.
      apply (reset_at_rest _ _ Hok) in Ha as ([-> _] & _).
      exact new_pins_exclusive.
  - destruct (handle_events (shim s) events) as [self|[| |]] eqn:Hbody;
      try discriminate.
    + injection H as <-. cbn.
      eapply handle_events_exclusive; eassumption.
    + bind_inv H. injection H as <-. cbn.
      apply (reset_at_rest _ _ Hok) in Ha as ([-> _] & _).
      exact new_pins_exclusive.
  - bind_inv H. injection H as <-. cbn.
    apply (reset_at_rest _ _ Hok) in Ha as ([-> _] & _).
    exact new_pins_exclusive.
Qed.

Lemma run_exclusive inputs :
  forall s s',
    session_inv s -> dpad_exclusive (h (shim s)) -> run s inputs = Ok s' ->
    dpad_exclusive (h (shim s')).
Proof.
  induction inputs as [|i rest IH]; intros s s' Hinv Hex H.
  - now injection H as <-.
  - cbn [run] in H. bind_inv H. eapply IH; [| |exact H].
    + eapply step_inv; eassumption.
    + eapply step_exclusive; eassumption.
Qed.

Lemma handle_event_hat0x self v sx sy sz :
  pins_ok (h self) ->
  _apply_deadzone self (_lx self) = Ok sx ->
  _apply_deadzone self (_ly self) = Ok sy ->
  _apply_deadzone self (_ry self) = Ok sz ->
  handle_event self (abs_event ecodes.ABS_HAT0X v)
  = Ok (with_h self (jog_pins (hat0x_pins (h self) v) sx sy sz (_rt self))).
Proof.
  intros Hok Hx Hy Hz. unfold handle_event, abs_event, handle_abs.
  cbn [ev_type ev_code ev_value Z.eqb ecodes.EV_ABS ecodes.ABS_HAT0X
       ecodes.ABS_X ecodes.ABS_Y ecodes.ABS_Z ecodes.ABS_RX ecodes.ABS_RY
       ecodes.ABS_RZ ecodes.ABS_HAT0Y Pos.eqb orb].
  change 16 with ecodes.ABS_HAT0X.
  rewrite (dpad_loop_hat0x _ _ Hok). cbn [mbind result_bind].
  rewrite (update_jog_outputs_ok _ sx sy sz); [now destruct self| |
    destruct self; exact Hx | destruct self; exact Hy | destruct self; exact Hz].
  destruct self. cbn. unfold hat0x_pins.
  apply pins_ok_insert; [apply pins_ok_insert|]; [exact Hok|reflexivity..].
Qed.

Lemma handle_event_hat0y self v sx sy sz :
  pins_ok (h self) ->
  _apply_deadzone self (_lx self) = Ok sx ->
  _apply_deadzone self (_ly self) = Ok sy ->
  _apply_deadzone self (_ry self) = Ok sz ->
  handle_event self (abs_event ecodes.ABS_HAT0Y v)
  = Ok (with_h self (jog_pins (hat0y_pins (h self) v) sx sy sz (_rt self))).
Proof.
  intros Hok Hx Hy Hz. unfold handle_event, abs_event, handle_abs.
  cbn [ev_type ev_code ev_value Z.eqb ecodes.EV_ABS ecodes.ABS_HAT0X
       ecodes.ABS_X ecodes.ABS_Y ecodes.ABS_Z ecodes.ABS_RX ecodes.ABS_RY
       ecodes.ABS_RZ ecodes.ABS_HAT0Y Pos.eqb orb].
  change 17 with ecodes.ABS_HAT0Y.
  rewrite (dpad_loop_hat0y _ _ Hok). cbn [mbind result_bind].
  rewrite (update_jog_outputs_ok _ sx sy sz); [now destruct self| |
    destruct self; exact Hx | destruct self; exact Hy | destruct self; exact Hz].
  destruct self. cbn. unfold hat0y_pins.
  apply pins_ok_insert; [apply pins_ok_insert|]; [exact Hok|reflexivity..].
Qed.

(** The d-pad loop over a map in two parts. *)
Lemma dpad_loop_split (k : nat) (items : list ((Z * Z) * string))
    (code value : Z) (self : GamepadShim) :
  dpad_loop items code value self
  = (mid ← dpad_loop (take k items) code value self;
     dpad_loop (drop k items) code value mid).
Proof.
  rewrite <- (take_drop k items) at 1. generalize (drop k items) as rest.
  intros rest. revert self.
  induction (take k items) as [|[[dcode dval] pin] l IH]; intros self;
    [reflexivity|].
  cbn [app dpad_loop].
  destruct (if dcode =? code
            then set_pin self pin (PyBool (value =? dval))
            else Ok self) as [self1|e]; [apply IH|reflexivity].
Qed.

(** C5 as stated fails between the two writes of one hat event: with the
    pad pushed left, an event reporting +1 runs the d-pad loop, whose
    first iteration sets right while left is still set; it is the second
    iteration that clears left. *)
Lemma C5_both_true_within_event :
  exists s mid self',
    main pushed_left = Ok s /\
    dpad_loop (take 1 DPAD_MAP) ecodes.ABS_HAT0X 1 (shim s) = Ok mid /\
    bit_pin (h mid) "left" = Some true /\
    bit_pin (h mid) "right" = Some true /\
    dpad_loop (drop 1 DPAD_MAP) ecodes.ABS_HAT0X 1 mid = Ok self' /\
    dpad_loop DPAD_MAP ecodes.ABS_HAT0X 1 (shim s) = Ok self'.
Proof.
  destruct (returns_with_spec
              (fun s =>
                 returns_with
                   (fun mid =>
                      bool_decide (bit_pin (h mid) "left" = Some true)
                      && bool_decide (bit_pin (h mid) "right" = Some true)
                      && returns_with
                           (fun _ => true)
                           (dpad_loop (drop 1 DPAD_MAP) ecodes.ABS_HAT0X 1
                                      mid))
                   (dpad_loop (take 1 DPAD_MAP) ecodes.ABS_HAT0X 1 (shim s)))
              (main pushed_left)) as (s & Hs & Hc);
    [vm_compute; reflexivity|].
  destruct (returns_with_spec _ _ Hc) as (mid & Hmid & Hm).
  apply andb_prop in Hm as [Hm Hrest].
  apply andb_prop in Hm as [Hl Hr].
  apply bool_decide_eq_true in Hl, Hr.
  destruct (returns_with_spec _ _ Hrest) as (self' & Hself' & _).
  exists s, mid, self'.
  split; [exact Hs|]. split; [exact Hmid|]. split; [exact Hl|].
  split; [exact Hr|]. split; [exact Hself'|].
  rewrite (dpad_loop_split 1 DPAD_MAP ecodes.ABS_HAT0X 1 (shim s)), Hmid.
  exact Hself'.
Qed.

(** C5 (amended): a hat event reporting [v] sets the positive direction
    of its axis to [v == 1] and the negative one to [v == -1], so +1 and
    -1 set exactly one of the pair and 0 clears both; after every run of
    [run], whatever the events, and after every event of a batch handled
    from there, left and right are not both true and up and down are not
    both true. *)
Theorem C5_dpad_exclusive :
  (forall self v sx sy sz,
      pins_ok (h self) ->
      _apply_deadzone self (_lx self) = Ok sx ->
      _apply_deadzone self (_ly self) = Ok sy ->
      _apply_deadzone self (_ry self) = Ok sz ->
      exists self',
        handle_event self (abs_event ecodes.ABS_HAT0X v) = Ok self' /\
        bit_pin (h self') "right" = Some (v =? 1) /\
        bit_pin (h self') "left" = Some (v =? -1)) /\
  (forall self v sx sy sz,
      pins_ok (h self) ->
      _apply_deadzone self (_lx self) = Ok sx ->
      _apply_deadzone self (_ly self) = Ok sy ->
      _apply_deadzone self (_ry self) = Ok sz ->
      exists self',
        handle_event self (abs_event ecodes.ABS_HAT0Y v) = Ok self' /\
        bit_pin (h self') "down" = Some (v =? 1) /\
        bit_pin (h self') "up" = Some (v =? -1)) /\
  (forall inputs s, main inputs = Ok s -> dpad_exclusive (h (shim s))) /\
  (forall inputs s events self',
      main inputs = Ok s -> handle_events (shim s) events = Ok self' ->
      dpad_exclusive (h self')).
Proof.
  assert (Hrun : forall inputs s,
             main inputs = Ok s -> dpad_exclusive (h (shim s))).
  { intros inputs s. unfold main. rewrite init_ok. cbn [mbind result_bind].
    apply run_exclusive; cbn; [|exact new_pins_exclusive].
    split; cbn; [exact pins_ok_new_pins|].
    intros _. unfold at_rest. cbn. now repeat split. }
  split; [|split; [|split]].
  - intros self v sx sy sz Hok Hx Hy Hz. eexists.
    split; [exact (handle_event_hat0x _ v _ _ _ Hok Hx Hy Hz)|].
    cbn [with_h h]. unfold bit_pin, jog_pins, hat0x_pins.
    now simplify_map_eq.
  - intros self v sx sy sz Hok Hx Hy Hz. eexists.
    split; [exact (handle_event_hat0y _ v _ _ _ Hok Hx Hy Hz)|].
    cbn [with_h h]. unfold bit_pin, jog_pins, hat0y_pins.
    now simplify_map_eq.
  - exact Hrun.
  - intros inputs s events self' Hs Hev.
    apply (handle_events_exclusive events (shim s) self');
      [exact (proj1 (main_inv _ _ Hs))|exact Hev|exact (Hrun _ _ Hs)].
Qed.

(** Right sets right and not left, neutral clears down and up, the
    sample run ends with the pairs exclusive, and so does a change from
    left to right handled after [pushed_left]. *)
Lemma C5_dpad_exclusive_witness :
  (exists self',
     handle_event (shim_with_sticks (1 # 5) 0 0 0 0)
                  (abs_event ecodes.ABS_HAT0X 1) = Ok self'
     /\ bit_pin (h self') "right" = Some true
     /\ bit_pin (h self') "left" = Some false) /\
  (exists self',
     handle_event (shim_with_sticks (1 # 5) 0 0 0 0)
                  (abs_event ecodes.ABS_HAT0Y 0) = Ok self'
     /\ bit_pin (h self') "down" = Some false
     /\ bit_pin (h self') "up" = Some false) /\
  (exists s, main dpad_run = Ok s /\ dpad_exclusive (h (shim s))) /\
  (exists s self',
     main pushed_left = Ok s /\
     handle_events (shim s) [abs_event ecodes.ABS_HAT0X 1] = Ok self' /\
     dpad_exclusive (h self')).
Proof.
  destruct C5_dpad_exclusive as (Hx & Hy & Hrun & Hevents).
  split; [|split; [|split]].
  - apply (Hx (shim_with_sticks (1 # 5) 0 0 0 0) 1 0%Q 0%Q 0%Q); reflexivity.
  - apply (Hy (shim_with_sticks (1 # 5) 0 0 0 0) 0 0%Q 0%Q 0%Q); reflexivity.
  - destruct (returns_with_spec (fun _ => true) (main dpad_run))
      as (s & Hs & _); [vm_compute; reflexivity|].
    exists s. split; [exact Hs|]. exact (Hrun _ s Hs).
  - destruct (returns_with_spec
                (fun s =>
                   returns_with (fun _ => true)
                     (handle_events (shim s) [abs_event ecodes.ABS_HAT0X 1]))
                (main pushed_left)) as (s & Hs & Hc);
      [vm_compute; reflexivity|].
    destruct (returns_with_spec _ _ Hc) as (self' & Hev & _).
    exists s, self'. split; [exact Hs|]. split; [exact Hev|].
    exact (Hevents pushed_left s _ self' Hs Hev).
Defined.

(** ** Discovery *)

Lemma find_device_from_first self vid pid devices :
  (find_device_from self vid pid devices).1 = first_eligible vid pid devices.
Proof.
  induction devices as [|[d|e] rest IH];
    cbn [find_device_from first_eligible eligible]; [reflexivity| |exact IH].
  unfold matches_filter, has_abs_capability.
  destruct (vid =? 0), (info_vendor d =? vid); cbn [negb andb orb];
    try exact IH;
    (destruct (pid =? 0), (info_product d =? pid); cbn [negb andb orb];
     try exact IH;
     (destruct (capabilities d) as [[abs|]|]; [reflexivity|exact IH..])).
Qed.

Lemma first_eligible_some vid pid devices d :
  first_eligible vid pid devices = Some d ->
  exists before after,
    devices = before ++ Ok d :: after /\
    Forall (fun p => eligible vid pid p = false) before /\
    eligible vid pid (Ok d) = true.
Proof.
  induction devices as [|p rest IH]; cbn [first_eligible]; [discriminate|].
  destruct (eligible vid pid p) eqn:E.
  - destruct p as [d'|e]; [|discriminate]. intros [= ->].
    exists [], rest. now repeat split.
  - intros H. destruct (IH H) as (before & after & -> & Hb & Hd).
    exists (p :: before), after. repeat split; [|exact Hd].
    now constructor.
Qed.

Lemma first_eligible_none vid pid devices :
  first_eligible vid pid devices = None <->
  Forall (fun p => eligible vid pid p = false) devices.
Proof.
  induction devices as [|p rest IH]; cbn [first_eligible].
  - split; [constructor|reflexivity].
  - destruct (eligible vid pid p) eqn:E.
    + split.
      * destruct p; [discriminate|]. cbn in E. discriminate.
      * intros H. inversion H; subst. congruence.
    + rewrite IH. split; [now constructor|]. intros H. now inversion H.
Qed.

Lemma find_device_from_none self vid pid devices :
  (find_device_from self vid pid devices).1 = None ->
  find_device_from self vid pid devices = (None, self).
Proof.
  induction devices as [|[d|e] rest IH]; cbn [find_device_from];
    [reflexivity| |exact IH].
  destruct (negb (vid =? 0) && negb (info_vendor d =? vid)); [exact IH|].
  destruct (negb (pid =? 0) && negb (info_product d =? pid)); [exact IH|].
  destruct (capabilities d) as [[abs|]|]; try exact IH. discriminate.
Qed.

Lemma unmatched_not_eligible vid pid devices :
  unmatched_filter vid info_vendor devices
  \/ unmatched_filter pid info_product devices ->
  Forall (fun p => eligible vid pid p = false) devices.
Proof.
  intros Hun. apply Forall_forall. intros [d|e] Hin; [|reflexivity].
  cbn [eligible]. unfold matches_filter.
  destruct Hun as [[Hnz Hno]|[Hnz Hno]]; specialize (Hno d Hin).
  - destruct (Z.eqb_spec vid 0); [contradiction|].
    destruct (Z.eqb_spec (info_vendor d) vid); [contradiction|]. reflexivity.
  - destruct (Z.eqb_spec pid 0); [contradiction|].
    destruct (Z.eqb_spec (info_product d) pid); [contradiction|].
    cbn. now rewrite andb_false_r.
Qed.

(** C7: discovery returns the first device of the enumeration that
    opens, matches every filter that is not zero and has the
    absolute-axis capability, and no device when there is none; when a
    filter that is not zero matches no device, discovery returns no
    device, [run] stays in discovery and the connection status is
    false. *)
Theorem C7_discovery :
  (forall self devices,
      (_find_device self devices).1
      = first_eligible (vendor self) (product self) devices) /\
  (forall self devices d,
      (_find_device self devices).1 = Some d ->
      exists before after,
        devices = before ++ Ok d :: after /\
        Forall (fun p => eligible (vendor self) (product self) p = false)
               before /\
        eligible (vendor self) (product self) (Ok d) = true) /\
  (forall self devices,
      (_find_device self devices).1 = None <->
      Forall (fun p => eligible (vendor self) (product self) p = false)
             devices) /\
  (forall inputs s devices,
      main inputs = Ok s -> dev s = None ->
      unmatched_filter (vendor (shim s)) info_vendor devices
      \/ unmatched_filter (product (shim s)) info_product devices ->
      _find_device (shim s) devices = (None, shim s) /\
      exists s',
        step s (Devices devices) = Ok s' /\ dev s' = None /\
        bit_pin (h (shim s')) "connected" = Some false).
Proof.
  split; [|split; [|split]].
  - intros self devices. apply find_device_from_first.
  - intros self devices d. unfold _find_device.
    rewrite find_device_from_first. apply first_eligible_some.
  - intros self devices. unfold _find_device.
    rewrite find_device_from_first. apply first_eligible_none.
  - intros inputs s devices Hmain Hdev Hun.
    destruct (main_inv _ _ Hmain) as [Hok _].
    assert (Hnone : _find_device (shim s) devices = (None, shim s)).
    { unfold _find_device. apply find_device_from_none.
      rewrite find_device_from_first. apply first_eligible_none.
      now apply unmatched_not_eligible. }
    split; [exact Hnone|].
    cbn [step]. rewrite Hdev, Hnone, (reset_ok _ Hok).
    eexists. split; [reflexivity|]. split; reflexivity.
Qed.

(** Without a filter the pad is found behind a keyboard and a device
    that does not open; with a vendor filter that matches nothing the
    loop stays in discovery. *)
Lemma C7_discovery_witness :
  (_find_device (shim_with_sticks (1 # 5) 0 0 0 0) enumeration).1 = Some gamepad /\
  (exists s s',
     main [SetVendor 1118] = Ok s /\
     step s (Devices enumeration) = Ok s' /\ dev s' = None /\
     bit_pin (h (shim s')) "connected" = Some false).
Proof.
  destruct C7_discovery as (Hfirst & _ & _ & Hnone).
  split.
  - rewrite Hfirst. reflexivity.
  - destruct (returns_with_spec
                (fun s => scanning s && (vendor (shim s) =? 1118))
                (main [SetVendor 1118]))
      as (s & Hs & Hd); [vm_compute; reflexivity|].
    apply andb_prop in Hd as [Hd Hv].
    apply scanning_true in Hd. apply Z.eqb_eq in Hv.
    destruct (Hnone _ s enumeration Hs Hd) as (_ & s' & Hstep & Hdev & Hc).
    { left. split; [lia|]. rewrite Hv. intros d Hin.
      unfold enumeration in Hin.
      repeat (apply elem_of_cons in Hin as [Hin|Hin];
              [try discriminate Hin; injection Hin as ->; cbn; lia|]).
      now apply elem_of_nil in Hin. }
    exists s, s'. split; [exact Hs|]. split; [exact Hstep|].
    split; [exact Hdev|exact Hc].
Defined.

(** ** Independence of the jog outputs from right-stick X and left trigger *)

Lemma same_but_pins_core a b : same_but_pins a b -> core b = core a.
Proof. unfold same_but_pins, core. intros ->. now destruct a. Qed.

Lemma core_apply_deadzone a b v :
  core a = core b -> _apply_deadzone a v = _apply_deadzone b v.
Proof.
  destruct a, b. unfold core, _apply_deadzone. cbn. now intros [= -> _].
Qed.

Lemma core_scale_axis a b code v :
  core a = core b -> _scale_axis a code v = _scale_axis b code v.
Proof.
  destruct a, b. unfold core, _scale_axis. cbn. now intros [= _ _ _ _ _ _ _ ->].
Qed.

Lemma core_scale_trigger a b code v :
  core a = core b -> _scale_trigger a code v = _scale_trigger b code v.
Proof.
  destruct a, b. unfold core, _scale_trigger. cbn.
  now intros [= _ _ _ _ _ _ _ ->].
Qed.

(** A write after a cache update, seen on the core. *)
Lemma set_pin_core a a' name v :
  set_pin a name v = Ok a' -> core a' = core a.
Proof. intros H. now apply same_but_pins_core, (set_pin_frame _ _ name v). Qed.

Lemma update_jog_outputs_core a a' :
  _update_jog_outputs a = Ok a' -> core a' = core a.
Proof.
  intros H. now apply same_but_pins_core, update_jog_outputs_keeps.
Qed.

Lemma dpad_loop_core items code value a a' :
  dpad_loop items code value a = Ok a' -> core a' = core a.
Proof.
  intros H. now apply same_but_pins_core, (dpad_loop_keeps items code value).
Qed.

Lemma core_with_lx a b v :
  core a = core b -> core (with_lx a v) = core (with_lx b v).
Proof. destruct a, b. unfold core. cbn. intros [=]. now subst. Qed.

Lemma core_with_ly a b v :
  core a = core b -> core (with_ly a v) = core (with_ly b v).
Proof. destruct a, b. unfold core. cbn. intros [=]. now subst. Qed.

Lemma core_with_ry a b v :
  core a = core b -> core (with_ry a v) = core (with_ry b v).
Proof. destruct a, b. unfold core. cbn. intros [=]. now subst. Qed.

Lemma core_with_rt a b v :
  core a = core b -> core (with_rt a v) = core (with_rt b v).
Proof. destruct a, b. unfold core. cbn. intros [=]. now subst. Qed.

(** The same absolute-axis event on two components with the same core. *)
Lemma handle_abs_core a b code value a' b' :
  core a = core b ->
  handle_abs a code value = Ok a' -> handle_abs b code value = Ok b' ->
  core a' = core b'.
Proof.
  intros Hc Ha Hb. unfold handle_abs in Ha, Hb.
  rewrite <- (core_scale_axis a b), <- ?(core_scale_trigger a b) in Hb
    by exact Hc.
  repeat match type of Ha with
         | (if ?c then _ else _) = _ => destruct c
         end;
    try (bind_inv Ha; bind_inv Hb;
         match goal with
         | H1 : ?m = Ok ?x, H2 : ?m = Ok ?y |- _ =>
             rewrite H1 in H2; injection H2 as <-
         end;
         apply set_pin_core in Ha, Hb; rewrite Ha, Hb;
         first [exact Hc | now apply core_with_lx | now apply core_with_ly
               | now apply core_with_ry | now apply core_with_rt]).
  - apply dpad_loop_core in Ha, Hb. congruence.
  - congruence.
Qed.

Lemma handle_event_core a b event a' b' :
  core a = core b ->
  handle_event a event = Ok a' -> handle_event b event = Ok b' ->
  core a' = core b'.
Proof.
  intros Hc Ha Hb. unfold handle_event in Ha, Hb.
  destruct (ev_type event =? ecodes.EV_ABS).
  - bind_inv Ha. bind_inv Hb.
    apply update_jog_outputs_core in Ha, Hb. rewrite Ha, Hb.
    exact (handle_abs_core _ _ _ _ _ _ Hc Ha0 Ha1).
  - destruct (ev_type event =? ecodes.EV_KEY); [|congruence].
    destruct (BUTTON_MAP !! ev_code event); [|congruence].
    apply set_pin_core in Ha, Hb. congruence.
Qed.

(** An event of right-stick X or of the left trigger leaves the core as
    it is. *)
Lemma handle_event_purged a event a' :
  is_rx_or_lt event = true -> handle_event a event = Ok a' ->
  core a' = core a.
Proof.
  unfold is_rx_or_lt, handle_event. intros Hp Ha.
  apply andb_prop in Hp as [Ht Hcode]. rewrite Ht in Ha.
  bind_inv Ha. apply update_jog_outputs_core in Ha. rewrite Ha.
  clear Ha. rename Ha0 into Ha. unfold handle_abs in Ha.
  apply orb_prop in Hcode as [Hcode|Hcode]; apply Z.eqb_eq in Hcode;
    rewrite Hcode in Ha; cbn [Z.eqb ecodes.ABS_X ecodes.ABS_Y ecodes.ABS_Z
      ecodes.ABS_RX ecodes.ABS_RY ecodes.ABS_RZ Pos.eqb] in Ha;
    bind_inv Ha; now apply set_pin_core in Ha.
Qed.

Lemma handle_events_purged events :
  forall a a',
    purge_events events = [] -> handle_events a events = Ok a' ->
    core a' = core a.
Proof.
  induction events as [|e rest IH]; intros a a' Hp H.
  - now injection H as <-.
  - cbn [handle_events] in H. bind_inv H.
    unfold purge_events in Hp. cbn [List.filter] in Hp.
    destruct (is_rx_or_lt e) eqn:E; [|discriminate]. cbn [negb] in Hp.
    rewrite (IH _ _ Hp H). now apply (handle_event_purged _ e).
Qed.

Lemma handle_events_core events1 :
  forall events2 a b a' b',
    core a = core b ->
    purge_events events1 = purge_events events2 ->
    handle_events a events1 = Ok a' -> handle_events b events2 = Ok b' ->
    core a' = core b'.
Proof.
  induction events1 as [|e1 rest1 IH1].
  - intros events2 a b a' b' Hc Hp Ha Hb. injection Ha as <-.
    rewrite Hc. symmetry. now apply (handle_events_purged events2).
  - intros events2 a b a' b' Hc Hp Ha Hb.
    cbn [handle_events] in Ha. bind_inv Ha. rename a0 into a1.
    unfold purge_events in Hp. cbn [List.filter] in Hp.
    destruct (is_rx_or_lt e1) eqn:E1; cbn [negb] in Hp.
    + apply (IH1 events2 a1 b a' b'); try assumption.
      rewrite <- Hc. now apply (handle_event_purged _ e1).
    + revert b Hc Hb.
      induction events2 as [|e2 rest2 IH2]; intros b Hc Hb;
        [discriminate Hp|].
      cbn [handle_events] in Hb. bind_inv Hb. rename a0 into b1.
      cbn [List.filter] in Hp.
      destruct (is_rx_or_lt e2) eqn:E2; cbn [negb] in Hp.
      * apply (IH2 Hp b1); [|exact Hb].
        rewrite Hc. symmetry. now apply (handle_event_purged _ e2).
      * injection Hp as -> Hp.
        apply (IH1 rest2 a1 b1 a' b'); try assumption.
        exact (handle_event_core _ _ _ _ _ Hc Ha0 Ha1).
Qed.

(** The event loop raises no [OSError] of its own: only a failed read
    does. *)
Lemma bind_Raise_inv {A B : Type} (m : result A) (k : A -> result B) e :
  mbind k m = Raise e -> m = Raise e \/ exists a, m = Ok a /\ k a = Raise e.
Proof. destruct m as [a|e']; cbn; [right; eauto | intros [= ->]; now left]. Qed.

Lemma pydiv_no_oserror x y : pydiv x y <> Raise OSError.
Proof. unfold pydiv. now destruct (Qeq_bool y 0). Qed.

Lemma set_pin_no_oserror self name v : set_pin self name v <> Raise OSError.
Proof.
  unfold set_pin, setitem. now destruct (h self !! name).
Qed.

Lemma apply_deadzone_no_oserror self v : _apply_deadzone self v <> Raise OSError.
Proof.
  unfold _apply_deadzone.
  destruct (Qlt_le_dec (Qabs v) (deadzone self)); [discriminate|].
  apply pydiv_no_oserror.
Qed.

Lemma scale_axis_no_oserror self code v : _scale_axis self code v <> Raise OSError.
Proof. destruct (scale_axis_total self code v) as [q ->]. discriminate. Qed.

Lemma scale_trigger_no_oserror self code v :
  _scale_trigger self code v <> Raise OSError.
Proof. destruct (scale_trigger_total self code v) as [q ->]. discriminate. Qed.

Ltac no_oserror H :=
  repeat (apply bind_Raise_inv in H as [H|(? & _ & H)];
          [first [ now apply apply_deadzone_no_oserror in H
                 | now apply set_pin_no_oserror in H
                 | now apply scale_axis_no_oserror in H
                 | now apply scale_trigger_no_oserror in H ] |]);
  first [ now apply set_pin_no_oserror in H
        | now apply apply_deadzone_no_oserror in H
        | discriminate H ].

Lemma update_jog_outputs_no_oserror self :
  _update_jog_outputs self <> Raise OSError.
Proof. unfold _update_jog_outputs. intros H. no_oserror H. Qed.

Lemma dpad_loop_no_oserror items code value :
  forall self, dpad_loop items code value self <> Raise OSError.
Proof.
  induction items as [|[[dcode dval] pin] rest IH]; intros self H;
    [discriminate|].
  cbn [dpad_loop] in H.
  apply bind_Raise_inv in H as [H|(a & _ & H)]; [|now apply IH in H].
  destruct (dcode =? code); [now apply set_pin_no_oserror in H|discriminate].
Qed.

Lemma handle_abs_no_oserror self code value :
  handle_abs self code value <> Raise OSError.
Proof.
  unfold handle_abs. intros H.
  repeat match type of H with
         | (if ?c then _ else _) = _ => destruct c
         end;
    try (no_oserror H).
  now apply dpad_loop_no_oserror in H.
Qed.

Lemma handle_event_no_oserror self event :
  handle_event self event <> Raise OSError.
Proof.
  unfold handle_event. intros H.
  destruct (ev_type event =? ecodes.EV_ABS).
  - apply bind_Raise_inv in H as [H|(a & _ & H)].
    + now apply handle_abs_no_oserror in H.
    + now apply update_jog_outputs_no_oserror in H.
  - destruct (ev_type event =? ecodes.EV_KEY); [|discriminate].
    destruct (BUTTON_MAP !! ev_code event); [|discriminate].
    now apply set_pin_no_oserror in H.
Qed.

Lemma handle_events_no_oserror events :
  forall self, handle_events self events <> Raise OSError.
Proof.
  induction events as [|e rest IH]; intros self H; [discriminate|].
  cbn [handle_events] in H.
  apply bind_Raise_inv in H as [H|(a & _ & H)].
  - now apply handle_event_no_oserror in H.
  - now apply IH in H.
Qed.

Lemma connected_body_oserror self i :
  connected_body self i = Raise OSError -> i = ReadError.
Proof.
  destruct i; cbn [connected_body]; intros H; try discriminate.
  - now apply update_jog_outputs_no_oserror in H.
  - now apply handle_events_no_oserror in H.
  - reflexivity.
Qed.

(** ** Two runs that differ in right-stick X and left-trigger events *)

Lemma reset_core self self' :
  _reset self = Ok self' ->
  core self'
  = mkShim ∅ (deadzone self) (vendor self) (product self) 0 0 0 0
           (_axis_info self).
Proof.
  unfold _reset. intros H. apply set_pin_core in H. rewrite H.
  now destruct self.
Qed.

Lemma reset_same_core a b a' b' :
  core a = core b -> _reset a = Ok a' -> _reset b = Ok b' -> core a' = core b'.
Proof.
  intros Hc Ha Hb. rewrite (reset_core _ _ Ha), (reset_core _ _ Hb).
  destruct a, b. unfold core in Hc. cbn in *. injection Hc as ->. now subst.
Qed.

Lemma find_device_from_core a b vid pid devices :
  core a = core b ->
  (find_device_from a vid pid devices).1
  = (find_device_from b vid pid devices).1 /\
  core (find_device_from a vid pid devices).2
  = core (find_device_from b vid pid devices).2.
Proof.
  intros Hc.
  induction devices as [|[d|e] rest IH]; cbn [find_device_from];
    [now split| |exact IH].
  destruct (negb (vid =? 0) && negb (info_vendor d =? vid)); [exact IH|].
  destruct (negb (pid =? 0) && negb (info_product d =? pid)); [exact IH|].
  destruct (capabilities d) as [[abs|]|]; try exact IH.
  split; [reflexivity|]. cbn.
  destruct a, b. unfold core in *. cbn in *. injection Hc as ->. now subst.
Qed.

Lemma core_vendor a b : core a = core b -> vendor a = vendor b.
Proof. destruct a, b. unfold core. cbn. now intros [=]. Qed.

Lemma core_product a b : core a = core b -> product a = product b.
Proof. destruct a, b. unfold core. cbn. now intros [=]. Qed.

Lemma core_with_deadzone a b d :
  core a = core b -> core (with_deadzone a d) = core (with_deadzone b d).
Proof. destruct a, b. unfold core. cbn. intros [=]. now subst. Qed.

Lemma core_with_vendor a b v :
  core a = core b -> core (with_vendor a v) = core (with_vendor b v).
Proof. destruct a, b. unfold core. cbn. intros [=]. now subst. Qed.

Lemma core_with_product a b p :
  core a = core b -> core (with_product a p) = core (with_product b p).
Proof. destruct a, b. unfold core. cbn. intros [=]. now subst. Qed.

(** One turn of the inner loop on two components with the same core,
    for inputs that agree once purged. *)
Lemma connected_turn_core a b i1 i2 d s1' s2' :
  core a = core b -> purge i1 = purge i2 ->
  match connected_body a i1 with
  | Ok self => Ok (mkSession self (Some d))
  | Raise OSError => self ← _reset a; Ok (mkSession self None)
  | Raise e => Raise e
  end = Ok s1' ->
  match connected_body b i2 with
  | Ok self => Ok (mkSession self (Some d))
  | Raise OSError => self ← _reset b; Ok (mkSession self None)
  | Raise e => Raise e
  end = Ok s2' ->
  same_core s1' s2'.
Proof.
  intros Hc Hp H1 H2.
  destruct (connected_body a i1) as [a'|[| |]] eqn:E1; try discriminate;
    destruct (connected_body b i2) as [b'|[| |]] eqn:E2; try discriminate.
  - injection H1 as <-. injection H2 as <-. split; [reflexivity|]. cbn.
    destruct i1, i2; cbn [purge] in Hp; try discriminate Hp;
      cbn [connected_body] in E1, E2; try congruence.
    + apply update_jog_outputs_core in E1, E2. congruence.
    + injection Hp as Hp.
      exact (handle_events_core _ _ _ _ _ _ Hc Hp E1 E2).
  - apply connected_body_oserror in E2 as ->.
    destruct i1; cbn [purge] in Hp; try discriminate Hp.
    discriminate E1.
  - apply connected_body_oserror in E1 as ->.
    destruct i2; cbn [purge] in Hp; try discriminate Hp.
    discriminate E2.
  - bind_inv H1. bind_inv H2. injection H1 as <-. injection H2 as <-.
    split; [reflexivity|]. cbn.
    exact (reset_same_core _ _ _ _ Hc Ha Ha0).
Qed.

(** [step] while a device is open. *)
Lemma step_connected s d i :
  dev s = Some d -> is_param_write i = false ->
  step s i
  = match connected_body (shim s) i with
    | Ok self => Ok (mkSession self (Some d))
    | Raise OSError => self ← _reset (shim s); Ok (mkSession self None)
    | Raise e => Raise e
    end.
Proof.
  intros Hdev Hw. destruct i; try discriminate Hw; cbn [step];
    now rewrite Hdev.
Qed.

Lemma purge_param_write i1 i2 :
  purge i1 = purge i2 -> is_param_write i1 = is_param_write i2.
Proof. destruct i1, i2; cbn; congruence. Qed.

Lemma step_core s1 s2 i1 i2 s1' s2' :
  same_core s1 s2 -> purge i1 = purge i2 ->
  step s1 i1 = Ok s1' -> step s2 i2 = Ok s2' ->
  same_core s1' s2'.
Proof.
  destruct s1 as [a d1], s2 as [b d2]. intros [Hd Hc]. cbn in Hd, Hc.
  subst d2. intros Hp H1 H2.
  pose proof (purge_param_write _ _ Hp) as Hw.
  destruct (is_param_write i1) eqn:Ew.
  - destruct i1; try discriminate Ew;
      destruct i2; cbn [purge] in Hp; try discriminate Hp;
      injection Hp as <-; cbn [step shim dev] in H1, H2;
      injection H1 as <-; injection H2 as <-;
      (split; [reflexivity|cbn]).
    + now apply core_with_deadzone.
    + now apply core_with_vendor.
    + now apply core_with_product.
  - symmetry in Hw. destruct d1 as [d|].
    + rewrite (step_connected (mkSession a (Some d)) d _ eq_refl Ew) in H1.
      rewrite (step_connected (mkSession b (Some d)) d _ eq_refl Hw) in H2.
      cbn [shim] in H1, H2.
      exact (connected_turn_core _ _ _ _ _ _ _ Hc Hp H1 H2).
    + destruct i1; try discriminate Ew;
        destruct i2; cbn [purge] in Hp; try discriminate Hp;
        cbn [step dev shim] in H1, H2;
        try (injection H1 as <-; injection H2 as <-; now split).
      injection Hp as <-.
      unfold _find_device in H1, H2.
      rewrite <- (core_vendor _ _ Hc), <- (core_product _ _ Hc) in H2.
      destruct (find_device_from_core a b (vendor a) (product a) devices Hc)
        as [Hfst Hsnd].
      destruct (find_device_from a (vendor a) (product a) devices) as [o1 a1].
      destruct (find_device_from b (vendor a) (product a) devices) as [o2 b1].
      cbn in Hfst, Hsnd. subst o2.
      destruct o1 as [d|]; bind_inv H1; bind_inv H2;
        injection H1 as <-; injection H2 as <-; (split; [reflexivity|cbn]).
      * apply set_pin_core in Ha, Ha0. congruence.
      * exact (reset_same_core _ _ _ _ Hsnd Ha Ha0).
Qed.

Lemma run_core inputs1 :
  forall inputs2 s1 s2 s1' s2',
    same_core s1 s2 -> List.map purge inputs1 = List.map purge inputs2 ->
    run s1 inputs1 = Ok s1' -> run s2 inputs2 = Ok s2' ->
    same_core s1' s2'.
Proof.
  induction inputs1 as [|i1 rest1 IH]; intros [|i2 rest2] s1 s2 s1' s2' Hc Hp H1 H2;
    try discriminate Hp.
  - injection H1 as <-. now injection H2 as <-.
  - cbn [List.map] in Hp. injection Hp as Hi Hp.
    cbn [run] in H1, H2. bind_inv H1. bind_inv H2.
    apply (IH rest2 a a0); try assumption.
    exact (step_core _ _ _ _ _ _ Hc Hi Ha Ha0).
Qed.

(** ** Jog outputs up to date *)

Lemma apply_deadzone_zero self : exists q, _apply_deadzone self 0 = Ok q.
Proof.
  unfold _apply_deadzone.
  destruct (Qlt_le_dec (Qabs 0) (deadzone self)) as [|Hd]; [eauto|].
  change (Qabs 0) with 0%Q in Hd.
  rewrite pydiv_ok by lra. eauto.
Qed.

Lemma float_pin_ext (h1 h2 : gmap string hal_value) name :
  h1 !! name = h2 !! name -> float_pin h1 name = float_pin h2 name.
Proof. unfold float_pin. now intros ->. Qed.

(** Freshness depends on the deadzone, the cached readings and the three
    jog pins only. *)
Lemma jog_fresh_ext a b :
  deadzone b = deadzone a ->
  _lx b = _lx a -> _ly b = _ly a -> _ry b = _ry a -> _rt b = _rt a ->
  (forall name, name ∈ jog_names -> h b !! name = h a !! name) ->
  jog_fresh a -> jog_fresh b.
Proof.
  intros Hd Hx Hy Hz Ht Hpins
         (sx & sy & sz & jx & jy & jz & Sx & Sy & Sz & Jx & Jy & Jz & Ex & Ey & Ez).
  exists sx, sy, sz, jx, jy, jz.
  unfold _apply_deadzone in *. rewrite Hd, Hx, Hy, Hz, Ht.
  rewrite (float_pin_ext (h b) (h a) "jog-x"),
          (float_pin_ext (h b) (h a) "jog-y"),
          (float_pin_ext (h b) (h a) "jog-z")
    by (apply Hpins; unfold jog_names; in_names).
  now repeat split.
Qed.

Lemma fresh_at_rest self : at_rest self -> jog_fresh self.
Proof.
  intros (Hh & Hx & Hy & Hz & Ht).
  destruct (apply_deadzone_zero self) as [q Hq].
  exists q, q, q, 0%Q, 0%Q, 0%Q. rewrite Hh, Hx, Hy, Hz, Ht.
  repeat split; try exact Hq; try reflexivity; ring.
Qed.

(** What [_update_jog_outputs] did when it returned. *)
Lemma update_jog_outputs_inv a a' :
  pins_ok (h a) -> _update_jog_outputs a = Ok a' ->
  exists sx sy sz,
    _apply_deadzone a (_lx a) = Ok sx /\
    _apply_deadzone a (_ly a) = Ok sy /\
    _apply_deadzone a (_ry a) = Ok sz /\
    a' = with_h a (jog_pins (h a) sx sy sz (_rt a)).
Proof.
  intros Hok H. pose proof H as H'. unfold _update_jog_outputs in H'.
  bind_inv H'. rename a0 into sx, Ha into Sx.
  bind_inv H'. rename a0 into a1, Ha into W1.
  bind_inv H'. rename a0 into sy, Ha into Sy.
  bind_inv H'. rename a0 into a2, Ha into W2.
  bind_inv H'. rename a0 into sz, Ha into Sz.
  assert (C1 : core a1 = core a) by exact (set_pin_core _ _ _ _ W1).
  assert (C2 : core a2 = core a) by (rewrite <- C1; exact (set_pin_core _ _ _ _ W2)).
  assert (Ly : _ly a1 = _ly a)
    by (apply set_pin_frame in W1; rewrite W1; now destruct a).
  assert (Rz : _ry a2 = _ry a).
  { apply set_pin_frame in W1, W2. rewrite W2, W1. now destruct a. }
  rewrite (core_apply_deadzone a1 a _ C1), Ly in Sy.
  rewrite (core_apply_deadzone a2 a _ C2), Rz in Sz.
  exists sx, sy, sz. repeat split; try assumption.
  rewrite (update_jog_outputs_ok a sx sy sz Hok Sx Sy Sz) in H.
  now injection H as <-.
Qed.

Lemma jog_pins_fresh a sx sy sz :
  _apply_deadzone a (_lx a) = Ok sx ->
  _apply_deadzone a (_ly a) = Ok sy ->
  _apply_deadzone a (_ry a) = Ok sz ->
  jog_fresh (with_h a (jog_pins (h a) sx sy sz (_rt a))).
Proof.
  intros Sx Sy Sz.
  exists sx, sy, sz, (sx * _rt a)%Q, (sy * _rt a)%Q, (sz * _rt a)%Q.
  destruct a. cbn [with_h h _lx _ly _ry _rt] in *.
  unfold _apply_deadzone in *. cbn [deadzone] in *.
  rewrite jog_pins_x, jog_pins_y, jog_pins_z.
  now repeat split.
Qed.

Lemma update_jog_outputs_fresh a a' :
  pins_ok (h a) -> _update_jog_outputs a = Ok a' -> jog_fresh a'.
Proof.
  intros Hok H.
  destruct (update_jog_outputs_inv _ _ Hok H) as (sx & sy & sz & Sx & Sy & Sz & ->).
  now apply jog_pins_fresh.
Qed.

Lemma button_not_jog code pin :
  BUTTON_MAP !! code = Some pin -> pin ∉ jog_names.
Proof.
  unfold BUTTON_MAP. intros H.
  apply elem_of_list_to_map_2 in H.
  repeat (apply elem_of_cons in H as [Heq|H];
          [injection Heq as _ ->; unfold jog_names; not_in_names|]).
  now apply elem_of_nil in H.
Qed.

(** A write to a pin that is not a jog pin keeps the jog outputs fresh. *)
Lemma set_pin_fresh a a' name v :
  set_pin a name v = Ok a' -> name ∉ jog_names ->
  jog_fresh a -> jog_fresh a'.
Proof.
  intros H Hnin.
  pose proof (set_pin_frame _ _ _ _ H) as Hf.
  apply jog_fresh_ext; try (rewrite Hf; now destruct a).
  intros name' Hin. eapply set_pin_other; [exact H|].
  intros ->. contradiction.
Qed.

Lemma handle_event_fresh a event a' :
  pins_ok (h a) -> jog_fresh a -> handle_event a event = Ok a' ->
  jog_fresh a'.
Proof.
  unfold handle_event. intros Hok Hf H.
  destruct (ev_type event =? ecodes.EV_ABS).
  - bind_inv H. eapply update_jog_outputs_fresh; [|exact H].
    eapply handle_abs_keeps; eassumption.
  - destruct (ev_type event =? ecodes.EV_KEY); [|now injection H as <-].
    destruct (BUTTON_MAP !! ev_code event) as [pin|] eqn:Hpin;
      [|now injection H as <-].
    eapply set_pin_fresh; [exact H| |exact Hf].
    eapply button_not_jog, Hpin.
Qed.

Lemma handle_events_fresh events :
  forall a a',
    pins_ok (h a) -> jog_fresh a -> handle_events a events = Ok a' ->
    jog_fresh a'.
Proof.
  induction events as [|e rest IH]; intros a a' Hok Hf H.
  - now injection H as <-.
  - cbn [handle_events] in H. bind_inv H.
    eapply IH; [| |exact H].
    + eapply handle_event_keeps; eassumption.
    + eapply handle_event_fresh; eassumption.
Qed.

Lemma step_fresh s i s' :
  session_inv s -> jog_fresh (shim s) -> is_deadzone_write i = false ->
  step s i = Ok s' -> jog_fresh (shim s').
Proof.
  intros Hinv Hf Hw H.
  pose proof (step_inv _ _ _ Hinv H) as [_ Hrest'].
  destruct Hinv as [Hok _].
  destruct (dev s') as [d'|] eqn:Hdev'; [|now apply fresh_at_rest, Hrest'].
  clear Hrest'.
  destruct (is_param_write i) eqn:Ew.
  - destruct i; try discriminate Ew; try discriminate Hw;
      cbn [step] in H; injection H as <-; cbn [shim];
      (eapply jog_fresh_ext; [..|exact Hf]); now destruct (shim s).
  - destruct (dev s) as [d|] eqn:Hdev.
    + rewrite (step_connected _ d _ Hdev Ew) in H.
      destruct (connected_body (shim s) i) as [a'|[| |]] eqn:E;
        try discriminate H.
      * injection H as <-. cbn [shim].
        destruct i; cbn [connected_body] in E;
          try (injection E as <-; exact Hf); try discriminate E.
        -- eapply update_jog_outputs_fresh; eassumption.
        -- eapply handle_events_fresh; eassumption.
      * bind_inv H. injection H as <-. discriminate Hdev'.
    + destruct i; try discriminate Ew; cbn [step] in H; rewrite Hdev in H;
        try (injection H as <-; exact Hf).
      destruct (_find_device (shim s) devices) as [[d|] self] eqn:Hfind;
        unfold _find_device in Hfind;
        pose proof (find_device_from_frame _ _ _ _ _ _ Hfind) as Hframe;
        bind_inv H; injection H as <-; [|discriminate Hdev'].
      cbn [shim]. eapply set_pin_fresh; [exact Ha|not_in_names|].
      eapply jog_fresh_ext; [..|exact Hf]; rewrite Hframe; now destruct (shim s).
Qed.

Lemma run_fresh inputs :
  forall s s',
    session_inv s -> jog_fresh (shim s) ->
    forallb (fun i => negb (is_deadzone_write i)) inputs = true ->
    run s inputs = Ok s' -> jog_fresh (shim s').
Proof.
  induction inputs as [|i rest IH]; intros s s' Hinv Hf Hw H.
  - now injection H as <-.
  - cbn [forallb] in Hw. apply andb_prop in Hw as [Hi Hw].
    apply negb_true_iff in Hi.
    cbn [run] in H. bind_inv H. eapply IH; [| |exact Hw|exact H].
    + eapply step_inv; eassumption.
    + eapply step_fresh; eassumption.
Qed.

(** Two components with the same core and fresh jog outputs show the
    same jog outputs. *)
Lemma fresh_same_core_equiv a b :
  core a = core b -> jog_fresh a -> jog_fresh b -> jog_equiv (h a) (h b).
Proof.
  intros Hc
    (sx & sy & sz & jx & jy & jz & Sx & Sy & Sz & Jx & Jy & Jz & Ex & Ey & Ez)
    (sx' & sy' & sz' & jx' & jy' & jz' & Sx' & Sy' & Sz' & Jx' & Jy' & Jz'
     & Ex' & Ey' & Ez').
  rewrite <- (core_apply_deadzone a b _ Hc) in Sx'.
  rewrite <- (core_apply_deadzone a b _ Hc) in Sy'.
  rewrite <- (core_apply_deadzone a b _ Hc) in Sz'.
  assert (Hx : _lx b = _lx a /\ _ly b = _ly a /\ _ry b = _ry a /\ _rt b = _rt a).
  { destruct a, b. unfold core in Hc. cbn in *. injection Hc as ->. now subst. }
  destruct Hx as (Hx & Hy & Hz & Ht). rewrite Hx, Hy, Hz, Ht in *.
  rewrite Sx in Sx'. rewrite Sy in Sy'. rewrite Sz in Sz'.
  injection Sx' as <-. injection Sy' as <-. injection Sz' as <-.
  exists jx, jy, jz, jx', jy', jz'.
  repeat split; try assumption.
  - now rewrite Ex, Ex'.
  - now rewrite Ey, Ey'.
  - now rewrite Ez, Ez'.
Qed.

Lemma handle_event_rx self v sx sy sz :
  pins_ok (h self) ->
  _apply_deadzone self (_lx self) = Ok sx ->
  _apply_deadzone self (_ly self) = Ok sy ->
  _apply_deadzone self (_ry self) = Ok sz ->
  exists val,
    _scale_axis self ecodes.ABS_RX v = Ok val /\
    handle_event self (abs_event ecodes.ABS_RX v)
    = Ok (with_h self (jog_pins (<["rx" := HalFloat val]> (h self))
                                sx sy sz (_rt self))).
Proof.
  intros Hok Hx Hy Hz.
  destruct (scale_axis_total self ecodes.ABS_RX v) as [val Hval].
  exists val. split; [exact Hval|].
  unfold handle_event, abs_event, handle_abs.
  cbn [ev_type ev_code ev_value Z.eqb ecodes.EV_ABS ecodes.ABS_X
       ecodes.ABS_Y ecodes.ABS_Z ecodes.ABS_RX ecodes.ABS_RY Pos.eqb].
  rewrite Hval. cbn [mbind result_bind].
  rewrite (set_pin_ok _ "rx" _ HAL_FLOAT); [|exact Hok|reflexivity].
  cbn [mbind result_bind convert to_float].
  rewrite (update_jog_outputs_ok _ sx sy sz); [now destruct self| |
    destruct self; exact Hx | destruct self; exact Hy | destruct self; exact Hz].
  destruct self. cbn. apply pins_ok_insert; [exact Hok|reflexivity].
Qed.

Lemma handle_event_lt self v sx sy sz :
  pins_ok (h self) ->
  _apply_deadzone self (_lx self) = Ok sx ->
  _apply_deadzone self (_ly self) = Ok sy ->
  _apply_deadzone self (_ry self) = Ok sz ->
  exists val,
    _scale_trigger self ecodes.ABS_Z v = Ok val /\
    handle_event self (abs_event ecodes.ABS_Z v)
    = Ok (with_h self (jog_pins (<["lt" := HalFloat val]> (h self))
                                sx sy sz (_rt self))).
Proof.
  intros Hok Hx Hy Hz.
  destruct (scale_trigger_total self ecodes.ABS_Z v) as [val Hval].
  exists val. split; [exact Hval|].
  unfold handle_event, abs_event, handle_abs.
  cbn [ev_type ev_code ev_value Z.eqb ecodes.EV_ABS ecodes.ABS_X
       ecodes.ABS_Y ecodes.ABS_Z ecodes.ABS_RX ecodes.ABS_RY Pos.eqb].
  rewrite Hval. cbn [mbind result_bind].
  rewrite (set_pin_ok _ "lt" _ HAL_FLOAT); [|exact Hok|reflexivity].
  cbn [mbind result_bind convert to_float].
  rewrite (update_jog_outputs_ok _ sx sy sz); [now destruct self| |
    destruct self; exact Hx | destruct self; exact Hy | destruct self; exact Hz].
  destruct self. cbn. apply pins_ok_insert; [exact Hok|reflexivity].
Qed.

Lemma writes_own_pin_only_intro own val sx sy sz self :
  own ∉ jog_names ->
  _apply_deadzone self (_lx self) = Ok sx ->
  _apply_deadzone self (_ly self) = Ok sy ->
  _apply_deadzone self (_ry self) = Ok sz ->
  writes_own_pin_only own val sx sy sz self
    (with_h self (jog_pins (<[own := HalFloat val]> (h self))
                           sx sy sz (_rt self))).
Proof.
  intros Hown Sx Sy Sz.
  assert (Hne : own <> "jog-x" /\ own <> "jog-y" /\ own <> "jog-z").
  { repeat split; intros ->; apply Hown; unfold jog_names; in_names. }
  destruct Hne as (Nx & Ny & Nz).
  split; [now destruct self|]. cbn [with_h h].
  split; [unfold float_pin; rewrite jog_pins_other by assumption;
          now rewrite lookup_insert_eq|].
  split; [apply jog_pins_x|]. split; [apply jog_pins_y|].
  split; [apply jog_pins_z|].
  split.
  - intros name Hn Hj. rewrite jog_pins_other;
      [now rewrite lookup_insert_ne| | |];
      intros ->; apply Hj; unfold jog_names; in_names.
  - intros (sx' & sy' & sz' & jx & jy & jz
            & Sx' & Sy' & Sz' & Jx & Jy & Jz & Ex & Ey & Ez).
    rewrite Sx in Sx'. rewrite Sy in Sy'. rewrite Sz in Sz'.
    injection Sx' as <-. injection Sy' as <-. injection Sz' as <-.
    exists jx, jy, jz, (sx * _rt self)%Q, (sy * _rt self)%Q, (sz * _rt self)%Q.
    rewrite jog_pins_x, jog_pins_y, jog_pins_z. now repeat split.
Qed.

Lemma run_app inputs1 inputs2 :
  forall s, run s (inputs1 ++ inputs2) = (s' ← run s inputs1; run s' inputs2).
Proof.
  induction inputs1 as [|i rest IH]; intros s; [reflexivity|].
  cbn [run app]. destruct (step s i) as [s1|e]; [apply IH|reflexivity].
Qed.

Lemma main_run inputs : main inputs = run initial inputs.
Proof. unfold main. now rewrite init_ok. Qed.

Lemma initial_inv : session_inv initial.
Proof.
  split; cbn; [exact pins_ok_new_pins|].
  intros _. unfold at_rest. cbn. now repeat split.
Qed.

(** The jog pins written by [_update_jog_outputs] are determined by the
    core. *)
Lemma update_jog_outputs_same_jog a b a' b' :
  pins_ok (h a) -> pins_ok (h b) -> core a = core b ->
  _update_jog_outputs a = Ok a' -> _update_jog_outputs b = Ok b' ->
  same_jog_pins (h a') (h b').
Proof.
  intros Hoka Hokb Hc Ha Hb.
  destruct (update_jog_outputs_inv _ _ Hoka Ha)
    as (sx & sy & sz & Sx & Sy & Sz & ->).
  destruct (update_jog_outputs_inv _ _ Hokb Hb)
    as (sx' & sy' & sz' & Sx' & Sy' & Sz' & ->).
  rewrite <- (core_apply_deadzone _ _ _ Hc) in Sx'.
  rewrite <- (core_apply_deadzone _ _ _ Hc) in Sy'.
  rewrite <- (core_apply_deadzone _ _ _ Hc) in Sz'.
  assert (Hx : _lx b = _lx a /\ _ly b = _ly a /\ _ry b = _ry a /\ _rt b = _rt a).
  { destruct a, b. unfold core in Hc. cbn in *. injection Hc as ->. now subst. }
  destruct Hx as (Hx & Hy & Hz & Ht). rewrite Hx, Hy, Hz, Ht in *.
  rewrite Sx in Sx'. rewrite Sy in Sy'. rewrite Sz in Sz'.
  injection Sx' as <-. injection Sy' as <-. injection Sz' as <-.
  cbn [with_h h]. intros name Hin. unfold jog_names in Hin. unfold jog_pins.
  repeat (apply elem_of_cons in Hin as [->|Hin]; [now simplify_map_eq|]).
  now apply elem_of_nil in Hin.
Qed.

Lemma same_jog_pins_float (h1 h2 : gmap string hal_value) :
  same_jog_pins h1 h2 ->
  forall name, name ∈ jog_names -> float_pin h1 name = float_pin h2 name.
Proof. intros H name Hin. apply float_pin_ext, H, Hin. Qed.

(** The three jog pins after an idle tick are determined by the core. *)
Lemma tick_same_jog s1 s2 s1' s2' :
  session_inv s1 -> session_inv s2 -> same_core s1 s2 ->
  step s1 SelectTimeout = Ok s1' -> step s2 SelectTimeout = Ok s2' ->
  forall name, name ∈ jog_names ->
               float_pin (h (shim s1')) name = float_pin (h (shim s2')) name.
Proof.
  intros [Hok1 Hrest1] [Hok2 Hrest2] [Hd Hc] H1 H2.
  apply same_jog_pins_float.
  cbn [step] in H1, H2. rewrite <- Hd in H2.
  destruct (dev s1) as [d|].
  - cbn [connected_body] in H1, H2.
    destruct (_update_jog_outputs (shim s1)) as [a1|[| |]] eqn:E1;
      try discriminate H1;
      [|now apply update_jog_outputs_no_oserror in E1].
    destruct (_update_jog_outputs (shim s2)) as [a2|[| |]] eqn:E2;
      try discriminate H2;
      [|now apply update_jog_outputs_no_oserror in E2].
    injection H1 as <-. injection H2 as <-. cbn [shim].
    exact (update_jog_outputs_same_jog _ _ _ _ Hok1 Hok2 Hc E1 E2).
  - injection H1 as <-. injection H2 as <-.
    destruct (Hrest1 eq_refl) as [-> _].
    destruct (Hrest2 (eq_sym Hd)) as [-> _]. now intros name _.
Qed.

(** ** Two runs that differ in the values of those events *)

Lemma event_variant_purge e1 e2 :
  event_variant e1 e2 -> is_rx_or_lt e2 = is_rx_or_lt e1.
Proof.
  intros [->|(_ & Ht & Hcode)]; [reflexivity|].
  unfold is_rx_or_lt. now rewrite Ht, Hcode.
Qed.

Lemma events_variant_purge events1 events2 :
  Forall2 event_variant events1 events2 ->
  purge_events events1 = purge_events events2.
Proof.
  induction 1 as [|e1 e2 rest1 rest2 He _ IH]; [reflexivity|].
  unfold purge_events in *. cbn [List.filter].
  rewrite (event_variant_purge _ _ He).
  destruct He as [->|(Hp & _)].
  - now rewrite IH.
  - rewrite Hp. exact IH.
Qed.

Lemma input_variant_purge i1 i2 : input_variant i1 i2 -> purge i1 = purge i2.
Proof.
  destruct i1, i2; cbn [input_variant purge]; try congruence.
  intros H. now rewrite (events_variant_purge _ _ H).
Qed.

Lemma inputs_variant_purge inputs1 inputs2 :
  Forall2 input_variant inputs1 inputs2 ->
  List.map purge inputs1 = List.map purge inputs2.
Proof.
  induction 1 as [|i1 i2 rest1 rest2 Hi _ IH]; [reflexivity|].
  cbn [List.map]. now rewrite (input_variant_purge _ _ Hi), IH.
Qed.

Lemma set_pin_same_jog a a' name v :
  set_pin a name v = Ok a' -> name ∉ jog_names -> same_jog_pins (h a') (h a).
Proof.
  intros H Hnin name' Hin. eapply set_pin_other; [exact H|].
  intros ->. contradiction.
Qed.

Lemma same_jog_pins_trans (h1 h2 h3 : gmap string hal_value) :
  same_jog_pins h1 h2 -> same_jog_pins h2 h3 -> same_jog_pins h1 h3.
Proof. intros H12 H23 name Hin. now rewrite (H12 name Hin), (H23 name Hin). Qed.

Lemma same_jog_pins_sym (h1 h2 : gmap string hal_value) :
  same_jog_pins h1 h2 -> same_jog_pins h2 h1.
Proof. intros H name Hin. now rewrite (H name Hin). Qed.

(** Two variants of an event on components with the same core and the
    same jog pins. *)
Lemma handle_event_same_jog a b e1 e2 a' b' :
  pins_ok (h a) -> pins_ok (h b) -> core a = core b ->
  same_jog_pins (h a) (h b) -> event_variant e1 e2 ->
  handle_event a e1 = Ok a' -> handle_event b e2 = Ok b' ->
  core a' = core b' /\ same_jog_pins (h a') (h b').
Proof.
  intros Hoka Hokb Hc Hj He Ha Hb.
  assert (Hcore : core a' = core b').
  { destruct He as [->|(Hp & Ht & Hcode)].
    - exact (handle_event_core _ _ _ _ _ Hc Ha Hb).
    - rewrite (handle_event_purged _ _ _ Hp Ha).
      assert (Hp2 : is_rx_or_lt e2 = true)
        by (unfold is_rx_or_lt in *; now rewrite Ht, Hcode).
      now rewrite (handle_event_purged _ _ _ Hp2 Hb). }
  split; [exact Hcore|].
  assert (Htype : ev_type e2 = ev_type e1)
    by (destruct He as [->|(_ & Ht & _)]; [reflexivity|exact Ht]).
  assert (Hcode : ev_code e2 = ev_code e1)
    by (destruct He as [->|(_ & _ & Hcode)]; [reflexivity|exact Hcode]).
  unfold handle_event in Ha, Hb. rewrite Htype, Hcode in Hb.
  destruct (ev_type e1 =? ecodes.EV_ABS).
  - bind_inv Ha. bind_inv Hb.
    apply (update_jog_outputs_same_jog a0 a1); try assumption.
    + exact (handle_abs_keeps _ _ _ _ Ha0 Hoka).
    + exact (handle_abs_keeps _ _ _ _ Ha1 Hokb).
    + rewrite <- (update_jog_outputs_core _ _ Ha).
      rewrite <- (update_jog_outputs_core _ _ Hb). exact Hcore.
  - destruct (ev_type e1 =? ecodes.EV_KEY);
      [|injection Ha as <-; injection Hb as <-; exact Hj].
    destruct (BUTTON_MAP !! ev_code e1) as [pin|] eqn:Hpin;
      [|injection Ha as <-; injection Hb as <-; exact Hj].
    pose proof (button_not_jog _ _ Hpin) as Hnin.
    eapply same_jog_pins_trans;
      [exact (set_pin_same_jog _ _ _ _ Ha Hnin)|].
    eapply same_jog_pins_trans; [exact Hj|].
    apply same_jog_pins_sym. exact (set_pin_same_jog _ _ _ _ Hb Hnin).
Qed.

Lemma handle_events_same_jog events1 events2 :
  Forall2 event_variant events1 events2 ->
  forall a b a' b',
    pins_ok (h a) -> pins_ok (h b) -> core a = core b ->
    same_jog_pins (h a) (h b) ->
    handle_events a events1 = Ok a' -> handle_events b events2 = Ok b' ->
    same_jog_pins (h a') (h b').
Proof.
  induction 1 as [|e1 e2 rest1 rest2 He _ IH];
    intros a b a' b' Hoka Hokb Hc Hj Ha Hb.
  - injection Ha as <-. injection Hb as <-. exact Hj.
  - cbn [handle_events] in Ha, Hb. bind_inv Ha. bind_inv Hb.
    destruct (handle_event_same_jog _ _ _ _ _ _ Hoka Hokb Hc Hj He Ha0 Ha1)
      as [Hc1 Hj1].
    apply (IH a0 a1); try assumption.
    + exact (handle_event_keeps _ _ _ Ha0 Hoka).
    + exact (handle_event_keeps _ _ _ Ha1 Hokb).
Qed.

Lemma step_same_jog s1 s2 i1 i2 s1' s2' :
  session_inv s1 -> session_inv s2 -> same_core s1 s2 ->
  same_jog_pins (h (shim s1)) (h (shim s2)) -> input_variant i1 i2 ->
  step s1 i1 = Ok s1' -> step s2 i2 = Ok s2' ->
  same_jog_pins (h (shim s1')) (h (shim s2')).
Proof.
  intros Hinv1 Hinv2 Hsc Hj Hv H1 H2.
  pose proof (step_core _ _ _ _ _ _ Hsc (input_variant_purge _ _ Hv) H1 H2)
    as [Hd' _].
  pose proof (step_inv _ _ _ Hinv1 H1) as [_ Hrest1].
  pose proof (step_inv _ _ _ Hinv2 H2) as [_ Hrest2].
  destruct (dev s1') as [d'|] eqn:Hdev1.
  2:{ destruct (Hrest1 eq_refl) as [-> _].
      destruct (Hrest2 (eq_sym Hd')) as [-> _]. now intros name _. }
  clear Hrest1 Hrest2.
  destruct Hinv1 as [Hok1 _], Hinv2 as [Hok2 _].
  destruct Hsc as [Hd Hc].
  pose proof (purge_param_write _ _ (input_variant_purge _ _ Hv)) as Hw.
  destruct (is_param_write i1) eqn:Ew.
  - destruct i1; try discriminate Ew;
      destruct i2; cbn [input_variant] in Hv; try discriminate Hv;
      cbn [step] in H1, H2; injection H1 as <-; injection H2 as <-;
      exact Hj.
  - symmetry in Hw. destruct (dev s1) as [d|] eqn:Hdev.
    + rewrite (step_connected _ d _ Hdev Ew) in H1.
      rewrite (step_connected _ d _ (eq_sym Hd) Hw) in H2.
      destruct (connected_body (shim s1) i1) as [a'|[| |]] eqn:E1;
        try discriminate H1;
        [|bind_inv H1; injection H1 as <-; discriminate Hdev1].
      destruct (connected_body (shim s2) i2) as [b'|[| |]] eqn:E2;
        try discriminate H2;
        [|bind_inv H2; injection H2 as <-; discriminate Hd'].
      injection H1 as <-. injection H2 as <-. cbn [shim].
      destruct i1; try discriminate Ew;
        destruct i2; cbn [input_variant] in Hv; try discriminate Hv;
        cbn [connected_body] in E1, E2;
        try (injection E1 as <-; injection E2 as <-; exact Hj);
        try discriminate E1.
      * exact (update_jog_outputs_same_jog _ _ _ _ Hok1 Hok2 Hc E1 E2).
      * exact (handle_events_same_jog _ _ Hv _ _ _ _ Hok1 Hok2 Hc Hj E1 E2).
    + destruct i1; try discriminate Ew;
        destruct i2; cbn [input_variant] in Hv; try discriminate Hv;
        cbn [step] in H1, H2; rewrite Hdev in H1; rewrite <- Hd in H2;
        try (injection H1 as <-; injection H2 as <-; exact Hj).
      injection Hv as <-.
      destruct (_find_device (shim s1) devices) as [[d1|] a1] eqn:F1;
        unfold _find_device in F1;
        pose proof (find_device_from_frame _ _ _ _ _ _ F1) as Hf1;
        bind_inv H1; injection H1 as <-; [|discriminate Hdev1].
      destruct (_find_device (shim s2) devices) as [[d2|] b1] eqn:F2;
        unfold _find_device in F2;
        pose proof (find_device_from_frame _ _ _ _ _ _ F2) as Hf2;
        bind_inv H2; injection H2 as <-; [|discriminate Hd'].
      cbn [shim].
      assert (Hnin : "connected" ∉ jog_names)
        by (unfold jog_names; not_in_names).
      eapply same_jog_pins_trans;
        [exact (set_pin_same_jog _ _ _ _ Ha Hnin)|].
      eapply same_jog_pins_trans;
        [|apply same_jog_pins_sym; exact (set_pin_same_jog _ _ _ _ Ha0 Hnin)].
      rewrite Hf1, Hf2. destruct (shim s1), (shim s2). exact Hj.
Qed.

Lemma run_same_jog inputs1 inputs2 :
  Forall2 input_variant inputs1 inputs2 ->
  forall s1 s2 s1' s2',
    session_inv s1 -> session_inv s2 -> same_core s1 s2 ->
    same_jog_pins (h (shim s1)) (h (shim s2)) ->
    run s1 inputs1 = Ok s1' -> run s2 inputs2 = Ok s2' ->
    same_jog_pins (h (shim s1')) (h (shim s2')).
Proof.
  induction 1 as [|i1 i2 rest1 rest2 Hi _ IH];
    intros s1 s2 s1' s2' Hinv1 Hinv2 Hsc Hj H1 H2.
  - injection H1 as <-. injection H2 as <-. exact Hj.
  - cbn [run] in H1, H2. bind_inv H1. bind_inv H2.
    rename a into t1, a0 into t2.
    apply (IH t1 t2); try assumption.
    + exact (step_inv _ _ _ Hinv1 Ha).
    + exact (step_inv _ _ _ Hinv2 Ha0).
    + exact (step_core _ _ _ _ _ _ Hsc (input_variant_purge _ _ Hi) Ha Ha0).
    + exact (step_same_jog _ _ _ _ _ _ Hinv1 Hinv2 Hsc Hj Hi Ha Ha0).
Qed.

Lemma pin_is_zero_spec (h0 : gmap string hal_value) name :
  pin_is_zero h0 name = true ->
  exists q, float_pin h0 name = Some q /\ (q == 0)%Q.
Proof.
  unfold pin_is_zero. destruct (float_pin h0 name) as [q|]; [|discriminate].
  intros H. exists q. split; [reflexivity|]. now apply Qeq_bool_iff.
Qed.

Lemma pin_is_nonzero_spec (h0 : gmap string hal_value) name :
  pin_is_nonzero h0 name = true ->
  exists q, float_pin h0 name = Some q /\ ~ (q == 0)%Q.
Proof.
  unfold pin_is_nonzero. destruct (float_pin h0 name) as [q|]; [|discriminate].
  intros H. exists q. split; [reflexivity|].
  apply negb_true_iff in H. intros E. apply Qeq_bool_iff in E. congruence.
Qed.

(** C10 as stated fails after a write to the deadzone: the two runs
    agree once the right-stick X event is removed, yet they end with
    different values of jog-x.  The event refreshes the jog outputs with
    the deadzone written just before it, which is above the stick reading,
    so jog-x drops to 0; in the run without the event jog-x keeps the
    value computed with the earlier deadzone. *)
Lemma C10_rx_event_applies_deadzone_write :
  exists s1 s2 x1 x2,
    List.map purge deadzone_then_button = List.map purge deadzone_then_rx /\
    main deadzone_then_button = Ok s1 /\
    main deadzone_then_rx = Ok s2 /\
    float_pin (h (shim s1)) "jog-x" = Some x1 /\
    float_pin (h (shim s2)) "jog-x" = Some x2 /\
    ~ (x1 == x2)%Q.
Proof.
  destruct (returns_with_spec
              (fun s => pin_is_nonzero (h (shim s)) "jog-x")
              (main deadzone_then_button)) as (s1 & H1 & P1);
    [vm_compute; reflexivity|].
  destruct (returns_with_spec
              (fun s => pin_is_zero (h (shim s)) "jog-x")
              (main deadzone_then_rx)) as (s2 & H2 & P2);
    [vm_compute; reflexivity|].
  destruct (pin_is_nonzero_spec _ _ P1) as (x1 & Hx1 & N1).
  destruct (pin_is_zero_spec _ _ P2) as (x2 & Hx2 & Z2).
  exists s1, s2, x1, x2.
  split; [reflexivity|]. split; [exact H1|]. split; [exact H2|].
  split; [exact Hx1|]. split; [exact Hx2|].
  intros E. apply N1. now rewrite E.
Qed.

(** C10 (amended): an event of the right-stick X axis (of the left
    trigger) leaves the cached readings and the parameters as they are,
    writes the rx (lt) pin, and rewrites the jog outputs with the shaped
    cached readings times the cached right trigger, values in which the
    event does not occur; every other pin is untouched and jog outputs
    that were up to date with the deadzone keep their values.  Two runs
    whose inputs agree once the events of these two axes are removed show
    the same jog outputs: at every point when the deadzone is written
    only before the run, and after the next idle tick in general; two
    runs that differ only in the values these events carry show the same
    jog outputs at every point. *)
Theorem C10_jog_independent_of_rx_lt :
  (forall self v sx sy sz,
      pins_ok (h self) ->
      _apply_deadzone self (_lx self) = Ok sx ->
      _apply_deadzone self (_ly self) = Ok sy ->
      _apply_deadzone self (_ry self) = Ok sz ->
      exists val self',
        _scale_axis self ecodes.ABS_RX v = Ok val /\
        handle_event self (abs_event ecodes.ABS_RX v) = Ok self' /\
        writes_own_pin_only "rx" val sx sy sz self self') /\
  (forall self v sx sy sz,
      pins_ok (h self) ->
      _apply_deadzone self (_lx self) = Ok sx ->
      _apply_deadzone self (_ly self) = Ok sy ->
      _apply_deadzone self (_ry self) = Ok sz ->
      exists val self',
        _scale_trigger self ecodes.ABS_Z v = Ok val /\
        handle_event self (abs_event ecodes.ABS_Z v) = Ok self' /\
        writes_own_pin_only "lt" val sx sy sz self self') /\
  (forall d inputs1 inputs2 s1 s2,
      forallb (fun i => negb (is_deadzone_write i)) inputs1 = true ->
      forallb (fun i => negb (is_deadzone_write i)) inputs2 = true ->
      List.map purge inputs1 = List.map purge inputs2 ->
      main (SetDeadzone d :: inputs1) = Ok s1 ->
      main (SetDeadzone d :: inputs2) = Ok s2 ->
      jog_equiv (h (shim s1)) (h (shim s2))) /\
  (forall inputs1 inputs2 s1 s2,
      List.map purge inputs1 = List.map purge inputs2 ->
      main (inputs1 ++ [SelectTimeout]) = Ok s1 ->
      main (inputs2 ++ [SelectTimeout]) = Ok s2 ->
      forall name, name ∈ jog_names ->
                   float_pin (h (shim s1)) name = float_pin (h (shim s2)) name) /\
  (forall inputs1 inputs2 s1 s2,
      Forall2 input_variant inputs1 inputs2 ->
      main inputs1 = Ok s1 -> main inputs2 = Ok s2 ->
      forall name, name ∈ jog_names ->
                   float_pin (h (shim s1)) name = float_pin (h (shim s2)) name).
Proof.
  split; [|split; [|split; [|split]]].
  - intros self v sx sy sz Hok Sx Sy Sz.
    destruct (handle_event_rx self v sx sy sz Hok Sx Sy Sz) as (val & Hval & Hev).
    exists val. eexists. split; [exact Hval|]. split; [exact Hev|].
    apply writes_own_pin_only_intro; try assumption.
    unfold jog_names. not_in_names.
  - intros self v sx sy sz Hok Sx Sy Sz.
    destruct (handle_event_lt self v sx sy sz Hok Sx Sy Sz) as (val & Hval & Hev).
    exists val. eexists. split; [exact Hval|]. split; [exact Hev|].
    apply writes_own_pin_only_intro; try assumption.
    unfold jog_names. not_in_names.
  - intros d inputs1 inputs2 s1 s2 Hw1 Hw2 Hp H1 H2.
    rewrite main_run in H1, H2. cbn [run step] in H1, H2.
    cbn [mbind result_bind] in H1, H2.
    set (s0 := mkSession (with_deadzone (shim initial) d) (dev initial)) in *.
    assert (Hinv : session_inv s0).
    { split; cbn; [exact pins_ok_new_pins|].
      intros _. unfold at_rest. cbn. now repeat split. }
    assert (Hf : jog_fresh (shim s0)).
    { apply fresh_at_rest. unfold at_rest. cbn. now repeat split. }
    apply fresh_same_core_equiv.
    + eapply (run_core inputs1 inputs2 s0 s0); try eassumption. now split.
    + eapply run_fresh; [exact Hinv|exact Hf|exact Hw1|exact H1].
    + eapply run_fresh; [exact Hinv|exact Hf|exact Hw2|exact H2].
  - intros inputs1 inputs2 s1 s2 Hp H1 H2.
    rewrite main_run, run_app in H1. rewrite main_run, run_app in H2.
    bind_inv H1. bind_inv H2. rename a into t1, a0 into t2.
    cbn [run] in H1, H2. bind_inv H1. bind_inv H2.
    injection H1 as <-. injection H2 as <-.
    eapply (tick_same_jog t1 t2); try eassumption.
    + eapply run_inv; [exact initial_inv|exact Ha].
    + eapply run_inv; [exact initial_inv|exact Ha0].
    + eapply (run_core inputs1 inputs2 initial initial); try eassumption.
      now split.
  - intros inputs1 inputs2 s1 s2 Hv H1 H2.
    rewrite main_run in H1, H2. apply same_jog_pins_float.
    apply (run_same_jog _ _ Hv initial initial); try assumption;
      try exact initial_inv; [now split|now intros name _].
Qed.

(** A right-stick X event leaves jog-x at shaped stick times trigger,
    and the two sample runs end with the same jog outputs. *)
Lemma C10_jog_independent_of_rx_lt_witness :
  (exists val self',
     _scale_axis (shim_with_sticks (1 # 5) (1 # 2) 0 0 (1 # 2))
                 ecodes.ABS_RX 9 = Ok val /\
     handle_event (shim_with_sticks (1 # 5) (1 # 2) 0 0 (1 # 2))
                  (abs_event ecodes.ABS_RX 9) = Ok self' /\
     float_pin (h self') "jog-x"
     = Some (((1 * ((1 # 2) - (1 # 5))) / (1 - (1 # 5))) * (1 # 2))%Q) /\
  (exists s1 s2,
     main (SetDeadzone (1 # 5) :: jog_run_with_rx_lt) = Ok s1 /\
     main (SetDeadzone (1 # 5) :: jog_run) = Ok s2 /\
     jog_equiv (h (shim s1)) (h (shim s2))).
Proof.
  destruct C10_jog_independent_of_rx_lt as (Hrx & _ & Hruns & _ & _).
  split.
  - destruct (Hrx (shim_with_sticks (1 # 5) (1 # 2) 0 0 (1 # 2)) 9
                  ((1 * ((1 # 2) - (1 # 5))) / (1 - (1 # 5)))%Q 0%Q 0%Q)
      as (val & self' & Hval & Hev & _ & _ & Hjx & _); try reflexivity.
    exists val, self'. split; [exact Hval|]. split; [exact Hev|exact Hjx].
  - destruct (returns_with_spec (fun _ => true)
                (main (SetDeadzone (1 # 5) :: jog_run_with_rx_lt)))
      as (s1 & H1 & _); [vm_compute; reflexivity|].
    destruct (returns_with_spec (fun _ => true)
                (main (SetDeadzone (1 # 5) :: jog_run)))
      as (s2 & H2 & _); [vm_compute; reflexivity|].
    exists s1, s2. split; [exact H1|]. split; [exact H2|].
    apply (Hruns (1 # 5) jog_run_with_rx_lt jog_run s1 s2);
      try reflexivity; assumption.
Defined.

(** * Further properties *)

(** ** What the handlers do when they return *)

Lemma button_pin_bit code pin :
  BUTTON_MAP !! code = Some pin -> pin_table !! pin = Some HAL_BIT.
Proof.
  unfold BUTTON_MAP. intros H.
  apply elem_of_list_to_map_2 in H.
  repeat (apply elem_of_cons in H as [Heq|H];
          [injection Heq as _ ->; reflexivity|]).
  now apply elem_of_nil in H.
Qed.

(** The [EV_ABS] branch returns on every component that has its pins. *)
Lemma handle_abs_effect self code value :
  pins_ok (h self) ->
  exists a, handle_abs self code value = Ok a /\ abs_effect self code value a.
Proof.
  intros Hok. unfold handle_abs.
  destruct (Z.eqb_spec code ecodes.ABS_X) as [Ex|Nx].
  { destruct (scale_axis_total self code value) as [val Hval].
    rewrite Hval. cbn [mbind result_bind].
    rewrite (set_pin_ok _ "lx" _ HAL_FLOAT); [|cbn; exact Hok|reflexivity].
    eexists. split; [reflexivity|]. exact (abs_x _ _ _ val Ex Hval). }
  destruct (Z.eqb_spec code ecodes.ABS_Y) as [Ey|Ny].
  { destruct (scale_axis_total self code value) as [val Hval].
    rewrite Hval. cbn [mbind result_bind].
    rewrite (set_pin_ok _ "ly" _ HAL_FLOAT); [|cbn; exact Hok|reflexivity].
    eexists. split; [reflexivity|]. exact (abs_y _ _ _ val Ey Hval). }
  destruct (Z.eqb_spec code ecodes.ABS_RX) as [Erx|Nrx].
  { destruct (scale_axis_total self code value) as [val Hval].
    rewrite Hval. cbn [mbind result_bind].
    rewrite (set_pin_ok _ "rx" _ HAL_FLOAT); [|cbn; exact Hok|reflexivity].
    eexists. split; [reflexivity|]. exact (abs_rx _ _ _ val Erx Hval). }
  destruct (Z.eqb_spec code ecodes.ABS_RY) as [Ery|Nry].
  { destruct (scale_axis_total self code value) as [val Hval].
    rewrite Hval. cbn [mbind result_bind].
    rewrite (set_pin_ok _ "ry" _ HAL_FLOAT); [|cbn; exact Hok|reflexivity].
    eexists. split; [reflexivity|]. exact (abs_ry _ _ _ val Ery Hval). }
  destruct (Z.eqb_spec code ecodes.ABS_Z) as [Ez|Nz].
  { destruct (scale_trigger_total self code value) as [val Hval].
    rewrite Hval. cbn [mbind result_bind].
    rewrite (set_pin_ok _ "lt" _ HAL_FLOAT); [|cbn; exact Hok|reflexivity].
    eexists. split; [reflexivity|]. exact (abs_z _ _ _ val Ez Hval). }
  destruct (Z.eqb_spec code ecodes.ABS_RZ) as [Erz|Nrz].
  { destruct (scale_trigger_total self code value) as [val Hval].
    rewrite Hval. cbn [mbind result_bind].
    rewrite (set_pin_ok _ "rt" _ HAL_FLOAT); [|cbn; exact Hok|reflexivity].
    eexists. split; [reflexivity|]. exact (abs_rz _ _ _ val Erz Hval). }
  destruct (Z.eqb_spec code ecodes.ABS_HAT0X) as [Ehx|Nhx].
  { cbn [orb]. subst code. rewrite (dpad_loop_hat0x _ _ Hok).
    eexists. split; [reflexivity|]. now apply abs_hat0x. }
  destruct (Z.eqb_spec code ecodes.ABS_HAT0Y) as [Ehy|Nhy].
  { cbn [orb]. subst code. rewrite (dpad_loop_hat0y _ _ Hok).
    eexists. split; [reflexivity|]. now apply abs_hat0y. }
  cbn [orb]. exists self. split; [reflexivity|]. apply abs_other.
  intros Hin.
  repeat (apply elem_of_cons in Hin as [Hin|Hin]; [contradiction|]).
  now apply elem_of_nil in Hin.
Qed.

Lemma abs_effect_pins_ok self code value a :
  pins_ok (h self) -> abs_effect self code value a -> pins_ok (h a).
Proof.
  intros Hok He.
  destruct He; cbn [with_h h]; try exact Hok;
    try (apply pins_ok_insert; [now destruct self|reflexivity]);
    unfold hat0x_pins, hat0y_pins;
    (apply pins_ok_insert; [apply pins_ok_insert|]; [exact Hok|reflexivity..]).
Qed.

Lemma abs_effect_deadzone self code value a :
  abs_effect self code value a ->
  deadzone a = deadzone self /\ vendor a = vendor self /\
  product a = product self /\ _axis_info a = _axis_info self.
Proof. intros He. destruct He; now destruct self. Qed.

(** What [handle_event] did when it returned. *)
Lemma handle_event_effect self event self' :
  pins_ok (h self) -> handle_event self event = Ok self' ->
  event_effect self event self'.
Proof.
  intros Hok H. unfold handle_event in H.
  destruct (Z.eqb_spec (ev_type event) ecodes.EV_ABS) as [Et|Nt].
  - destruct (handle_abs_effect self (ev_code event) (ev_value event) Hok)
      as (a & Ha & He).
    rewrite Ha in H. cbn [mbind result_bind] in H.
    pose proof (abs_effect_pins_ok _ _ _ _ Hok He) as Hoka.
    destruct (update_jog_outputs_inv _ _ Hoka H)
      as (sx & sy & sz & Sx & Sy & Sz & ->).
    now apply (event_abs self event a sx sy sz).
  - destruct (Z.eqb_spec (ev_type event) ecodes.EV_KEY) as [Ek|Nk].
    + destruct (BUTTON_MAP !! ev_code event) as [pin|] eqn:Hpin.
      * rewrite (set_pin_ok _ pin _ HAL_BIT) in H;
          [|exact Hok|exact (button_pin_bit _ _ Hpin)].
        injection H as <-. now apply event_key.
      * injection H as <-. now apply event_ignored.
    + injection H as <-. apply event_ignored; [exact Nt|]. now intros.
Qed.

(** [handle_event] returns whenever the deadzone is not exactly 1. *)
Lemma handle_event_returns self event :
  pins_ok (h self) -> ~ (deadzone self == 1)%Q ->
  exists self', handle_event self event = Ok self'.
Proof.
  intros Hok Hd. unfold handle_event.
  destruct (ev_type event =? ecodes.EV_ABS).
  - destruct (handle_abs_effect self (ev_code event) (ev_value event) Hok)
      as (a & Ha & He).
    rewrite Ha. cbn [mbind result_bind].
    pose proof (abs_effect_pins_ok _ _ _ _ Hok He) as Hoka.
    destruct (abs_effect_deadzone _ _ _ _ He) as (Hda & _).
    assert (Hd' : ~ (deadzone a == 1)%Q) by now rewrite Hda.
    destruct (apply_deadzone_total a (_lx a) Hd') as [sx Sx].
    destruct (apply_deadzone_total a (_ly a) Hd') as [sy Sy].
    destruct (apply_deadzone_total a (_ry a) Hd') as [sz Sz].
    rewrite (update_jog_outputs_ok a sx sy sz Hoka Sx Sy Sz). eauto.
  - destruct (ev_type event =? ecodes.EV_KEY); [|eauto].
    destruct (BUTTON_MAP !! ev_code event) as [pin|] eqn:Hpin; [|eauto].
    rewrite (set_pin_ok _ pin _ HAL_BIT);
      [eauto|exact Hok|exact (button_pin_bit _ _ Hpin)].
Qed.

Lemma event_effect_pins_ok self event self' :
  pins_ok (h self) -> event_effect self event self' -> pins_ok (h self').
Proof.
  intros Hok He. destruct He as [a sx sy sz _ Ha _ _ _|pin _ Hpin|]; cbn [with_h h].
  - pose proof (abs_effect_pins_ok _ _ _ _ Hok Ha) as Hoka.
    unfold jog_pins.
    repeat (apply pins_ok_insert; [|reflexivity]). exact Hoka.
  - apply pins_ok_insert; [exact Hok|]. exact (button_pin_bit _ _ Hpin).
  - exact Hok.
Qed.

Lemma event_effect_params self event self' :
  event_effect self event self' ->
  deadzone self' = deadzone self /\ vendor self' = vendor self /\
  product self' = product self /\ _axis_info self' = _axis_info self.
Proof.
  intros He. destruct He as [a sx sy sz _ Ha _ _ _|pin _ Hpin|].
  - destruct (abs_effect_deadzone _ _ _ _ Ha) as (? & ? & ? & ?).
    now destruct a.
  - now destruct self.
  - now repeat split.
Qed.

Lemma session_eta s : mkSession (shim s) (dev s) = s.
Proof. now destruct s. Qed.

(** What one turn of [run] did when it returned. *)
Lemma step_effect_of s i s' :
  pins_ok (h (shim s)) -> step s i = Ok s' -> step_effect s i s'.
Proof.
  intros Hok H.
  destruct (is_param_write i) eqn:Ew.
  { destruct i; try discriminate Ew; cbn [step] in H; injection H as <-.
    - apply step_set_deadzone.
    - apply step_set_vendor.
    - apply step_set_product. }
  destruct (dev s) as [d|] eqn:Hdev.
  - rewrite (step_connected _ d _ Hdev Ew) in H.
    destruct (connected_body (shim s) i) as [a|[| |]] eqn:E;
      try discriminate H.
    + injection H as <-.
      destruct i; try discriminate Ew; cbn [connected_body] in E.
      * injection E as <-. rewrite <- Hdev, session_eta.
        now apply step_idle.
      * destruct (update_jog_outputs_inv _ _ Hok E)
          as (sx & sy & sz & Sx & Sy & Sz & ->).
        now apply step_tick.
      * now apply step_read.
      * discriminate E.
    + rewrite (reset_ok _ Hok) in H. cbn [mbind result_bind] in H.
      injection H as <-. now apply step_reset.
  - destruct i; try discriminate Ew; cbn [step] in H; rewrite Hdev in H;
      try (injection H as <-; now apply step_idle).
    destruct (_find_device (shim s) devices) as [[d|] self] eqn:Hfind.
    + pose proof Hfind as Hfind'. unfold _find_device in Hfind'.
      pose proof (find_device_from_frame _ _ _ _ _ _ Hfind') as Hframe.
      destruct (find_device_from_found _ _ _ _ _ _ Hfind') as (abs & Hcaps & Htab).
      rewrite Htab in Hframe. subst self.
      rewrite (set_pin_ok _ "connected" _ HAL_BIT) in H;
        [|exact Hok|reflexivity].
      cbn [mbind result_bind] in H. injection H as <-.
      apply (step_connect s devices d abs); try assumption.
      now rewrite Hfind.
    + assert (Hself : _find_device (shim s) devices = (None, shim s)).
      { unfold _find_device in *. apply find_device_from_none.
        now rewrite Hfind. }
      rewrite Hself in Hfind. injection Hfind as <-.
      rewrite (reset_ok _ Hok) in H. cbn [mbind result_bind] in H.
      injection H as <-. now apply step_reset.
Qed.

(** ** Induction over the events of a batch and the turns of a run *)

Lemma handle_events_invariant (P : GamepadShim -> Prop) :
  (forall self event self',
      pins_ok (h self) -> P self -> event_effect self event self' -> P self') ->
  forall events self self',
    pins_ok (h self) -> P self -> handle_events self events = Ok self' ->
    P self'.
Proof.
  intros Hstep. induction events as [|e rest IH]; intros self self' Hok HP H.
  - now injection H as <-.
  - cbn [handle_events] in H. bind_inv H.
    pose proof (handle_event_effect _ _ _ Hok Ha) as He.
    apply (IH a); [|eapply Hstep; eassumption|exact H].
    exact (event_effect_pins_ok _ _ _ Hok He).
Qed.

Lemma run_invariant (I : session -> Prop) (allowed : input -> bool) :
  (forall s i s',
      session_inv s -> I s -> allowed i = true -> step_effect s i s' -> I s') ->
  forall inputs s s',
    session_inv s -> I s -> forallb allowed inputs = true ->
    run s inputs = Ok s' -> I s'.
Proof.
  intros Hstep. induction inputs as [|i rest IH]; intros s s' Hinv HI Hall H.
  - now injection H as <-.
  - cbn [forallb] in Hall. apply andb_prop in Hall as [Hi Hall].
    cbn [run] in H. bind_inv H.
    apply (IH a); [exact (step_inv _ _ _ Hinv Ha)| |exact Hall|exact H].
    apply (Hstep s i a Hinv HI Hi).
    apply step_effect_of; [apply Hinv|exact Ha].
Qed.

Lemma forallb_all {A : Type} (l : list A) : forallb (fun _ => true) l = true.
Proof. now induction l. Qed.

Lemma button_pin_mapped code pin :
  BUTTON_MAP !! code = Some pin -> pin ∈ mapped_buttons.
Proof.
  unfold BUTTON_MAP. intros H.
  apply elem_of_list_to_map_2 in H.
  repeat (apply elem_of_cons in H as [Heq|H];
          [injection Heq as _ ->; unfold mapped_buttons; in_names|]).
  now apply elem_of_nil in H.
Qed.

(** A case per mapped button. *)
Ltac each_button Hin :=
  unfold mapped_buttons in Hin;
  repeat (apply elem_of_cons in Hin as [->|Hin]; [|]);
  [..|now apply elem_of_nil in Hin].

(** ** The stick and trigger pins hold the cached readings *)

Lemma abs_effect_mirror self code value a :
  pins_mirror self -> abs_effect self code value a -> pins_mirror a.
Proof.
  intros (Hx & Hy & Hz & Ht) He.
  destruct He; destruct self; unfold pins_mirror, float_pin, hat0x_pins,
    hat0y_pins in *; cbn [with_h with_lx with_ly with_ry with_rt h _lx _ly
    _ry _rt] in *; simplify_map_eq; now repeat split.
Qed.

Lemma event_effect_mirror self event self' :
  pins_mirror self -> event_effect self event self' -> pins_mirror self'.
Proof.
  intros Hm He. destruct He as [a sx sy sz _ Ha _ _ _|pin _ Hpin|].
  - apply (abs_effect_mirror _ _ _ _ Hm) in Ha.
    destruct Ha as (Hx & Hy & Hz & Ht).
    destruct a; unfold pins_mirror, float_pin, jog_pins in *;
      cbn [with_h h _lx _ly _ry _rt] in *; simplify_map_eq; now repeat split.
  - apply button_pin_mapped in Hpin.
    destruct Hm as (Hx & Hy & Hz & Ht).
    each_button Hpin;
      destruct self; unfold pins_mirror, float_pin in *;
      cbn [with_h h _lx _ly _ry _rt] in *; simplify_map_eq; now repeat split.
  - exact Hm.
Qed.

Lemma step_effect_mirror s i s' :
  session_inv s -> pins_mirror (shim s) -> step_effect s i s' ->
  pins_mirror (shim s').
Proof.
  intros [Hok _] Hm He.
  destruct He as [d|v|p|i Hw|i Hw|devices d abs Hdev Hfind Hcaps
                 |d sx sy sz Hdev Sx Sy Sz|d events a Hdev Hev];
    cbn [shim]; try exact Hm;
    try (destruct Hm as (Hx & Hy & Hz & Ht); destruct (shim s);
         unfold pins_mirror, float_pin, jog_pins in *;
         cbn [with_h with_deadzone with_vendor with_product with_axis_info
              h _lx _ly _ry _rt] in *;
         simplify_map_eq; now repeat split).
  eapply (handle_events_invariant pins_mirror); try eassumption.
  intros self e self' _. apply event_effect_mirror.
Qed.

(** X1: in every state of every run, the pins lx, ly, ry and rt hold
    exactly the cached readings from which the jog outputs are
    computed. *)
Theorem X1_pins_hold_cached_readings (inputs : list input) (s : session) :
  main inputs = Ok s -> pins_mirror (shim s).
Proof.
  rewrite main_run.
  apply (run_invariant (fun s => pins_mirror (shim s)) (fun _ => true));
    try exact initial_inv; try apply forallb_all.
  - intros s0 i s' Hinv Hm _. now apply step_effect_mirror.
  - now repeat split.
Qed.

(** The pad is used: lx holds the cached left-stick reading. *)
Lemma X1_pins_hold_cached_readings_witness :
  exists s, main play = Ok s /\ pins_mirror (shim s).
Proof.
  destruct (returns_with_spec (fun _ => true) (main play))
    as (s & Hs & _); [vm_compute; reflexivity|].
  exists s. split; [exact Hs|].
  exact (X1_pins_hold_cached_readings play s Hs).
Defined.

(** ** The connection status *)

Lemma event_effect_connected self event self' :
  event_effect self event self' ->
  bit_pin (h self') "connected" = bit_pin (h self) "connected".
Proof.
  intros He. destruct He as [a sx sy sz _ Ha _ _ _|pin _ Hpin|].
  - destruct Ha; unfold bit_pin, jog_pins, hat0x_pins, hat0y_pins;
      cbn [with_h with_lx with_ly with_ry with_rt h]; now simplify_map_eq.
  - apply button_pin_mapped in Hpin.
    each_button Hpin; unfold bit_pin; cbn [with_h h]; now simplify_map_eq.
  - reflexivity.
Qed.

Lemma step_effect_connected s i s' :
  session_inv s -> connected_tracks_dev s -> step_effect s i s' ->
  connected_tracks_dev s'.
Proof.
  intros [Hok _] Hc He. unfold connected_tracks_dev, scanning in *.
  destruct He as [d|v|p|i Hw|i Hw|devices d abs Hdev Hfind Hcaps
                 |d sx sy sz Hdev Sx Sy Sz|d events a Hdev Hev];
    cbn [shim dev]; try exact Hc;
    try (destruct (shim s); exact Hc); try reflexivity.
  - unfold bit_pin. cbn [with_h h]. now simplify_map_eq.
  - rewrite Hdev in Hc. unfold bit_pin, jog_pins in *. cbn [with_h h].
    now simplify_map_eq.
  - rewrite Hdev in Hc. rewrite <- Hc.
    refine (handle_events_invariant
              (fun self => bit_pin (h self) "connected"
                           = bit_pin (h (shim s)) "connected")
              _ events (shim s) a Hok eq_refl Hev).
    intros self e self' _ Heq Hee.
    now rewrite (event_effect_connected _ _ _ Hee).
Qed.

(** X3: in every state of every run the connection status is true
    exactly while a device is open: no stick, button or d-pad event and
    no parameter write changes it. *)
Theorem X3_connected_iff_device_open (inputs : list input) (s : session) :
  main inputs = Ok s ->
  bit_pin (h (shim s)) "connected" = Some (negb (scanning s)).
Proof.
  rewrite main_run.
  apply (run_invariant connected_tracks_dev (fun _ => true));
    try exact initial_inv; try apply forallb_all; try reflexivity.
  intros s0 i s' Hinv Hc _. now apply step_effect_connected.
Qed.

(** The pad is in use, and then unplugged. *)
Lemma X3_connected_iff_device_open_witness :
  (exists s, main play = Ok s /\ bit_pin (h (shim s)) "connected" = Some true) /\
  (exists s, main play_then_unplug = Ok s
             /\ bit_pin (h (shim s)) "connected" = Some false).
Proof.
  split.
  - destruct (returns_with_spec (fun s => negb (scanning s)) (main play))
      as (s & Hs & Hd); [vm_compute; reflexivity|].
    exists s. split; [exact Hs|].
    rewrite (X3_connected_iff_device_open play s Hs). now rewrite Hd.
  - destruct (returns_with_spec scanning (main play_then_unplug))
      as (s & Hs & Hd); [vm_compute; reflexivity|].
    exists s. split; [exact Hs|].
    rewrite (X3_connected_iff_device_open play_then_unplug s Hs).
    now rewrite Hd.
Defined.

(** ** The parameters and the range table *)

Lemma step_effect_params s i s' :
  session_inv s -> is_param_write i = false -> step_effect s i s' ->
  deadzone (shim s') = deadzone (shim s) /\
  vendor (shim s') = vendor (shim s) /\
  product (shim s') = product (shim s).
Proof.
  intros [Hok _] Hw He.
  destruct He as [d|v|p|i Hw'|i Hw'|devices d abs Hdev Hfind Hcaps
                 |d sx sy sz Hdev Sx Sy Sz|d events a Hdev Hev];
    try discriminate Hw; cbn [shim]; try (now destruct (shim s)).
  refine (handle_events_invariant
            (fun self => deadzone self = deadzone (shim s) /\
                         vendor self = vendor (shim s) /\
                         product self = product (shim s))
            _ events (shim s) a Hok _ Hev); [|now repeat split].
  intros self e self' _ (Hd & Hv & Hp) Hee.
  destruct (event_effect_params _ _ _ Hee) as (-> & -> & -> & _).
  now repeat split.
Qed.

(** X4: events, idle ticks, resets, discovery passes and reconnections
    never change the deadzone or the vendor and product filters: over
    any stretch of a run without a parameter write they are unchanged. *)
Theorem X4_parameters_untouched (inputs1 inputs2 : list input)
    (s1 s2 : session) :
  main inputs1 = Ok s1 ->
  forallb (fun i => negb (is_param_write i)) inputs2 = true ->
  run s1 inputs2 = Ok s2 ->
  deadzone (shim s2) = deadzone (shim s1) /\
  vendor (shim s2) = vendor (shim s1) /\
  product (shim s2) = product (shim s1).
Proof.
  intros Hmain Hall Hrun.
  refine (run_invariant
            (fun s => deadzone (shim s) = deadzone (shim s1) /\
                      vendor (shim s) = vendor (shim s1) /\
                      product (shim s) = product (shim s1))
            (fun i => negb (is_param_write i))
            _ inputs2 s1 s2 (main_inv _ _ Hmain) _ Hall Hrun);
    [|now repeat split].
  intros s i s' Hinv (Hd & Hv & Hp) Hi He.
  apply negb_true_iff in Hi.
  destruct (step_effect_params _ _ _ Hinv Hi He) as (-> & -> & ->).
  now repeat split.
Qed.

(** A deadzone of 0.3 survives use and unplugging of the pad. *)
Lemma X4_parameters_untouched_witness :
  exists s1 s2,
    main [SetDeadzone (3 # 10)] = Ok s1 /\
    run s1 play_then_unplug = Ok s2 /\
    (deadzone (shim s2) == 3 # 10)%Q.
Proof.
  destruct (returns_with_spec
              (fun s => Qeq_bool (deadzone (shim s)) (3 # 10)
                        && returns_with (fun _ => true)
                                        (run s play_then_unplug))
              (main [SetDeadzone (3 # 10)]))
    as (s1 & H1 & Hp); [vm_compute; reflexivity|].
  apply andb_prop in Hp as [Hd Hr]. apply Qeq_bool_iff in Hd.
  destruct (returns_with_spec _ _ Hr) as (s2 & H2 & _).
  exists s1, s2. split; [exact H1|]. split; [exact H2|].
  destruct (X4_parameters_untouched [SetDeadzone (3 # 10)] play_then_unplug
              s1 s2 H1 eq_refl H2) as (-> & _).
  exact Hd.
Defined.

Lemma step_effect_table s i s' :
  session_inv s -> table_of_open_device s -> step_effect s i s' ->
  table_of_open_device s'.
Proof.
  intros [Hok _] Ht He. unfold table_of_open_device in *.
  destruct He as [d|v|p|i Hw'|i Hw'|devices d abs Hdev Hfind Hcaps
                 |d sx sy sz Hdev Sx Sy Sz|d events a Hdev Hev];
    cbn [shim dev]; try exact Ht;
    try (destruct (shim s); exact Ht); try discriminate.
  - intros d0 [= <-]. exists abs. split; [exact Hcaps|].
    now destruct (shim s).
  - intros d0 [= <-]. destruct (Ht d Hdev) as (abs & Hcaps & Htab).
    exists abs. split; [exact Hcaps|]. now destruct (shim s).
  - intros d0 [= <-]. destruct (Ht d Hdev) as (abs & Hcaps & Htab).
    exists abs. split; [exact Hcaps|]. rewrite <- Htab.
    refine (handle_events_invariant
              (fun self => _axis_info self = _axis_info (shim s))
              _ events (shim s) a Hok eq_refl Hev).
    intros self e self' _ Heq Hee.
    destruct (event_effect_params _ _ _ Hee) as (_ & _ & _ & ->).
    exact Heq.
Qed.

(** X5: in every state of every run in which a device is open, the
    range table is exactly the one built from the capabilities of that
    device: no entry of an earlier device is ever used for a later one. *)
Theorem X5_table_of_open_device (inputs : list input) (s : session)
    (d : InputDevice) :
  main inputs = Ok s -> dev s = Some d ->
  exists abs, capabilities d = Ok (Some abs)
              /\ _axis_info (shim s) = cache_axis_info abs.
Proof.
  rewrite main_run. intros Hrun.
  revert d.
  refine (run_invariant table_of_open_device (fun _ => true)
            _ inputs initial s initial_inv _ (forallb_all _) Hrun).
  - intros s0 i s' Hinv Ht _. now apply step_effect_table.
  - intros d0 Hd. discriminate Hd.
Qed.

(** The pad is open: the table maps ABS_X to its reported range. *)
Lemma X5_table_of_open_device_witness :
  exists s d abs,
    main play = Ok s /\ dev s = Some d /\
    capabilities d = Ok (Some abs) /\
    _axis_info (shim s) = cache_axis_info abs.
Proof.
  destruct (returns_with_spec (fun s => negb (scanning s)) (main play))
    as (s & Hs & Hd); [vm_compute; reflexivity|].
  apply negb_true_iff, scanning_false in Hd as [d Hd].
  destruct (X5_table_of_open_device play s d Hs Hd) as (abs & Hcaps & Htab).
  exists s, d, abs. split; [exact Hs|]. split; [exact Hd|].
  split; [exact Hcaps|exact Htab].
Defined.

(** ** The loop keeps running *)

Lemma update_jog_outputs_returns self :
  pins_ok (h self) -> ~ (deadzone self == 1)%Q ->
  exists self', _update_jog_outputs self = Ok self'.
Proof.
  intros Hok Hd.
  destruct (apply_deadzone_total self (_lx self) Hd) as [sx Sx].
  destruct (apply_deadzone_total self (_ly self) Hd) as [sy Sy].
  destruct (apply_deadzone_total self (_ry self) Hd) as [sz Sz].
  rewrite (update_jog_outputs_ok self sx sy sz Hok Sx Sy Sz). eauto.
Qed.

Lemma handle_events_returns events :
  forall self,
    pins_ok (h self) -> ~ (deadzone self == 1)%Q ->
    exists self', handle_events self events = Ok self'.
Proof.
  induction events as [|e rest IH]; intros self Hok Hd; [cbn; eauto|].
  cbn [handle_events].
  destruct (handle_event_returns self e Hok Hd) as [a Ha].
  rewrite Ha. cbn [mbind result_bind].
  pose proof (handle_event_effect _ _ _ Hok Ha) as He.
  apply IH; [exact (event_effect_pins_ok _ _ _ Hok He)|].
  destruct (event_effect_params _ _ _ He) as (-> & _). exact Hd.
Qed.

(** One turn of [run] returns whenever the deadzone is not exactly 1. *)
Lemma step_returns s i :
  session_inv s -> ~ (deadzone (shim s) == 1)%Q -> exists s', step s i = Ok s'.
Proof.
  intros [Hok _] Hd.
  destruct (is_param_write i) eqn:Ew.
  { destruct i; try discriminate Ew; cbn [step]; eauto. }
  destruct (dev s) as [d|] eqn:Hdev.
  - rewrite (step_connected _ d _ Hdev Ew).
    destruct i; try discriminate Ew; cbn [connected_body]; eauto.
    + destruct (update_jog_outputs_returns _ Hok Hd) as [a ->]. eauto.
    + destruct (handle_events_returns events _ Hok Hd) as [a ->]. eauto.
    + rewrite (reset_ok _ Hok). cbn. eauto.
  - destruct i; try discriminate Ew; cbn [step]; rewrite Hdev; eauto.
    destruct (_find_device (shim s) devices) as [[d|] self] eqn:Hfind;
      unfold _find_device in Hfind;
      pose proof (find_device_from_frame _ _ _ _ _ _ Hfind) as Hframe.
    + rewrite (set_pin_ok _ "connected" _ HAL_BIT);
        [cbn; eauto|rewrite Hframe; exact Hok|reflexivity].
    + rewrite reset_ok by (rewrite Hframe; exact Hok). cbn. eauto.
Qed.

Lemma step_effect_deadzone_not_one s i s' :
  session_inv s -> ~ (deadzone (shim s) == 1)%Q ->
  sets_deadzone_to_one i = false -> step_effect s i s' ->
  ~ (deadzone (shim s') == 1)%Q.
Proof.
  intros Hinv Hd Hi He.
  destruct (is_param_write i) eqn:Ew.
  - destruct He as [d|v|p|i Hw'|i Hw'|devices d abs Hdev Hfind Hcaps
                   |d sx sy sz Hdev Sx Sy Sz|d events a Hdev Hev];
      try discriminate Ew; try congruence; cbn [shim];
      try (now destruct (shim s)).
    cbn [sets_deadzone_to_one] in Hi. destruct (shim s). cbn.
    intros E. apply Qeq_bool_iff in E. congruence.
  - destruct (step_effect_params _ _ _ Hinv Ew He) as (-> & _). exact Hd.
Qed.

Lemma run_returns inputs :
  forall s,
    session_inv s -> ~ (deadzone (shim s) == 1)%Q ->
    forallb (fun i => negb (sets_deadzone_to_one i)) inputs = true ->
    exists s', run s inputs = Ok s' /\ ~ (deadzone (shim s') == 1)%Q.
Proof.
  induction inputs as [|i rest IH]; intros s Hinv Hd Hall; [cbn; eauto|].
  cbn [forallb] in Hall. apply andb_prop in Hall as [Hi Hall].
  apply negb_true_iff in Hi.
  destruct (step_returns s i Hinv Hd) as [s1 H1].
  cbn [run]. rewrite H1. cbn [mbind result_bind].
  apply IH; [exact (step_inv _ _ _ Hinv H1)| |exact Hall].
  apply (step_effect_deadzone_not_one s i s1 Hinv Hd Hi).
  apply step_effect_of; [apply Hinv|exact H1].
Qed.

(** X6: [run] never ends, whatever devices appear and disappear and
    whatever events and raw readings arrive, as long as the deadzone
    parameter is never written with exactly 1: every exception other than
    the caught read failure is excluded. *)
Theorem X6_run_survives (inputs : list input) :
  forallb (fun i => negb (sets_deadzone_to_one i)) inputs = true ->
  exists s, main inputs = Ok s.
Proof.
  intros Hall. rewrite main_run.
  destruct (run_returns inputs initial initial_inv) as (s & Hs & _);
    [cbn; lra|exact Hall|eauto].
Qed.

Lemma X6_run_survives_witness :
  exists s, main (SetDeadzone 2 :: play_then_unplug) = Ok s.
Proof.
  apply (X6_run_survives (SetDeadzone 2 :: play_then_unplug)).
  reflexivity.
Defined.

(** X7: with a deadzone of exactly 1 and a cached stick reading at or
    beyond full scale, the jog mixer divides by zero; the idle tick of a
    connected loop then ends [run] with [ZeroDivisionError], which the
    handler for read failures does not catch, so no reset takes place. *)
Theorem X7_deadzone_one_ends_run (s : session) (d : InputDevice) :
  pins_ok (h (shim s)) -> dev s = Some d ->
  (deadzone (shim s) == 1)%Q ->
  (1 <= Qabs (_lx (shim s)))%Q \/ (1 <= Qabs (_ly (shim s)))%Q
  \/ (1 <= Qabs (_ry (shim s)))%Q ->
  _update_jog_outputs (shim s) = Raise ZeroDivisionError /\
  step s SelectTimeout = Raise ZeroDivisionError.
Proof.
  intros Hok Hdev Hd Hfull.
  assert (Hjog : _update_jog_outputs (shim s) = Raise ZeroDivisionError).
  { assert (Hcase : forall v,
               _apply_deadzone (shim s) v = Ok 0%Q /\ ~ (1 <= Qabs v)%Q
               \/ _apply_deadzone (shim s) v = Raise ZeroDivisionError
                  /\ (1 <= Qabs v)%Q).
    { intros v. destruct (Qlt_le_dec (Qabs v) 1) as [Hv|Hv].
      - left. split; [apply apply_deadzone_inside|]; lra.
      - right. split; [now apply apply_deadzone_raises|exact Hv]. }
    destruct (shim s) as [h0 dz vd pd lx ly ry rt ai] eqn:Es.
    cbn [h _lx _ly _ry] in *.
    unfold _update_jog_outputs. cbn [_lx _ly _ry _rt].
    destruct (Hcase lx) as [[-> Nx]| [-> _]]; [|reflexivity].
    cbn [mbind result_bind].
    rewrite (set_pin_ok _ "jog-x" _ HAL_FLOAT); [|exact Hok|reflexivity].
    cbn [mbind result_bind with_h _lx _ly _ry _rt h].
    match goal with
    | |- context [_apply_deadzone ?a ly] =>
        change (_apply_deadzone a ly)
          with (_apply_deadzone (mkShim h0 dz vd pd lx ly ry rt ai) ly)
    end.
    destruct (Hcase ly) as [[-> Ny]| [-> _]]; [|reflexivity].
    cbn [mbind result_bind].
    rewrite (set_pin_ok _ "jog-y" _ HAL_FLOAT);
      [|now apply pins_ok_insert|reflexivity].
    cbn [mbind result_bind with_h _lx _ly _ry _rt h].
    match goal with
    | |- context [_apply_deadzone ?a ry] =>
        change (_apply_deadzone a ry)
          with (_apply_deadzone (mkShim h0 dz vd pd lx ly ry rt ai) ry)
    end.
    destruct (Hcase ry) as [[-> Nz]| [-> _]]; [|reflexivity].
    tauto. }
  split; [exact Hjog|].
  cbn [step]. rewrite Hdev. cbn [connected_body]. now rewrite Hjog.
Qed.

(** The left stick is at full scale when the deadzone is set to 1: the
    next idle tick ends the run. *)
Lemma X7_deadzone_one_ends_run_witness :
  exists s,
    main full_stick_then_deadzone_one = Ok s /\
    step s SelectTimeout = Raise ZeroDivisionError /\
    main (full_stick_then_deadzone_one ++ [SelectTimeout])
    = Raise ZeroDivisionError.
Proof.
  destruct (returns_with_spec
              (fun s => negb (scanning s)
                        && Qeq_bool (deadzone (shim s)) 1
                        && Qle_bool 1 (Qabs (_lx (shim s))))
              (main full_stick_then_deadzone_one))
    as (s & Hs & Hp); [vm_compute; reflexivity|].
  apply andb_prop in Hp as [Hp Hx]. apply andb_prop in Hp as [Hc Hd].
  apply negb_true_iff, scanning_false in Hc as [d Hdev].
  apply Qeq_bool_iff in Hd. apply Qle_bool_iff in Hx.
  destruct (main_inv _ _ Hs) as [Hok _].
  destruct (X7_deadzone_one_ends_run s d Hok Hdev Hd (or_introl Hx))
    as [_ Hstep].
  exists s. split; [exact Hs|]. split; [exact Hstep|].
  rewrite main_run, run_app. rewrite main_run in Hs. rewrite Hs.
  cbn [mbind result_bind run]. now rewrite Hstep.
Defined.

(** ** The range table built at discovery *)

Lemma cache_axis_info_snoc abs code info :
  cache_axis_info (abs ++ [(code, info)])
  = <[code := (absinfo_min info, absinfo_max info)]> (cache_axis_info abs).
Proof. unfold cache_axis_info. now rewrite foldl_app. Qed.

(** X13: the table built from a device's capabilities maps an axis code
    to the bounds of the last entry the device reports for it, and has no
    entry for a code the device does not report. *)
Theorem X13_range_table_lookup (abs : list (Z * AbsInfo)) (code : Z) :
  cache_axis_info abs !! code = last_bounds code abs /\
  (code ∉ abs.*1 -> cache_axis_info abs !! code = None).
Proof.
  assert (Hlast : cache_axis_info abs !! code = last_bounds code abs).
  { unfold last_bounds.
    induction abs as [|[c info] abs IH] using rev_ind; [reflexivity|].
    rewrite cache_axis_info_snoc, rev_app_distr. cbn [rev app List.find fst].
    destruct (Z.eqb_spec c code) as [->|Hne].
    - now rewrite lookup_insert_eq.
    - now rewrite lookup_insert_ne. }
  split; [exact Hlast|].
  intros Hnin. rewrite Hlast. unfold last_bounds.
  destruct (List.find (fun entry => entry.1 =? code) (rev abs))
    as [[c info]|] eqn:Hfind; [|reflexivity].
  apply find_some in Hfind as [Hin Hc]. cbn in Hc.
  apply Z.eqb_eq in Hc. subst c. exfalso. apply Hnin.
  apply list_elem_of_fmap. exists (code, info). split; [reflexivity|].
  apply list_elem_of_In. now apply in_rev.
Qed.

(** The later of two entries for ABS_X wins; ABS_RZ is not reported. *)
Lemma X13_range_table_lookup_witness :
  cache_axis_info twice_x !! ecodes.ABS_X = Some (-128, 127) /\
  cache_axis_info twice_x !! ecodes.ABS_RZ = None.
Proof.
  destruct (X13_range_table_lookup twice_x ecodes.ABS_X) as [Hx _].
  destruct (X13_range_table_lookup twice_x ecodes.ABS_RZ) as [_ Hrz].
  split; [rewrite Hx; reflexivity|].
  apply Hrz. unfold twice_x. cbn. not_in_names.
Defined.

(** ** Discovery over a longer enumeration *)

(** X16: discovery over an enumeration in two parts returns what it
    finds in the first part when it finds a device there, and otherwise
    what it finds in the second part: devices listed after the first
    match never change the selection or the range table. *)
Theorem X16_discovery_first_part_wins (self : GamepadShim)
    (devices1 devices2 : list (result InputDevice)) :
  _find_device self (devices1 ++ devices2)
  = match (_find_device self devices1).1 with
    | Some _ => _find_device self devices1
    | None => _find_device self devices2
    end.
Proof.
  unfold _find_device.
  induction devices1 as [|[d|e] rest IH]; cbn [app find_device_from];
    [reflexivity| |exact IH].
  destruct (negb (vendor self =? 0) && negb (info_vendor d =? vendor self));
    [exact IH|].
  destruct (negb (product self =? 0) && negb (info_product d =? product self));
    [exact IH|].
  destruct (capabilities d) as [[abs|]|]; try exact IH. reflexivity.
Qed.

(** ** Buttons *)

Lemma bit_pin_lookup (h0 : gmap string hal_value) name b :
  bit_pin h0 name = Some b -> h0 !! name = Some (HalBit b).
Proof.
  unfold bit_pin. destruct (h0 !! name) as [[q|b']|]; try discriminate.
  now intros [= ->].
Qed.

Lemma handle_event_key self code v pin :
  pins_ok (h self) -> BUTTON_MAP !! code = Some pin ->
  handle_event self (key_event code v)
  = Ok (with_h self (<[pin := HalBit (negb (v =? 0))]> (h self))).
Proof.
  intros Hok Hpin. unfold handle_event, key_event.
  cbn [ev_type ev_code ev_value Z.eqb ecodes.EV_KEY ecodes.EV_ABS Pos.eqb].
  rewrite Hpin.
  now rewrite (set_pin_ok _ pin _ HAL_BIT Hok (button_pin_bit _ _ Hpin)).
Qed.

(** X15: a key event of a mapped button writes the truth of its value to
    that button's pin and changes nothing else (no other pin, no cached
    reading, no jog output); no two button codes share a pin; a key event
    of any other code changes nothing; and a press followed by a release
    leaves a component whose button was up exactly as it was. *)
Theorem X15_button_events :
  (forall self code pin v,
      pins_ok (h self) -> BUTTON_MAP !! code = Some pin ->
      handle_event self (key_event code v)
      = Ok (with_h self (<[pin := HalBit (negb (v =? 0))]> (h self)))
      /\ pin ∈ mapped_buttons) /\
  (forall code1 code2 pin,
      BUTTON_MAP !! code1 = Some pin -> BUTTON_MAP !! code2 = Some pin ->
      code1 = code2) /\
  (forall self code v,
      BUTTON_MAP !! code = None ->
      handle_event self (key_event code v) = Ok self) /\
  (forall self code pin v,
      pins_ok (h self) -> BUTTON_MAP !! code = Some pin ->
      bit_pin (h self) pin = Some false -> v <> 0 ->
      handle_events self [key_event code v; key_event code 0] = Ok self).
Proof.
  split; [|split; [|split]].
  - intros self code pin v Hok Hpin.
    split; [now apply handle_event_key | exact (button_pin_mapped _ _ Hpin)].
  - intros code1 code2 pin H1 H2. unfold BUTTON_MAP in *.
    apply elem_of_list_to_map_2 in H1, H2.
    repeat (apply elem_of_cons in H1 as [E1|H1];
            [injection E1 as -> ->;
             repeat (apply elem_of_cons in H2 as [E2|H2];
                     [now injection E2 as ->|]);
             now apply elem_of_nil in H2|]).
    now apply elem_of_nil in H1.
  - intros self code v Hnone. unfold handle_event, key_event.
    cbn [ev_type ev_code ev_value Z.eqb ecodes.EV_KEY ecodes.EV_ABS Pos.eqb].
    now rewrite Hnone.
  - intros self code pin v Hok Hpin Hup Hv.
    pose proof (button_pin_bit _ _ Hpin) as Hty.
    cbn [handle_events].
    rewrite (handle_event_key _ _ _ _ Hok Hpin). cbn [mbind result_bind].
    rewrite (handle_event_key _ _ _ pin); [|cbn [with_h h]|exact Hpin].
    + cbn [mbind result_bind with_h h Z.eqb negb].
      rewrite insert_insert_eq.
      rewrite (insert_id (h self) pin (HalBit false) (bit_pin_lookup _ _ _ Hup)).
      now destruct self.
    + now apply pins_ok_insert.
Qed.

(** Button A is pressed and released. *)
Lemma X15_button_events_witness :
  handle_event (shim_with_sticks (1 # 5) (1 # 2) 0 0 (1 # 2))
               (key_event ecodes.BTN_SOUTH 1)
  = Ok (with_h (shim_with_sticks (1 # 5) (1 # 2) 0 0 (1 # 2))
               (<["a" := HalBit true]> new_pins)) /\
  handle_events (shim_with_sticks (1 # 5) (1 # 2) 0 0 (1 # 2))
                [key_event ecodes.BTN_SOUTH 1; key_event ecodes.BTN_SOUTH 0]
  = Ok (shim_with_sticks (1 # 5) (1 # 2) 0 0 (1 # 2)).
Proof.
  destruct X15_button_events as (Hkey & _ & _ & Hround).
  split.
  - destruct (Hkey (shim_with_sticks (1 # 5) (1 # 2) 0 0 (1 # 2))
                   ecodes.BTN_SOUTH "a" 1) as [H _];
      [reflexivity | reflexivity | exact H].
  - apply (Hround _ ecodes.BTN_SOUTH "a" 1);
      [reflexivity | reflexivity | reflexivity | lia].
Defined.

(** ** The shaper over its whole domain *)

Section ShaperShape.
Local Open Scope Q_scope.

Lemma quotient_spec (n c : Q) : 0 < c -> (n / c) * c == n.
Proof. intros Hc. field. lra. Qed.

(** The three branches of the shaper for a deadzone in [0,1), with the
    division cleared. *)
Lemma apply_deadzone_cases self v :
  0 <= deadzone self -> deadzone self < 1 ->
  exists q, _apply_deadzone self v = Ok q /\
    ((- deadzone self < v /\ v < deadzone self /\ q == 0) \/
     (deadzone self <= v /\ q * (1 - deadzone self) == v - deadzone self) \/
     (v <= - deadzone self /\ q * (1 - deadzone self) == v + deadzone self)).
Proof.
  intros Hd0 Hd1.
  destruct (Qlt_le_dec (Qabs v) (deadzone self)) as [Hin|Hout].
  - exists 0. split; [now apply apply_deadzone_inside|]. left.
    destruct (Qabs_cases v) as [[Hv Ha]|[Hv Ha]]; rewrite Ha in Hin;
      repeat split; lra.
  - eexists. split; [apply apply_deadzone_outside; [exact Hout|lra]|].
    rewrite quotient_spec by lra.
    destruct (Qabs_cases v) as [[Hv Ha]|[Hv Ha]]; rewrite Ha in Hout |- *;
      destruct (Qlt_le_dec 0 v); lra.
Qed.




End ShaperShape.



(** ** A deadzone outside [0,1) *)

Section DeadzoneOutOfRange.
Local Open Scope Q_scope.




End DeadzoneOutOfRange.



(** ** The jog outputs as a function of the pins *)

Lemma run_mirror inputs s s' :
  session_inv s -> pins_mirror (shim s) -> run s inputs = Ok s' ->
  pins_mirror (shim s').
Proof.
  intros Hinv Hm.
  apply (run_invariant (fun s => pins_mirror (shim s)) (fun _ => true));
    [|exact Hinv|exact Hm|apply forallb_all].
  intros s0 i s1 Hinv0 Hm0 _. now apply step_effect_mirror.
Qed.

Lemma initial_mirror : pins_mirror (shim initial).
Proof. now repeat split. Qed.





(** ** The right trigger as a gate *)

Lemma handle_events_invariant_on (P : GamepadShim -> Prop)
    (ok : InputEvent -> bool) :
  (forall self event self',
      pins_ok (h self) -> P self -> ok event = true ->
      event_effect self event self' -> P self') ->
  forall events self self',
    pins_ok (h self) -> P self -> forallb ok events = true ->
    handle_events self events = Ok self' -> P self'.
Proof.
  intros Hstep.
  induction events as [|e rest IH]; intros self self' Hok HP Hall H.
  - now injection H as <-.
  - cbn [forallb] in Hall. apply andb_prop in Hall as [He Hall].
    cbn [handle_events] in H. bind_inv H.
    pose proof (handle_event_effect _ _ _ Hok Ha) as Hef.
    apply (IH a); [|exact (Hstep _ _ _ Hok HP He Hef)|exact Hall|exact H].
    exact (event_effect_pins_ok _ _ _ Hok Hef).
Qed.

Lemma scale_trigger_dead self raw val :
  trigger_dead (_axis_info self) = true ->
  _scale_trigger self ecodes.ABS_RZ raw = Ok val -> val = 0%Q.
Proof.
  unfold trigger_dead, _scale_trigger.
  destruct (_axis_info self !! ecodes.ABS_RZ) as [[lo hi]|].
  - intros ->. now intros [= <-].
  - now intros _ [= <-].
Qed.

Lemma abs_effect_rt self code value a :
  abs_effect self code value a ->
  code <> ecodes.ABS_RZ \/ trigger_dead (_axis_info self) = true ->
  (_rt self == 0)%Q -> (_rt a == 0)%Q.
Proof.
  intros He Hgate Hrt.
  destruct He as [val Hc Hv|val Hc Hv|val Hc Hv|val Hc Hv|val Hc Hv|val Hc Hv
                 |Hc|Hc|Hc]; try (now destruct self).
  destruct Hgate as [Hne|Hdead]; [contradiction|].
  rewrite Hc in Hv. apply (scale_trigger_dead _ _ _ Hdead) in Hv as ->.
  now destruct self.
Qed.

Lemma jog_pins_zero h0 sx sy sz rt :
  (rt == 0)%Q -> jog_zero (jog_pins h0 sx sy sz rt).
Proof.
  intros Hrt. exists (sx * rt)%Q, (sy * rt)%Q, (sz * rt)%Q.
  split; [apply jog_pins_x|]. split; [apply jog_pins_y|].
  split; [apply jog_pins_z|].
  rewrite Hrt. split; [ring|]. split; ring.
Qed.

Lemma jog_zero_ext (h1 h2 : gmap string hal_value) :
  (forall name, name ∈ jog_names -> h2 !! name = h1 !! name) ->
  jog_zero h1 -> jog_zero h2.
Proof.
  intros Hsame (jx & jy & jz & Hx & Hy & Hz & Zx & Zy & Zz).
  exists jx, jy, jz. unfold float_pin in *.
  rewrite !Hsame by (unfold jog_names; in_names).
  now repeat split.
Qed.

Lemma is_rz_false event :
  ev_type event = ecodes.EV_ABS -> is_rz event = false ->
  ev_code event <> ecodes.ABS_RZ.
Proof.
  unfold is_rz. intros -> H E. rewrite E in H. discriminate H.
Qed.

Lemma event_effect_released self event self' :
  event_effect self event self' -> trigger_released self ->
  is_rz event = false \/ trigger_dead (_axis_info self) = true ->
  trigger_released self'.
Proof.
  intros He [Hrt Hz] Hgate.
  destruct He as [a sx sy sz Ht Ha _ _ _|pin _ Hpin|].
  - assert (Hrta : (_rt a == 0)%Q).
    { apply (abs_effect_rt _ _ _ _ Ha); [|exact Hrt].
      destruct Hgate as [Hn|Hd]; [left; now apply is_rz_false | now right]. }
    split; [now destruct a|]. cbn [with_h h]. now apply jog_pins_zero.
  - split; [now destruct self|]. cbn [with_h h].
    apply (jog_zero_ext (h self)); [|exact Hz].
    intros name Hin. apply lookup_insert_ne.
    intros ->. exact (button_not_jog _ _ Hpin Hin).
  - now split.
Qed.

Lemma handle_events_table events self self' :
  pins_ok (h self) -> handle_events self events = Ok self' ->
  _axis_info self' = _axis_info self.
Proof.
  intros Hok.
  apply (handle_events_invariant
           (fun a => _axis_info a = _axis_info self)); [|exact Hok|reflexivity].
  intros a e a' _ Ha He.
  destruct (event_effect_params _ _ _ He) as (_ & _ & _ & Ht). congruence.
Qed.

Lemma handle_events_released events self self' :
  pins_ok (h self) -> trigger_released self ->
  forallb (fun e => negb (is_rz e)) events = true
  \/ trigger_dead (_axis_info self) = true ->
  handle_events self events = Ok self' -> trigger_released self'.
Proof.
  intros Hok Hr [Hnone|Hdead] H.
  - apply (handle_events_invariant_on trigger_released
             (fun e => negb (is_rz e))) with (events := events) (self := self);
      try assumption.
    intros a e a' _ Ha Hn He.
    apply (event_effect_released _ _ _ He Ha). left.
    now apply negb_true_iff.
  - apply (handle_events_invariant
             (fun a => trigger_dead (_axis_info a) = true
                       /\ trigger_released a))
      with (events := events) (self := self); try assumption; [|now split].
    intros a e a' _ [Hd Ha] He. split.
    + destruct (event_effect_params _ _ _ He) as (_ & _ & _ & Ht).
      now rewrite Ht.
    + apply (event_effect_released _ _ _ He Ha). now right.
Qed.

Lemma at_rest_released self : at_rest self -> trigger_released self.
Proof.
  intros (Hh & _ & _ & _ & Ht). split; [now rewrite Ht|].
  rewrite Hh. exists 0%Q, 0%Q, 0%Q. now repeat split.
Qed.

Lemma no_rz_events events :
  existsb is_rz events = false ->
  forallb (fun e => negb (is_rz e)) events = true.
Proof.
  induction events as [|e rest IH]; [reflexivity|].
  cbn [existsb forallb]. intros H.
  apply orb_false_elim in H as [He Hrest].
  rewrite He. exact (IH Hrest).
Qed.

Lemma released_params self self' :
  h self' = h self -> _rt self' = _rt self ->
  trigger_released self -> trigger_released self'.
Proof. intros Hh Ht [Hr Hz]. split; [now rewrite Ht | now rewrite Hh]. Qed.

Lemma step_effect_released s i s' :
  session_inv s -> trigger_released (shim s) -> step_effect s i s' ->
  (forall events,
      i = Read events -> dev s <> None ->
      forallb (fun e => negb (is_rz e)) events = true
      \/ trigger_dead (_axis_info (shim s)) = true) ->
  trigger_released (shim s').
Proof.
  intros [Hok _] Hr He Hgate.
  destruct He as [d|v|p|i Hw|i Hw|devices d abs Hdev Hfind Hcaps
                 |d sx sy sz Hdev Sx Sy Sz|d events a Hdev Hev]; cbn [shim].
  - apply (released_params (shim s)); [now destruct (shim s)..|exact Hr].
  - apply (released_params (shim s)); [now destruct (shim s)..|exact Hr].
  - apply (released_params (shim s)); [now destruct (shim s)..|exact Hr].
  - exact Hr.
  - apply at_rest_released. unfold at_rest. cbn. now repeat split.
  - destruct Hr as [Hrt Hz]. split; [now destruct (shim s)|].
    cbn [with_h h]. apply (jog_zero_ext (h (shim s))); [|exact Hz].
    intros name Hin. apply lookup_insert_ne. intros <-.
    unfold jog_names in Hin. revert Hin. not_in_names.
  - destruct Hr as [Hrt Hz]. split; [now destruct (shim s)|].
    cbn [with_h h]. now apply jog_pins_zero.
  - apply (handle_events_released events (shim s) a Hok Hr); [|exact Hev].
    apply Hgate; [reflexivity|]. now rewrite Hdev.
Qed.

Lemma step_effect_keeps_table s i s' :
  session_inv s -> dev s <> None -> step_effect s i s' ->
  _axis_info (shim s') = _axis_info (shim s).
Proof.
  intros [Hok _] Hdev He.
  destruct He as [d|v|p|i Hw|i Hw|devices d abs Hd Hfind Hcaps
                 |d sx sy sz Hd Sx Sy Sz|d events a Hd Hev]; cbn [shim];
    try (now destruct (shim s)); try congruence.
  exact (handle_events_table _ _ _ Hok Hev).
Qed.

(** X11: the right trigger gates the jog outputs over a whole session,
    for a deadzone that is a finite number.  From any point at which no
    device is open, as long as no event of the right trigger arrives,
    jog-x, jog-y and jog-z and the pin rt stay 0, whatever the sticks, the
    buttons and the other axes do and whatever finite numbers are written
    to the parameters.  (A deadzone holding NaN or an infinity is not a
    value of [SetDeadzone]; the source would then write NaN to the jog
    pins.) *)
Theorem X11_trigger_gate (inputs1 inputs2 : list input) (s1 s2 : session) :
  main inputs1 = Ok s1 -> scanning s1 = true ->
  forallb (fun i => negb (has_rz i)) inputs2 = true ->
  run s1 inputs2 = Ok s2 ->
  jog_zero (h (shim s2)) /\
  exists rt, float_pin (h (shim s2)) "rt" = Some rt /\ (rt == 0)%Q.
Proof.
  intros H1 Hscan Hall H2.
  pose proof (main_inv _ _ H1) as Hinv.
  assert (Hr : trigger_released (shim s2)).
  { apply (run_invariant (fun s => trigger_released (shim s))
                         (fun i => negb (has_rz i)))
      with (inputs := inputs2) (s := s1); try assumption.
    - intros s i s' Hinv0 Hr0 Hi He.
      apply (step_effect_released s i s' Hinv0 Hr0 He).
      intros events -> _. left. apply negb_true_iff in Hi.
      exact (no_rz_events _ Hi).
    - apply at_rest_released, Hinv. now apply scanning_true. }
  destruct Hr as [Hrt Hz]. split; [exact Hz|].
  exists (_rt (shim s2)). split; [|exact Hrt].
  rewrite main_run in H1.
  pose proof (run_mirror _ _ _ initial_inv initial_mirror H1) as Hm1.
  apply (run_mirror _ _ _ Hinv Hm1 H2).
Qed.

(** After a session with the trigger held and an unplug, a new session in
    which only the sticks, a button and the left trigger are used. *)
Lemma X11_trigger_gate_witness :
  exists s1 s2,
    main play_then_unplug = Ok s1 /\ run s1 sticks_only = Ok s2 /\
    jog_zero (h (shim s2)).
Proof.
  destruct (returns_with_spec
              (fun s1 => scanning s1
                         && returns_with (fun _ => true) (run s1 sticks_only))
              (main play_then_unplug)) as (s1 & H1 & Hc);
    [vm_compute; reflexivity|].
  apply andb_prop in Hc as [Hscan Hc].
  destruct (returns_with_spec _ _ Hc) as (s2 & H2 & _).
  exists s1, s2. split; [exact H1|]. split; [exact H2|].
  apply (X11_trigger_gate play_then_unplug sticks_only s1 s2 H1 Hscan);
    [reflexivity|exact H2].
Defined.

(** X12: under a range table that has no entry for the right trigger, or
    one whose two bounds are equal, the pad never jogs as long as the
    deadzone is a finite number: in every state with such a table of
    every run whose deadzone writes are finite numbers, jog-x, jog-y and
    jog-z and the pin rt are 0.  (A deadzone holding NaN or an infinity
    is not a value of [SetDeadzone]; the source would then write NaN to
    the jog pins.) *)
Theorem X12_no_trigger_no_jog (inputs : list input) (s : session) :
  main inputs = Ok s -> trigger_dead (_axis_info (shim s)) = true ->
  jog_zero (h (shim s)) /\
  exists rt, float_pin (h (shim s)) "rt" = Some rt /\ (rt == 0)%Q.
Proof.
  intros H Hdead. rewrite main_run in H.
  assert (Hr : trigger_dead (_axis_info (shim s)) = true ->
               trigger_released (shim s)).
  { apply (run_invariant
             (fun s => trigger_dead (_axis_info (shim s)) = true ->
                       trigger_released (shim s))
             (fun _ => true)) with (inputs := inputs) (s := initial);
      [|exact initial_inv| |apply forallb_all|exact H].
    - intros s0 i s' Hinv0 HI _ He Hd'.
      destruct (dev s0) as [d|] eqn:Hdev.
      + assert (Hsome : dev s0 <> None) by now rewrite Hdev.
        pose proof (step_effect_keeps_table _ _ _ Hinv0 Hsome He) as Ht.
        rewrite Ht in Hd'.
        apply (step_effect_released s0 i s' Hinv0 (HI Hd') He).
        intros events _ _. now right.
      + apply (step_effect_released s0 i s' Hinv0); [|exact He|].
        * apply at_rest_released, Hinv0, Hdev.
        * intros events _ Hne. now rewrite Hdev in Hne.
    - intros _. apply at_rest_released, initial_inv. reflexivity. }
  destruct (Hr Hdead) as [Hrt Hz]. split; [exact Hz|].
  exists (_rt (shim s)). split; [|exact Hrt].
  apply (run_mirror _ _ _ initial_inv initial_mirror H).
Qed.

(** A pad whose right trigger reports the range [0,0] is used after a
    session with a full pad. *)
Lemma X12_no_trigger_no_jog_witness :
  exists s, main play_without_trigger = Ok s /\ jog_zero (h (shim s)).
Proof.
  destruct (returns_with_spec
              (fun s => trigger_dead (_axis_info (shim s)))
              (main play_without_trigger)) as (s & Hs & Hd);
    [vm_compute; reflexivity|].
  exists s. split; [exact Hs|].
  apply (X12_no_trigger_no_jog play_without_trigger s Hs Hd).
Defined.

(** ** Routing of the axes *)

Lemma handle_abs_event_inv self code raw self' :
  pins_ok (h self) -> handle_event self (abs_event code raw) = Ok self' ->
  exists a sx sy sz,
    abs_effect self code raw a /\
    self' = with_h a (jog_pins (h a) sx sy sz (_rt a)).
Proof.
  intros Hok H.
  pose proof (handle_event_effect _ _ _ Hok H) as He.
  inversion He as [a sx sy sz Ht Ha Sx Sy Sz|pin Ht Hpin|Ht Hk].
  - now exists a, sx, sy, sz.
  - discriminate Ht.
  - now contradiction Ht.
Qed.

Lemma bipolar_formula_ends lo hi :
  lo <> hi ->
  (bipolar_formula lo hi lo == -1)%Q /\ (bipolar_formula lo hi hi == 1)%Q.
Proof.
  intros Hne.
  assert (Hd : ~ (inject_Z hi - inject_Z lo == 0)%Q).
  { intros E. apply Hne. symmetry. apply inject_Z_injective. lra. }
  unfold bipolar_formula. split; field; exact Hd.
Qed.

Ltac other_code :=
  let H := fresh in
  intros H; exfalso; subst;
  first [ discriminate H
        | vm_compute in H; discriminate H
        | match goal with
          | Hn : _ ∉ _ |- _ => apply Hn; in_names
          end ].

Ltac each_axis :=
  repeat match goal with |- _ /\ _ => split end;
  try other_code.

Ltac pin_after_event :=
  unfold float_pin, jog_pins, hat0x_pins, hat0y_pins;
  cbn [with_h with_lx with_ly with_ry with_rt h _lx _ly _ry _rt];
  now simplify_map_eq.

(** X14: an axis event of a known, non-degenerate axis ends up on its own
    pin with its own polarity.  The left stick goes to lx and ly, the
    right stick to rx and ry, the triggers to lt and rt; the X axes and the
    triggers keep the calibrated value, the two Y axes are negated, so a Y
    reading at the reported minimum gives +1 and one at the maximum -1.
    The pin holds this value after the refresh of the jog outputs that
    ends the event. *)
Theorem X14_axis_routing (self : GamepadShim) (code lo hi raw : Z) :
  pins_ok (h self) -> ~ (deadzone self == 1)%Q ->
  _axis_info self !! code = Some (lo, hi) -> lo <> hi ->
  exists self' q,
    handle_event self (abs_event code raw) = Ok self' /\
    (code = ecodes.ABS_X ->
       float_pin (h self') "lx" = Some q /\ _lx self' = q /\
       (q == bipolar_formula lo hi raw)%Q) /\
    (code = ecodes.ABS_Y ->
       float_pin (h self') "ly" = Some q /\ _ly self' = q /\
       (q == - bipolar_formula lo hi raw)%Q /\
       (raw = lo -> (q == 1)%Q) /\ (raw = hi -> (q == -1)%Q)) /\
    (code = ecodes.ABS_RX ->
       float_pin (h self') "rx" = Some q /\
       (q == bipolar_formula lo hi raw)%Q) /\
    (code = ecodes.ABS_RY ->
       float_pin (h self') "ry" = Some q /\ _ry self' = q /\
       (q == - bipolar_formula lo hi raw)%Q /\
       (raw = lo -> (q == 1)%Q) /\ (raw = hi -> (q == -1)%Q)) /\
    (code = ecodes.ABS_Z ->
       float_pin (h self') "lt" = Some q /\
       (q == unipolar_formula lo hi raw)%Q) /\
    (code = ecodes.ABS_RZ ->
       float_pin (h self') "rt" = Some q /\ _rt self' = q /\
       (q == unipolar_formula lo hi raw)%Q).
Proof.
  intros Hok Hd Hinfo Hne.
  destruct (handle_event_returns self (abs_event code raw) Hok Hd)
    as [self' H].
  destruct (handle_abs_event_inv _ _ _ _ Hok H) as (a & sx & sy & sz & Ha & ->).
  pose proof (scale_axis_known self code raw lo hi Hinfo Hne) as Ka.
  pose proof (scale_trigger_known self code raw lo hi Hinfo Hne) as Kt.
  pose proof (bipolar_formula_eq lo hi raw Hne) as Eb.
  pose proof (unipolar_formula_eq lo hi raw) as Eu.
  destruct (bipolar_formula_ends lo hi Hne) as [Blo Bhi].
  destruct Ha as [val Hc Hv|val Hc Hv|val Hc Hv|val Hc Hv|val Hc Hv|val Hc Hv
                 |Hc|Hc|Hc].
  - rewrite Ka in Hv. injection Hv as Hv.
    eexists. exists val. split; [exact H|]. each_axis. intros _.
    split; [destruct self; pin_after_event|].
    split; [now destruct self | now rewrite <- Hv].
  - rewrite Ka in Hv. injection Hv as Hv.
    eexists. exists (- val)%Q. split; [exact H|]. each_axis. intros _.
    split; [destruct self; pin_after_event|].
    split; [now destruct self|].
    rewrite <- Hv, Eb.
    split; [reflexivity|].
    split; intros ->; [rewrite Blo | rewrite Bhi]; reflexivity.
  - rewrite Ka in Hv. injection Hv as Hv.
    eexists. exists val. split; [exact H|]. each_axis. intros _.
    split; [destruct self; pin_after_event | now rewrite <- Hv].
  - rewrite Ka in Hv. injection Hv as Hv.
    eexists. exists (- val)%Q. split; [exact H|]. each_axis. intros _.
    split; [destruct self; pin_after_event|].
    split; [now destruct self|].
    rewrite <- Hv, Eb.
    split; [reflexivity|].
    split; intros ->; [rewrite Blo | rewrite Bhi]; reflexivity.
  - rewrite Kt in Hv. injection Hv as Hv.
    eexists. exists val. split; [exact H|]. each_axis. intros _.
    split; [destruct self; pin_after_event | now rewrite <- Hv].
  - rewrite Kt in Hv. injection Hv as Hv.
    eexists. exists val. split; [exact H|]. each_axis. intros _.
    split; [destruct self; pin_after_event|].
    split; [now destruct self | now rewrite <- Hv].
  - eexists. exists 0%Q. split; [exact H|]. each_axis.
  - eexists. exists 0%Q. split; [exact H|]. each_axis.
  - eexists. exists 0%Q. split; [exact H|]. each_axis.
Qed.

(** The left stick is pushed fully forward (Y at its minimum 0 of range
    [0,255]): ly is +1. *)
Lemma X14_axis_routing_witness :
  exists self' q,
    handle_event (shim_with_table table_0_255) (abs_event ecodes.ABS_Y 0)
    = Ok self' /\
    float_pin (h self') "ly" = Some q /\ (q == 1)%Q.
Proof.
  destruct (X14_axis_routing (shim_with_table table_0_255)
                             ecodes.ABS_Y 0 255 0)
    as (self' & q & H & _ & Hy & _);
    [reflexivity | simpl; lra | reflexivity | lia |].
  destruct (Hy eq_refl) as (Hpin & _ & _ & Hlo & _).
  exists self', q. split; [exact H|]. split; [exact Hpin|].
  now apply Hlo.
Defined.

(** ** Readings within the reported ranges *)

Section Bounds.
Local Open Scope Q_scope.

Lemma pin_in_insert_eq (h0 : gmap string hal_value) name q lo hi :
  lo <= q -> q <= hi -> pin_in (<[name := HalFloat q]> h0) name lo hi.
Proof.
  intros Hlo Hhi. exists q. unfold float_pin.
  now rewrite lookup_insert_eq.
Qed.

Lemma pin_in_insert_ne (h0 : gmap string hal_value) name name' v lo hi :
  name' <> name -> pin_in h0 name lo hi ->
  pin_in (<[name' := v]> h0) name lo hi.
Proof.
  intros Hne (q & Hq & Hb). exists q. unfold float_pin in *.
  now rewrite lookup_insert_ne.
Qed.

Lemma scale_axis_in_range self code raw val :
  reading_ok (_axis_info self) code raw = true ->
  _scale_axis self code raw = Ok val -> -1 <= val /\ val <= 1.
Proof.
  unfold reading_ok.
  destruct (_axis_info self !! code) as [[lo hi]|] eqn:Hinfo.
  - intros Hr. apply andb_prop in Hr as [Hlo Hhi].
    apply Z.leb_le in Hlo, Hhi.
    destruct (Z.eq_dec lo hi) as [->|Hne].
    + rewrite (proj1 (scale_degenerate self code raw hi Hinfo)).
      intros [= <-]. lra.
    + rewrite (scale_axis_known self code raw lo hi Hinfo Hne).
      intros [= <-].
      assert (Hd : 0 < inject_Z (hi - lo)) by (apply inject_Z_sub_pos; lia).
      assert (Hn0 : 0 <= inject_Z (raw - lo)).
      { change 0 with (inject_Z 0). rewrite <- Zle_Qle. lia. }
      assert (Hn1 : inject_Z (raw - lo) <= inject_Z (hi - lo))
        by now apply inject_Z_sub_le.
      destruct (ratio_bounds _ _ Hd Hn0 Hn1) as [Hr0 Hr1].
      assert (E : 2 * inject_Z (raw - lo) / inject_Z (hi - lo)
                  == 2 * (inject_Z (raw - lo) / inject_Z (hi - lo)))
        by (field; lra).
      rewrite E. lra.
  - intros _. rewrite (proj1 (scale_unknown self code raw Hinfo)).
    intros [= <-]. lra.
Qed.

Lemma scale_trigger_in_range self code raw val :
  reading_ok (_axis_info self) code raw = true ->
  _scale_trigger self code raw = Ok val -> 0 <= val /\ val <= 1.
Proof.
  unfold reading_ok.
  destruct (_axis_info self !! code) as [[lo hi]|] eqn:Hinfo.
  - intros Hr. apply andb_prop in Hr as [Hlo Hhi].
    apply Z.leb_le in Hlo, Hhi.
    destruct (Z.eq_dec lo hi) as [->|Hne].
    + rewrite (proj2 (scale_degenerate self code raw hi Hinfo)).
      intros [= <-]. lra.
    + rewrite (scale_trigger_known self code raw lo hi Hinfo Hne).
      intros [= <-].
      assert (Hd : 0 < inject_Z (hi - lo)) by (apply inject_Z_sub_pos; lia).
      assert (Hn0 : 0 <= inject_Z (raw - lo)).
      { change 0 with (inject_Z 0). rewrite <- Zle_Qle. lia. }
      assert (Hn1 : inject_Z (raw - lo) <= inject_Z (hi - lo))
        by now apply inject_Z_sub_le.
      destruct (ratio_bounds _ _ Hd Hn0 Hn1) as [Hr0 Hr1]. now split.
  - intros _. rewrite (proj2 (scale_unknown self code raw Hinfo)).
    intros [= <-]. lra.
Qed.

Lemma shaped_in_range self v q :
  0 <= deadzone self -> deadzone self < 1 -> -1 <= v -> v <= 1 ->
  _apply_deadzone self v = Ok q -> -1 <= q /\ q <= 1.
Proof.
  intros Hd0 Hd1 Hlo Hhi H.
  destruct (apply_deadzone_cases self v Hd0 Hd1) as (q' & E & Hq).
  rewrite E in H. injection H as <-.
  destruct Hq as [(H1 & H2 & H3)|[(H1 & H2)|(H1 & H2)]]; split; nra.
Qed.

Lemma gated_in_range (sv t : Q) :
  -1 <= sv /\ sv <= 1 -> 0 <= t /\ t <= 1 -> -1 <= sv * t /\ sv * t <= 1.
Proof. intros [H1 H2] [H3 H4]. split; nra. Qed.

Lemma deadzone_ok_spec d : deadzone_ok d = true -> 0 <= d /\ d < 1.
Proof.
  unfold deadzone_ok. intros H. apply andb_prop in H as [H0 H1].
  apply Qle_bool_iff in H0. apply negb_true_iff in H1.
  split; [exact H0|].
  apply Qnot_le_lt. intros Hle. apply Qle_bool_iff in Hle. congruence.
Qed.

End Bounds.

Ltac pins_in_range :=
  unfold analog_outputs_in_range, jog_pins, hat0x_pins, hat0y_pins;
  repeat match goal with |- _ /\ _ => split end;
  repeat first [ apply pin_in_insert_eq
               | apply pin_in_insert_ne; [discriminate|] ];
  try assumption.

Lemma abs_effect_bounded self code value a :
  outputs_bounded self -> reading_ok (_axis_info self) code value = true ->
  abs_effect self code value a -> outputs_bounded a.
Proof.
  intros (Bx & By & Bz & Bt & Hp) Hr He.
  destruct Hp as (P1 & P2 & P3 & P4 & P5 & P6 & P7 & P8 & P9).
  destruct He as [val Hc Hv|val Hc Hv|val Hc Hv|val Hc Hv|val Hc Hv|val Hc Hv
                 |Hc|Hc|Hc];
    try (apply (scale_axis_in_range _ _ _ _ Hr) in Hv as [V1 V2]);
    try (apply (scale_trigger_in_range _ _ _ _ Hr) in Hv as [V1 V2]);
    destruct self; unfold outputs_bounded;
    cbn [with_h with_lx with_ly with_ry with_rt h _lx _ly _ry _rt] in *;
    repeat match goal with |- _ /\ _ => split end;
    try assumption; try lra; pins_in_range; lra.
Qed.

Lemma jog_update_bounded a sx sy sz :
  outputs_bounded a ->
  (0 <= deadzone a)%Q -> (deadzone a < 1)%Q ->
  _apply_deadzone a (_lx a) = Ok sx ->
  _apply_deadzone a (_ly a) = Ok sy ->
  _apply_deadzone a (_ry a) = Ok sz ->
  outputs_bounded (with_h a (jog_pins (h a) sx sy sz (_rt a))).
Proof.
  intros (Bx & By & Bz & Bt & Hp) Hd0 Hd1 Sx Sy Sz.
  destruct Hp as (P1 & P2 & P3 & P4 & P5 & P6 & P7 & P8 & P9).
  apply (shaped_in_range _ _ _ Hd0 Hd1 (proj1 Bx) (proj2 Bx)) in Sx.
  apply (shaped_in_range _ _ _ Hd0 Hd1 (proj1 By) (proj2 By)) in Sy.
  apply (shaped_in_range _ _ _ Hd0 Hd1 (proj1 Bz) (proj2 Bz)) in Sz.
  destruct (gated_in_range _ _ Sx Bt) as [X1 X2].
  destruct (gated_in_range _ _ Sy Bt) as [Y1 Y2].
  destruct (gated_in_range _ _ Sz Bt) as [Z1 Z2].
  destruct a; unfold outputs_bounded;
    cbn [with_h h _lx _ly _ry _rt] in *.
  do 4 (split; [assumption|]). pins_in_range.
Qed.

Lemma button_pin_not_float code pin name :
  BUTTON_MAP !! code = Some pin -> pin_table !! name = Some HAL_FLOAT ->
  pin <> name.
Proof.
  intros Hpin Hf ->. apply button_pin_bit in Hpin. congruence.
Qed.

Lemma event_effect_bounded self event self' :
  outputs_bounded self ->
  (0 <= deadzone self)%Q -> (deadzone self < 1)%Q ->
  reading_in_range (_axis_info self) event = true ->
  event_effect self event self' -> outputs_bounded self'.
Proof.
  intros Hb Hd0 Hd1 Hr He.
  destruct He as [a sx sy sz Ht Ha Sx Sy Sz|pin _ Hpin|].
  - unfold reading_in_range in Hr. rewrite Ht in Hr. cbn in Hr.
    pose proof (abs_effect_bounded _ _ _ _ Hb Hr Ha) as Hba.
    destruct (abs_effect_deadzone _ _ _ _ Ha) as (Hdz & _).
    apply jog_update_bounded; try assumption; now rewrite Hdz.
  - destruct Hb as (Bx & By & Bz & Bt & Hp).
    destruct Hp as (P1 & P2 & P3 & P4 & P5 & P6 & P7 & P8 & P9).
    destruct self; unfold outputs_bounded;
      cbn [with_h h _lx _ly _ry _rt] in *.
    do 4 (split; [assumption|]).
    unfold analog_outputs_in_range.
    repeat match goal with |- _ /\ _ => split end;
      (apply pin_in_insert_ne;
       [apply (button_pin_not_float _ _ _ Hpin); reflexivity|assumption]).
  - exact Hb.
Qed.

Lemma handle_events_bounded events self self' :
  pins_ok (h self) -> outputs_bounded self ->
  (0 <= deadzone self)%Q -> (deadzone self < 1)%Q ->
  forallb (reading_in_range (_axis_info self)) events = true ->
  handle_events self events = Ok self' -> outputs_bounded self'.
Proof.
  intros Hok Hb Hd0 Hd1 Hall H.
  apply (handle_events_invariant_on
           (fun a => outputs_bounded a /\ deadzone a = deadzone self
                     /\ _axis_info a = _axis_info self)
           (reading_in_range (_axis_info self)))
    with (events := events) (self := self); try assumption;
    [|split; [exact Hb|split; reflexivity]].
  intros a e a' _ (Hba & Hdz & Hta) He Hef.
  destruct (event_effect_params _ _ _ Hef) as (Hdz' & _ & _ & Hta').
  split; [|split; congruence].
  apply (event_effect_bounded a e a' Hba); try assumption;
    rewrite ?Hdz, ?Hta; assumption.
Qed.

Lemma step_effect_bounded s i s' :
  session_inv s -> outputs_bounded (shim s) ->
  (0 <= deadzone (shim s))%Q -> (deadzone (shim s) < 1)%Q ->
  input_in_range (shim s) i = true -> step_effect s i s' ->
  outputs_bounded (shim s') /\
  (0 <= deadzone (shim s'))%Q /\ (deadzone (shim s') < 1)%Q.
Proof.
  intros [Hok _] Hb Hd0 Hd1 Hi He.
  destruct He as [d|v|p|i Hw|i Hw|devices d abs Hdev Hfind Hcaps
                 |d sx sy sz Hdev Sx Sy Sz|d events a Hdev Hev]; cbn [shim].
  - cbn [input_in_range] in Hi. apply deadzone_ok_spec in Hi.
    split; [now destruct (shim s)|]. now destruct (shim s).
  - split; [now destruct (shim s)|]. now destruct (shim s).
  - split; [now destruct (shim s)|]. now destruct (shim s).
  - now split.
  - split; [|now split].
    unfold outputs_bounded. cbn [_lx _ly _ry _rt h].
    do 4 (split; [split; lra|]).
    unfold analog_outputs_in_range, pin_in.
    repeat match goal with |- _ /\ _ => split end;
      (exists 0%Q; split; [reflexivity|split; lra]).
  - split; [|now destruct (shim s)].
    destruct Hb as (Bx & By & Bz & Bt & Hp).
    destruct Hp as (P1 & P2 & P3 & P4 & P5 & P6 & P7 & P8 & P9).
    destruct (shim s); unfold outputs_bounded;
      cbn [with_h with_axis_info h _lx _ly _ry _rt] in *.
    do 4 (split; [assumption|]). pins_in_range.
  - split; [|now destruct (shim s)].
    now apply jog_update_bounded.
  - cbn [input_in_range] in Hi.
    pose proof (handle_events_bounded _ _ _ Hok Hb Hd0 Hd1 Hi Hev) as Hba.
    split; [exact Hba|].
    assert (Hdz : deadzone a = deadzone (shim s)).
    { apply (handle_events_invariant
               (fun a => deadzone a = deadzone (shim s)))
        with (events := events) (self := shim s); try assumption; [|reflexivity].
      intros a0 e a1 _ Ha0 Hef.
      destruct (event_effect_params _ _ _ Hef) as (Hdz' & _). congruence. }
    now rewrite Hdz.
Qed.

Lemma run_bounded inputs :
  forall s,
    session_inv s -> outputs_bounded (shim s) ->
    (0 <= deadzone (shim s))%Q -> (deadzone (shim s) < 1)%Q ->
    run_in_range s inputs = true ->
    exists s', run s inputs = Ok s' /\ outputs_bounded (shim s').
Proof.
  induction inputs as [|i rest IH]; intros s Hinv Hb Hd0 Hd1 Hr.
  - exists s. now split.
  - cbn [run_in_range] in Hr. apply andb_prop in Hr as [Hi Hr].
    destruct (step_returns s i Hinv) as [s1 Hs1]; [lra|].
    rewrite Hs1 in Hr. cbn [run]. rewrite Hs1. cbn [mbind result_bind].
    pose proof (step_effect_of _ _ _ (proj1 Hinv) Hs1) as He.
    destruct (step_effect_bounded _ _ _ Hinv Hb Hd0 Hd1 Hi He)
      as (Hb1 & Hd01 & Hd11).
    exact (IH s1 (step_inv _ _ _ Hinv Hs1) Hb1 Hd01 Hd11 Hr).
Qed.

(** X8: as long as every reading lies within the bounds that the range
    table in use has for its axis, and every deadzone written lies in
    [0,1), the run goes on and all analog outputs stay in range: lx, ly,
    rx, ry and the three jog outputs in [-1,1], lt and rt in [0,1]. *)
Theorem X8_outputs_stay_in_range (inputs : list input) :
  run_in_range initial inputs = true ->
  exists s, main inputs = Ok s /\ analog_outputs_in_range (h (shim s)).
Proof.
  intros Hr. rewrite main_run.
  destruct (run_bounded inputs initial initial_inv) as (s & Hs & Hb);
    [| cbn; lra | cbn; lra | exact Hr |].
  - unfold outputs_bounded. cbn [initial shim _lx _ly _ry _rt h].
    do 4 (split; [split; lra|]).
    unfold analog_outputs_in_range, pin_in.
    repeat match goal with |- _ /\ _ => split end;
      (exists 0%Q; split; [reflexivity|split; lra]).
  - exists s. split; [exact Hs|]. apply Hb.
Qed.

(** Both sticks and both triggers are swept over their ranges. *)
Lemma X8_outputs_stay_in_range_witness :
  exists s, main sweep = Ok s /\ analog_outputs_in_range (h (shim s)).
Proof.
  apply (X8_outputs_stay_in_range sweep). vm_compute. reflexivity.
Defined.

(** ** Calibration outside the reported range *)

Section Unclamped.
Local Open Scope Q_scope.

Lemma between_bounds (lo hi raw : Z) :
  (Z.min lo hi <= raw <= Z.max lo hi)%Z <->
  (0 < inject_Z (hi - lo) /\ 0 <= inject_Z (raw - lo)
   /\ inject_Z (raw - lo) <= inject_Z (hi - lo)) \/
  (inject_Z (hi - lo) <= 0 /\ inject_Z (hi - lo) <= inject_Z (raw - lo)
   /\ inject_Z (raw - lo) <= 0).
Proof. unfold Qle, Qlt, inject_Z. simpl. lia. Qed.

Lemma unit_ratio (n c t : Q) :
  ~ c == 0 -> t * c == n ->
  ((0 < c /\ 0 <= n /\ n <= c) \/ (c <= 0 /\ c <= n /\ n <= 0)) <->
  (0 <= t /\ t <= 1).
Proof.
  intros Hc Ht. destruct (Qlt_le_dec 0 c) as [Hpos|Hneg].
  - split.
    + intros [(_ & H1 & H2)|(H0 & _)]; [split; nra | lra].
    + intros [H1 H2]. left. repeat split; nra.
  - assert (Hlt : c < 0) by (apply Qle_lteq in Hneg as [H|H]; [exact H|contradiction]).
    split.
    + intros [(H0 & _)|(_ & H1 & H2)]; [lra | split; nra].
    + intros [H1 H2]. right. repeat split; nra.
Qed.

End Unclamped.

(** X17: the calibrator does not clamp.  For a known axis with two
    different bounds, in either order, the stick value is twice the
    trigger value minus 1, the stick value lies in [-1,1] exactly when the
    raw reading lies between the two bounds, and the trigger value lies in
    [0,1] exactly then. *)
Theorem X17_calibration_not_clamped (self : GamepadShim)
    (code lo hi raw : Z) :
  _axis_info self !! code = Some (lo, hi) -> lo <> hi ->
  exists a t,
    _scale_axis self code raw = Ok a /\ _scale_trigger self code raw = Ok t /\
    (a == 2 * t - 1)%Q /\
    (Z.min lo hi <= raw <= Z.max lo hi <-> (-1 <= a)%Q /\ (a <= 1)%Q) /\
    (Z.min lo hi <= raw <= Z.max lo hi <-> (0 <= t)%Q /\ (t <= 1)%Q).
Proof.
  intros Hinfo Hne.
  assert (Hc : ~ (inject_Z (hi - lo) == 0)%Q)
    by (apply inject_Z_sub_nonzero; congruence).
  do 2 eexists.
  split; [exact (scale_axis_known _ _ raw _ _ Hinfo Hne)|].
  split; [exact (scale_trigger_known _ _ raw _ _ Hinfo Hne)|].
  set (t := (inject_Z (raw - lo) / inject_Z (hi - lo))%Q).
  assert (Ea : (2 * inject_Z (raw - lo) / inject_Z (hi - lo) - 1
                == 2 * t - 1)%Q) by (unfold t; field; exact Hc).
  assert (Ht : (t * inject_Z (hi - lo) == inject_Z (raw - lo))%Q)
    by (unfold t; field; exact Hc).
  pose proof (unit_ratio _ _ _ Hc Ht) as Hu.
  pose proof (between_bounds lo hi raw) as Hb.
  split; [exact Ea|]. split.
  - rewrite Ea, Hb, Hu. split; intros [H1 H2]; split; lra.
  - now rewrite Hb, Hu.
Qed.

(** Range [0,255] and the reading 300: neither value is in range. *)
Lemma X17_calibration_not_clamped_witness :
  exists a t,
    _scale_axis (shim_with_table table_0_255) ecodes.ABS_X 300 = Ok a /\
    _scale_trigger (shim_with_table table_0_255) ecodes.ABS_X 300 = Ok t /\
    ~ ((-1 <= a)%Q /\ (a <= 1)%Q) /\ ~ ((0 <= t)%Q /\ (t <= 1)%Q).
Proof.
  destruct (X17_calibration_not_clamped (shim_with_table table_0_255)
                                        ecodes.ABS_X 0 255 300)
    as (a & t & Ha & Ht & _ & Hia & Hit); [reflexivity | lia |].
  exists a, t. split; [exact Ha|]. split; [exact Ht|].
  split; intros H; [apply Hia in H | apply Hit in H]; lia.
Defined.

(** ** A new session after a disconnect *)

Ltac table_only :=
  unfold same_but_table, with_axis_info, with_deadzone, with_vendor,
    with_product in *;
  cbn [h deadzone vendor product _lx _ly _ry _rt _axis_info] in *;
  congruence.

Lemma find_device_from_same_but_table a b vid pid devices :
  same_but_table a b ->
  (find_device_from a vid pid devices).1
  = (find_device_from b vid pid devices).1 /\
  match (find_device_from a vid pid devices).1 with
  | Some _ =>
      (find_device_from a vid pid devices).2
      = (find_device_from b vid pid devices).2
  | None =>
      (find_device_from a vid pid devices).2 = a /\
      (find_device_from b vid pid devices).2 = b
  end.
Proof.
  intros Hab.
  induction devices as [|[d|e] rest IH]; cbn [find_device_from];
    [now split| |exact IH].
  destruct (negb (vid =? 0) && negb (info_vendor d =? vid)); [exact IH|].
  destruct (negb (pid =? 0) && negb (info_product d =? pid)); [exact IH|].
  destruct (capabilities d) as [[abs|]|]; try exact IH.
  cbn [fst snd]. split; [reflexivity|].
  clear IH. destruct a, b. table_only.
Qed.

Lemma same_but_table_fields a b :
  same_but_table a b ->
  h a = h b /\ deadzone a = deadzone b /\ vendor a = vendor b /\
  product a = product b /\ _lx a = _lx b /\ _ly a = _ly b /\
  _ry a = _ry b /\ _rt a = _rt b.
Proof.
  unfold same_but_table. destruct a, b. cbn. intros [=]. now repeat split.
Qed.

Lemma same_but_table_params a b d v p :
  same_but_table a b ->
  same_but_table (with_deadzone a d) (with_deadzone b d) /\
  same_but_table (with_vendor a v) (with_vendor b v) /\
  same_but_table (with_product a p) (with_product b p).
Proof. intros Hab. destruct a, b. split; [|split]; table_only. Qed.

Lemma same_but_table_reset a b :
  same_but_table a b ->
  same_but_table
    (mkShim new_pins (deadzone a) (vendor a) (product a) 0 0 0 0
            (_axis_info a))
    (mkShim new_pins (deadzone b) (vendor b) (product b) 0 0 0 0
            (_axis_info b)).
Proof. intros Hab. destruct a, b. table_only. Qed.

Lemma at_rest_same_but_table a b :
  at_rest a -> at_rest b ->
  deadzone a = deadzone b -> vendor a = vendor b -> product a = product b ->
  same_but_table a b.
Proof.
  unfold at_rest. intros (? & ? & ? & ? & ?) (? & ? & ? & ? & ?) ? ? ?.
  destruct a, b. table_only.
Qed.

Lemma same_session_step s1 s2 i s1' :
  session_inv s1 -> session_inv s2 -> same_session s1 s2 ->
  step s1 i = Ok s1' ->
  exists s2', step s2 i = Ok s2' /\ same_session s1' s2'.
Proof.
  intros [Hok1 _] [Hok2 _] [->|(Hd1 & Hd2 & Hab)] H.
  { exists s1'. split; [exact H | now left]. }
  pose proof (same_but_table_fields _ _ Hab)
    as (Hh & Hdz & Hv & Hp & Hx & Hy & Hz & Ht).
  destruct i as [devices| | | |d|v|p]; cbn [step] in *;
    rewrite ?Hd1 in H; rewrite ?Hd2.
  - unfold _find_device in *. rewrite <- Hv, <- Hp.
    destruct (find_device_from_same_but_table
                _ _ (vendor (shim s1)) (product (shim s1)) devices Hab)
      as [Hfst Hsnd].
    destruct (find_device_from (shim s1) (vendor (shim s1))
                               (product (shim s1)) devices) as [[d|] a1];
      destruct (find_device_from (shim s2) (vendor (shim s1))
                                 (product (shim s1)) devices) as [[d'|] a2];
      cbn [fst snd] in *; try discriminate Hfst.
    + injection Hfst as <-. subst a2.
      exists s1'. split; [exact H | now left].
    + destruct Hsnd as [-> ->].
      rewrite (reset_ok _ Hok1) in H. rewrite (reset_ok _ Hok2).
      cbn [mbind result_bind] in *. injection H as <-.
      eexists. split; [reflexivity|]. right. cbn [dev shim].
      split; [reflexivity|]. split; [reflexivity|].
      now apply same_but_table_reset.
  - injection H as <-. exists s2. split; [reflexivity|]. now right.
  - injection H as <-. exists s2. split; [reflexivity|]. now right.
  - injection H as <-. exists s2. split; [reflexivity|]. now right.
  - injection H as <-. eexists. split; [reflexivity|]. right. cbn [dev shim].
    split; [reflexivity|]. split; [reflexivity|].
    exact (proj1 (same_but_table_params _ _ d 0 0 Hab)).
  - injection H as <-. eexists. split; [reflexivity|]. right. cbn [dev shim].
    split; [reflexivity|]. split; [reflexivity|].
    exact (proj1 (proj2 (same_but_table_params _ _ 0 v 0 Hab))).
  - injection H as <-. eexists. split; [reflexivity|]. right. cbn [dev shim].
    split; [reflexivity|]. split; [reflexivity|].
    exact (proj2 (proj2 (same_but_table_params _ _ 0 0 p Hab))).
Qed.

Lemma same_session_run inputs :
  forall s1 s2 s1',
    session_inv s1 -> session_inv s2 -> same_session s1 s2 ->
    run s1 inputs = Ok s1' ->
    exists s2', run s2 inputs = Ok s2' /\ same_session s1' s2'.
Proof.
  induction inputs as [|i rest IH]; intros s1 s2 s1' Hi1 Hi2 Hs H.
  - injection H as <-. now exists s2.
  - cbn [run] in H. bind_inv H.
    destruct (same_session_step _ _ _ _ Hi1 Hi2 Hs Ha) as (b & Hb & Hsb).
    cbn [run]. rewrite Hb. cbn [mbind result_bind].
    exact (IH a b s1' (step_inv _ _ _ Hi1 Ha) (step_inv _ _ _ Hi2 Hb) Hsb H).
Qed.

Lemma run_params inputs s s' :
  session_inv s ->
  forallb (fun i => negb (is_param_write i)) inputs = true ->
  run s inputs = Ok s' ->
  deadzone (shim s') = deadzone (shim s) /\
  vendor (shim s') = vendor (shim s) /\
  product (shim s') = product (shim s).
Proof.
  intros Hinv Hall Hrun.
  refine (run_invariant
            (fun s0 => deadzone (shim s0) = deadzone (shim s) /\
                       vendor (shim s0) = vendor (shim s) /\
                       product (shim s0) = product (shim s))
            (fun i => negb (is_param_write i))
            _ inputs s s' Hinv _ Hall Hrun);
    [|split; [reflexivity|split; reflexivity]].
  intros s0 i s1 Hinv0 (Hd & Hv & Hp) Hi He.
  apply negb_true_iff in Hi.
  destruct (step_effect_params _ _ _ Hinv0 Hi He) as (-> & -> & ->).
  split; [exact Hd|split; [exact Hv|exact Hp]].
Qed.

(** X18: a disconnect forgets the session before it.  Two runs that have
    both returned to discovery with the same three parameters behave alike
    from there on, whatever happened before: the same inputs give the same
    pins and the same open device, and from the next successful discovery
    on the whole state is the same.  The range table left over from the
    earlier session has no effect. *)
Theorem X18_disconnect_forgets (inputs1 inputs2 inputs : list input)
    (s1 s2 s1' : session) :
  main inputs1 = Ok s1 -> main inputs2 = Ok s2 ->
  scanning s1 = true -> scanning s2 = true ->
  deadzone (shim s1) = deadzone (shim s2) ->
  vendor (shim s1) = vendor (shim s2) ->
  product (shim s1) = product (shim s2) ->
  run s1 inputs = Ok s1' ->
  exists s2',
    run s2 inputs = Ok s2' /\
    h (shim s2') = h (shim s1') /\ dev s2' = dev s1' /\
    (scanning s1' = false -> s2' = s1').
Proof.
  intros H1 H2 Hs1 Hs2 Hdz Hv Hp H.
  pose proof (main_inv _ _ H1) as Hi1.
  pose proof (main_inv _ _ H2) as Hi2.
  apply scanning_true in Hs1, Hs2.
  assert (Hsame : same_session s1 s2).
  { right. split; [exact Hs1|]. split; [exact Hs2|].
    exact (at_rest_same_but_table _ _ (proj2 Hi1 Hs1) (proj2 Hi2 Hs2)
             Hdz Hv Hp). }
  destruct (same_session_run inputs s1 s2 s1' Hi1 Hi2 Hsame H)
    as (s2' & Hr & [->|(Hd1 & Hd2 & Hab)]).
  - exists s2'. now repeat split.
  - exists s2'. split; [exact Hr|].
    destruct (same_but_table_fields _ _ Hab) as (Hh & _).
    split; [now symmetry|]. split; [congruence|].
    unfold scanning. rewrite Hd1. discriminate.
Qed.

(** A session with [other_pad], after a session with [gamepad] that ended
    in an unplug, and the same session after a fresh start. *)
Lemma X18_disconnect_forgets_witness :
  exists s1 s1' s2',
    main play_then_unplug = Ok s1 /\
    run s1 play_other_pad = Ok s1' /\
    main play_other_pad = Ok s2' /\ s2' = s1'.
Proof.
  destruct (returns_with_spec
              (fun s1 => scanning s1
                         && returns_with (fun s => negb (scanning s))
                                         (run s1 play_other_pad))
              (main play_then_unplug)) as (s1 & H1 & Hc);
    [vm_compute; reflexivity|].
  apply andb_prop in Hc as [Hscan Hc].
  destruct (returns_with_spec _ _ Hc) as (s1' & Hr & Hconn).
  apply negb_true_iff in Hconn.
  assert (Hpar : deadzone (shim s1) = deadzone (shim initial) /\
                 vendor (shim s1) = vendor (shim initial) /\
                 product (shim s1) = product (shim initial)).
  { apply (run_params play_then_unplug initial s1 initial_inv);
      [reflexivity|]. rewrite <- main_run. exact H1. }
  destruct Hpar as (Hdz & Hv & Hp).
  destruct (X18_disconnect_forgets play_then_unplug [] play_other_pad
              s1 initial s1' H1)
    as (s2' & Hr2 & _ & _ & Hall);
    [reflexivity | exact Hscan | reflexivity | exact Hdz | exact Hv
    | exact Hp | exact Hr |].
  exists s1, s1', s2'. split; [exact H1|]. split; [exact Hr|].
  split; [rewrite main_run; exact Hr2 | exact (Hall Hconn)].
Defined.
